(** * CursWord: request orchestration and code materialisation

    A shallow embedding of the TypeScript sources
    [services/localInferenceService.ts], [services/multiProviderService.ts]
    and of the zustand store (the orchestrator), together with the
    properties stated about them.

    Conventions.  JavaScript strings are modelled by [string]: sequences of
    8-bit character codes (the Latin-1 range of UTF-16 code units).  Case
    mapping is the ASCII one.  A JavaScript object used as a dictionary is an
    association list kept in the engine's property order.  Asynchronous
    functions are modelled by the value they resolve to, threading the
    session state and the answers of the outside world (network, file
    server, clock) explicitly. *)

From Stdlib Require Import String Ascii List Bool Arith NArith ZArith Lia.
From Stdlib Require Import DecimalString.
Import ListNotations.
Open Scope list_scope.
Open Scope string_scope.

Set Implicit Arguments.
Set Warnings "-register-all".

(* ------------------------------------------------------------------ *)
(** ** JavaScript string primitives *)
(* ------------------------------------------------------------------ *)

Module Js.

(** White space and line terminators, as used by [String.prototype.trim]
    and by the regular-expression class [\s] (restricted to 8-bit codes). *)
Definition is_space (c : ascii) : bool :=
  let n := nat_of_ascii c in
  ((9 <=? n) && (n <=? 13) || (n =? 32) || (n =? 160))%nat.

Definition is_digit (c : ascii) : bool :=
  let n := nat_of_ascii c in ((48 <=? n) && (n <=? 57))%nat.

Definition is_upper (c : ascii) : bool :=
  let n := nat_of_ascii c in ((65 <=? n) && (n <=? 90))%nat.

Definition is_lower (c : ascii) : bool :=
  let n := nat_of_ascii c in ((97 <=? n) && (n <=? 122))%nat.

Definition lower (c : ascii) : ascii :=
  if is_upper c then ascii_of_nat (nat_of_ascii c + 32) else c.

Definition upper (c : ascii) : ascii :=
  if is_lower c then ascii_of_nat (nat_of_ascii c - 32) else c.

Fixpoint map_chars (f : ascii -> ascii) (s : string) : string :=
  match s with
  | EmptyString => EmptyString
  | String c s' => String (f c) (map_chars f s')
  end.

(** Case mapping of the letters [a] to [z] and [A] to [Z]; every other
    code is left as it is, also the letters beyond ASCII that JavaScript
    maps as well. *)
Definition toLowerCase : string -> string := map_chars lower.
Definition toUpperCase : string -> string := map_chars upper.

Fixpoint startsWith (s p : string) {struct p} : bool :=
  match p, s with
  | EmptyString, _ => true
  | String a p', String b s' => Ascii.eqb a b && startsWith s' p'
  | String _ _, EmptyString => false
  end.

(** [s.includes(sub)] *)
Fixpoint includes (s sub : string) : bool :=
  startsWith s sub ||
  match s with
  | EmptyString => false
  | String _ s' => includes s' sub
  end.

(** [s.includes(c)] for a one-character needle. *)
Fixpoint has_char (c : ascii) (s : string) : bool :=
  match s with
  | EmptyString => false
  | String a s' => Ascii.eqb a c || has_char c s'
  end.

Fixpoint trimStart (s : string) : string :=
  match s with
  | EmptyString => EmptyString
  | String c s' => if is_space c then trimStart s' else s
  end.

Fixpoint trimEnd (s : string) : string :=
  match s with
  | EmptyString => EmptyString
  | String c s' =>
      match trimEnd s' with
      | EmptyString => if is_space c then EmptyString else String c EmptyString
      | t => String c t
      end
  end.

Definition trim (s : string) : string := trimEnd (trimStart s).

(** [s.split(sep)] for a one-character separator: never the empty list. *)
Fixpoint split (sep : ascii) (s : string) : list string :=
  match s with
  | EmptyString => [EmptyString]
  | String c s' =>
      if Ascii.eqb c sep then EmptyString :: split sep s'
      else match split sep s' with
           | [] => [String c EmptyString]
           | x :: xs => String c x :: xs
           end
  end.

(** [s.split(sep).pop()] *)
Fixpoint last_segment (sep : ascii) (s : string) : string :=
  match s with
  | EmptyString => EmptyString
  | String c s' =>
      if has_char sep s then
        (if Ascii.eqb c sep then
           (if has_char sep s' then last_segment sep s' else s')
         else last_segment sep s')
      else s
  end.

Fixpoint drop (n : nat) (s : string) : string :=
  match n, s with
  | 0, _ => s
  | S n', String _ s' => drop n' s'
  | S _, EmptyString => EmptyString
  end.

Fixpoint take (n : nat) (s : string) : string :=
  match n, s with
  | 0, _ => EmptyString
  | S n', String c s' => String c (take n' s')
  | S _, EmptyString => EmptyString
  end.

Fixpoint all (p : ascii -> bool) (s : string) : bool :=
  match s with
  | EmptyString => true
  | String c s' => p c && all p s'
  end.

Definition is_empty (s : string) : bool :=
  match s with EmptyString => true | _ => false end.

Definition nl : ascii := ascii_of_nat 10.
Definition NL : string := String nl EmptyString.
Definition dquote : ascii := ascii_of_nat 34.

(** Test data is written with single quotes standing for double quotes. *)
Definition dq (s : string) : string :=
  map_chars (fun c => if Ascii.eqb c "'" then dquote else c) s.

Fixpoint concat_all (l : list string) : string :=
  match l with
  | [] => EmptyString
  | x :: xs => x ++ concat_all xs
  end.

(** [l.join(sep)] *)
Fixpoint join (sep : string) (l : list string) : string :=
  match l with
  | [] => EmptyString
  | [x] => x
  | x :: xs => x ++ sep ++ join sep xs
  end.

End Js.

(* ------------------------------------------------------------------ *)
(** ** Regular expressions: a backtracking matcher

    The matcher follows the continuation semantics of the ECMAScript
    specification: alternatives are tried left to right, a greedy quantifier
    tries one more iteration before stopping, a lazy one stops first, and an
    iteration that consumes nothing is rejected. *)
(* ------------------------------------------------------------------ *)

Module Regex.

Inductive regex : Type :=
| Eps
| Chr (p : ascii -> bool)
| Seq (r1 r2 : regex)
| Alt (r1 r2 : regex)
| Star (greedy : bool) (r : regex)
| Group (i : nat) (r : regex)
| Eos.

Definition captures := list (nat * string).

Fixpoint group (i : nat) (c : captures) : option string :=
  match c with
  | [] => None
  | (j, t) :: c' => if Nat.eqb i j then Some t else group i c'
  end.

Section Matcher.
Variable A : Type.

(** A continuation receives the text matched so far by the current
    sub-expression, the remaining input and the captures. *)
Definition kont := string -> string -> captures -> option A.

Fixpoint star_loop (step : string -> captures -> kont -> option A)
         (greedy : bool) (k : kont)
         (n : nat) (acc s : string) (c : captures) {struct n} : option A :=
  match n with
  | 0 => k acc s c
  | S n' =>
      if greedy then
        match step s c (fun t s' c' =>
                          if Js.is_empty t then None
                          else star_loop step greedy k n' (acc ++ t) s' c') with
        | Some x => Some x
        | None => k acc s c
        end
      else
        match k acc s c with
        | Some x => Some x
        | None => step s c (fun t s' c' =>
                              if Js.is_empty t then None
                              else star_loop step greedy k n' (acc ++ t) s' c')
        end
  end.

Fixpoint m (r : regex) (s : string) (c : captures) (k : kont) {struct r}
  : option A :=
  match r with
  | Eps => k EmptyString s c
  | Chr p =>
      match s with
      | String a s' => if p a then k (String a EmptyString) s' c else None
      | EmptyString => None
      end
  | Seq r1 r2 =>
      m r1 s c (fun t1 s1 c1 =>
        m r2 s1 c1 (fun t2 s2 c2 => k (t1 ++ t2) s2 c2))
  | Alt r1 r2 =>
      match m r1 s c k with
      | Some x => Some x
      | None => m r2 s c k
      end
  | Star g r1 => star_loop (m r1) g k (String.length s) EmptyString s c
  | Group i r1 => m r1 s c (fun t s' c' => k t s' ((i, t) :: c'))
  | Eos =>
      match s with
      | EmptyString => k EmptyString s c
      | String _ _ => None
      end
  end.
End Matcher.

Record result : Type := mkResult
  { pre : string; matched : string; groups : captures; rest : string }.

Definition match_here (r : regex) (s : string)
  : option (string * captures * string) :=
  m r s [] (fun t s' c => Some (t, c, s')).

(** Leftmost match at or after the current position ([RegExp.prototype.exec]
    from [lastIndex]); [skipped] is the text passed over. *)
Fixpoint search (r : regex) (skipped s : string) : option result :=
  match match_here r s with
  | Some (t, c, s') => Some (mkResult skipped t c s')
  | None =>
      match s with
      | EmptyString => None
      | String a s' => search r (skipped ++ String a EmptyString) s'
      end
  end.

(** The idiom [while ((match = re.exec(text)) !== null)] for a global
    expression whose matches are never empty. *)
Fixpoint exec_loop (fuel : nat) (r : regex) (s : string) : list result :=
  match fuel with
  | 0 => []
  | S n =>
      match search r EmptyString s with
      | None => []
      | Some x => x :: exec_loop n r (rest x)
      end
  end.

Definition exec_all (r : regex) (s : string) : list result :=
  exec_loop (S (String.length s)) r s.

(** [s.replace(re, by)] for an expression without the global flag. *)
Definition replace_first (r : regex) (by_ s : string) : string :=
  match search r EmptyString s with
  | None => s
  | Some x => pre x ++ by_ ++ rest x
  end.

(** Derived forms. *)
Fixpoint seqs (l : list regex) : regex :=
  match l with
  | [] => Eps
  | [r] => r
  | r :: l' => Seq r (seqs l')
  end.

Definition Plus (greedy : bool) (r : regex) : regex := Seq r (Star greedy r).
Definition Opt (r : regex) : regex := Alt r Eps.

Fixpoint Lit (s : string) : regex :=
  match s with
  | EmptyString => Eps
  | String c EmptyString => Chr (Ascii.eqb c)
  | String c s' => Seq (Chr (Ascii.eqb c)) (Lit s')
  end.

(** A literal under the [i] flag. *)
Fixpoint LitCI (s : string) : regex :=
  match s with
  | EmptyString => Eps
  | String c EmptyString => Chr (fun a => Ascii.eqb (Js.lower a) (Js.lower c))
  | String c s' =>
      Seq (Chr (fun a => Ascii.eqb (Js.lower a) (Js.lower c))) (LitCI s')
  end.

(** Expressions every match of which holds at least one character. *)
Fixpoint consuming (r : regex) : bool :=
  match r with
  | Chr _ => true
  | Seq r1 r2 => consuming r1 || consuming r2
  | Alt r1 r2 => consuming r1 && consuming r2
  | Group _ r1 => consuming r1
  | Eps | Star _ _ | Eos => false
  end.

(** A quantified character class [[p]*] or [[p]*?] followed by [k], written
    as a scan of the input; the matcher is shown below to compute it. *)
Section Scan.
Variable A : Type.
Variable p : ascii -> bool.
Variable k : kont A.

Fixpoint greedy_scan (acc s : string) (c : captures) : option A :=
  match s with
  | String a s' =>
      if p a then
        match greedy_scan (acc ++ String a EmptyString) s' c with
        | Some x => Some x
        | None => k acc s c
        end
      else k acc s c
  | EmptyString => k acc s c
  end.

(** The scan cannot go past the head of [s]. *)
Definition stops (s : string) : bool :=
  match s with
  | EmptyString => true
  | String a _ => negb (p a)
  end.

Fixpoint lazy_scan (acc s : string) (c : captures) : option A :=
  match k acc s c with
  | Some x => Some x
  | None =>
      match s with
      | String a s' =>
          if p a then lazy_scan (acc ++ String a EmptyString) s' c else None
      | EmptyString => None
      end
  end.
End Scan.

Definition starts_nl (s : string) : bool :=
  match s with
  | EmptyString => false
  | String a _ => Ascii.eqb a Js.nl
  end.

Definition any : ascii -> bool := fun _ => true.
Definition space : ascii -> bool := Js.is_space.
Definition word : ascii -> bool :=
  fun a => Js.is_lower a || Js.is_upper a || Js.is_digit a || Ascii.eqb a "_".
Definition one_of (s : string) : ascii -> bool := fun a => Js.has_char a s.
Definition none_of (s : string) : ascii -> bool :=
  fun a => negb (Js.has_char a s).

End Regex.




(* ------------------------------------------------------------------ *)
(** ** Objects used as dictionaries

    An object is the list of its own enumerable properties in the order
    [Object.keys] reports them: array-index keys first, in ascending numeric
    order, then the other keys in the order of their creation. *)
(* ------------------------------------------------------------------ *)

Module Obj.

Fixpoint digits_value (s : string) (acc : N) : option N :=
  match s with
  | EmptyString => Some acc
  | String c s' =>
      if Js.is_digit c
      then digits_value s' (acc * 10 + (N_of_ascii c - 48))%N
      else None
  end.

(** Canonical numeric strings below [2^32 - 1]. *)
Definition array_index (k : string) : option N :=
  match k with
  | EmptyString => None
  | String c s' =>
      if Ascii.eqb c "0" && negb (Js.is_empty s') then None
      else match digits_value k 0%N with
           | Some n => if (n <=? 4294967294)%N then Some n else None
           | None => None
           end
  end.

(** The keys of an object are pairwise different. *)
Fixpoint distinct (l : list string) : bool :=
  match l with
  | [] => true
  | x :: l' => negb (existsb (String.eqb x) l') && distinct l'
  end.

Section Dict.
Variable A : Type.

Definition t := list (string * A).

Fixpoint get (k : string) (o : t) : option A :=
  match o with
  | [] => None
  | (k', v) :: o' => if String.eqb k' k then Some v else get k o'
  end.

Definition has (k : string) (o : t) : bool :=
  match get k o with Some _ => true | None => false end.

Definition keys (o : t) : list string := map fst o.

Fixpoint update (k : string) (v : A) (o : t) : t :=
  match o with
  | [] => []
  | (k', v') :: o' =>
      if String.eqb k' k then (k', v) :: o' else (k', v') :: update k v o'
  end.

Fixpoint insert_index (n : N) (k : string) (v : A) (o : t) : t :=
  match o with
  | [] => [(k, v)]
  | (k', v') :: o' =>
      match array_index k' with
      | Some n' =>
          if (n' <? n)%N then (k', v') :: insert_index n k v o'
          else (k, v) :: o
      | None => (k, v) :: o
      end
  end.

(** [o[k] = v] *)
Definition set (k : string) (v : A) (o : t) : t :=
  if has k o then update k v o
  else match array_index k with
       | Some n => insert_index n k v o
       | None => (o ++ [(k, v)])%list
       end.

(** [delete o[k]] *)
Definition delete (k : string) (o : t) : t :=
  filter (fun e => negb (String.eqb (fst e) k)) o.

(** [Object.assign(target, source)] and the spread [{...target, ...source}] *)
Definition assign (target source : t) : t :=
  fold_left (fun acc e => set (fst e) (snd e) acc) source target.

(** An object literal or the result of a sequence of assignments. *)
Definition of_list (l : list (string * A)) : t := assign [] l.
End Dict.

End Obj.

(* ------------------------------------------------------------------ *)
(** ** JSON values and [JSON.parse] *)
(* ------------------------------------------------------------------ *)

Module Json.

(** Numbers are kept as exact decimals [m * 10^e].  Of the rounding to
    binary floating point only the overflow is modelled ([overflows],
    which decides what [JSON.stringify] writes); a decimal otherwise stands
    for the double nearest to it. *)
Inductive json : Type :=
| JNull
| JBool (b : bool)
| JNum (m e : Z)
| JStr (s : string)
| JArr (l : list json)
| JObj (o : list (string * json)).

(** A JavaScript value that is either [undefined] or a JSON value. *)
Definition value := option json.
Definition undefined : value := None.

Definition truthy (v : value) : bool :=
  match v with
  | None => false
  | Some JNull => false
  | Some (JBool b) => b
  | Some (JNum m _) => negb (Z.eqb m 0)
  | Some (JStr s) => negb (Js.is_empty s)
  | Some (JArr _) => true
  | Some (JObj _) => true
  end.

(** [a || b] *)
Definition or_else (a b : value) : value := if truthy a then a else b.

Definition string_of_nat (n : nat) : string :=
  DecimalString.NilZero.string_of_uint (Nat.to_uint n).

Fixpoint indexed {B : Type} (i : nat) (l : list B) : list (string * B) :=
  match l with
  | [] => []
  | x :: l' => (string_of_nat i, x) :: indexed (S i) l'
  end.

Fixpoint chars (s : string) : list json :=
  match s with
  | EmptyString => []
  | String c s' => JStr (String c EmptyString) :: chars s'
  end.

(** Own enumerable properties, as copied by the spread syntax. *)
Definition own_props (v : value) : list (string * json) :=
  match v with
  | Some (JObj o) => o
  | Some (JArr l) => indexed 0 l
  | Some (JStr s) => indexed 0 (chars s)
  | _ => []
  end.

(** Property read [v.k]: [None] when it raises a [TypeError] (the receiver is
    [null] or [undefined]). *)
Definition prop (v : value) (k : string) : option value :=
  match v with
  | None => None
  | Some JNull => None
  | Some (JArr l) =>
      if String.eqb k "length" then Some (Some (JNum (Z.of_nat (List.length l)) 0))
      else Some (Obj.get k (indexed 0 l))
  | Some (JStr s) =>
      if String.eqb k "length" then Some (Some (JNum (Z.of_nat (String.length s)) 0))
      else Some (Obj.get k (indexed 0 (chars s)))
  | Some (JObj o) => Some (Obj.get k o)
  | Some _ => Some None
  end.

(** Optional chaining [v?.k]: never raises. *)
Definition prop_opt (v : value) (k : string) : value :=
  match prop v k with
  | Some x => x
  | None => None
  end.

(** [a === b] against a string constant. *)
Definition is_string (v : value) (s : string) : bool :=
  match v with
  | Some (JStr t) => String.eqb t s
  | _ => false
  end.

(** *** Conversion to string *)

Fixpoint strip_zeros (fuel : nat) (m e : Z) : Z * Z :=
  match fuel with
  | 0 => (m, e)
  | S n => if Z.eqb (m mod 10) 0 then strip_zeros n (m / 10)%Z (e + 1)%Z else (m, e)
  end.

Fixpoint zeros (n : nat) : string :=
  match n with 0 => EmptyString | S n' => String "0" (zeros n') end.

Definition string_of_Z (z : Z) : string :=
  DecimalString.NilZero.string_of_int (Z.to_int z).

(** [Number::toString] on an exact decimal. *)
Definition number_to_string (m e : Z) : string :=
  if Z.eqb m 0 then "0" else
  let sign := if Z.ltb m 0 then "-" else EmptyString in
  let '(d, e') := strip_zeros (Z.to_nat (Z.log2 (Z.abs m))) (Z.abs m) e in
  let ds := string_of_Z d in
  let k := Z.of_nat (String.length ds) in
  let n := (k + e')%Z in
  sign ++
  (if Z.leb k n && Z.leb n 21 then ds ++ zeros (Z.to_nat (n - k))
   else if Z.ltb 0 n && Z.leb n 21 then
     Js.take (Z.to_nat n) ds ++ "." ++ Js.drop (Z.to_nat n) ds
   else if Z.ltb (-6) n && Z.leb n 0 then
     "0." ++ zeros (Z.to_nat (- n)) ++ ds
   else
     let ex := ((if Z.ltb 0 (n - 1) then "+" else "-")
                ++ string_of_Z (Z.abs (n - 1))) in
     if Z.eqb k 1 then ds ++ "e" ++ ex
     else Js.take 1 ds ++ "." ++ Js.drop 1 ds ++ "e" ++ ex).

Fixpoint to_string (v : json) : string :=
  match v with
  | JNull => "null"
  | JBool true => "true"
  | JBool false => "false"
  | JNum m e => number_to_string m e
  | JStr s => s
  | JArr l =>
      Js.join ","
        (map (fun x => match x with JNull => EmptyString | _ => to_string x end) l)
  | JObj _ => "[object Object]"
  end.

(** A value as [JSON.parse] builds it: no object has two properties of the
    same name. *)
Fixpoint wf (v : json) : bool :=
  match v with
  | JArr l => forallb wf l
  | JObj o => Obj.distinct (map fst o) && forallb (fun e => wf (snd e)) o
  | _ => true
  end.

(** The decimals that [JSON.parse] reads as [Infinity] or [-Infinity]:
    those of absolute value at least [2^1024 - 2^970], half-way between the
    largest double and [2^1024], from where rounding goes to infinity. *)
Definition overflows (m e : Z) : bool :=
  let a := Z.abs m in
  if Z.eqb a 0 then false
  else if Z.ltb 309 e then true
  else if Z.leb 0 e then Z.leb (2 ^ 1024 - 2 ^ 970) (a * 10 ^ e)
  else if Z.ltb (Z.log2 a) (- e) then false
  else Z.leb ((2 ^ 1024 - 2 ^ 970) * 10 ^ (- e)) a.

(** What [JSON.parse] reads back from the text that [JSON.stringify] writes
    for a value made of JSON data and booleans: the value itself, except
    that an infinite number is written as [null]. *)
Fixpoint written (v : json) : json :=
  match v with
  | JNum m e => if overflows m e then JNull else v
  | JArr l => JArr (map written l)
  | JObj o => JObj (map (fun e => (fst e, written (snd e))) o)
  | _ => v
  end.

(** The properties of an object written and read back. *)
Definition written_props (o : list (string * json)) : list (string * json) :=
  map (fun e => (fst e, written (snd e))) o.

(** Template-literal interpolation of a value. *)
Definition str (v : value) : string :=
  match v with
  | None => "undefined"
  | Some j => to_string j
  end.

(** [a === b] for values read from JSON data: distinct objects and arrays
    are never identical. *)
Definition strict_eq (a b : value) : bool :=
  match a, b with
  | None, None => true
  | Some JNull, Some JNull => true
  | Some (JBool x), Some (JBool y) => Bool.eqb x y
  | Some (JStr x), Some (JStr y) => String.eqb x y
  | Some (JNum m1 e1), Some (JNum m2 e2) =>
      if Z.eqb m1 0 then Z.eqb m2 0
      else
        let '(a1, b1) := strip_zeros (Z.to_nat (Z.log2 (Z.abs m1))) m1 e1 in
        let '(a2, b2) := strip_zeros (Z.to_nat (Z.log2 (Z.abs m2))) m2 e2 in
        Z.eqb a1 a2 && Z.eqb b1 b2
  | _, _ => false
  end.

End Json.



Module JSON.
Import Json.

(** Outcome of a fuelled parser: a result, a [SyntaxError], or not enough
    fuel (shown below never to happen with the fuel [parse] supplies). *)
Inductive outcome (A : Type) : Type :=
| Ok (a : A)
| SyntaxError
| OutOfFuel.
Arguments SyntaxError {A}.
Arguments OutOfFuel {A}.

Definition is_ws (c : ascii) : bool :=
  Ascii.eqb c " " || Ascii.eqb c (ascii_of_nat 9)
  || Ascii.eqb c (ascii_of_nat 10) || Ascii.eqb c (ascii_of_nat 13).

Fixpoint skip_ws (s : string) : string :=
  match s with
  | EmptyString => EmptyString
  | String c s' => if is_ws c then skip_ws s' else s
  end.

Definition hex_digit (c : ascii) : option nat :=
  let n := nat_of_ascii c in
  if Js.is_digit c then Some (n - 48)
  else if ((97 <=? n) && (n <=? 102))%nat then Some (n - 87)
  else if ((65 <=? n) && (n <=? 70))%nat then Some (n - 55)
  else None.

(** Code points above 255 lie outside the modelled alphabet and are read
    as a question mark. *)
Definition char_of_code (n : nat) : ascii :=
  if (n <? 256)%nat then ascii_of_nat n else "?"%char.

Definition unescape (e : ascii) : option ascii :=
  if Ascii.eqb e Js.dquote then Some Js.dquote
  else if Ascii.eqb e "\" then Some "\"%char
  else if Ascii.eqb e "/" then Some "/"%char
  else if Ascii.eqb e "b" then Some (ascii_of_nat 8)
  else if Ascii.eqb e "f" then Some (ascii_of_nat 12)
  else if Ascii.eqb e "n" then Some (ascii_of_nat 10)
  else if Ascii.eqb e "r" then Some (ascii_of_nat 13)
  else if Ascii.eqb e "t" then Some (ascii_of_nat 9)
  else None.

Definition push (c : ascii) (r : option (string * string))
  : option (string * string) :=
  match r with
  | Some (t, rest) => Some (String c t, rest)
  | None => None
  end.

(** The characters of a string literal, after its opening quote. *)
Fixpoint parse_chars (s : string) : option (string * string) :=
  match s with
  | EmptyString => None
  | String c s' =>
      if Ascii.eqb c Js.dquote then Some (EmptyString, s')
      else if Ascii.eqb c "\" then
        match s' with
        | EmptyString => None
        | String e s2 =>
            if Ascii.eqb e "u" then
              match s2 with
              | String h1 (String h2 (String h3 (String h4 s3))) =>
                  match hex_digit h1, hex_digit h2, hex_digit h3, hex_digit h4 with
                  | Some a, Some b, Some c', Some d =>
                      push (char_of_code (((a * 16 + b) * 16 + c') * 16 + d))
                           (parse_chars s3)
                  | _, _, _, _ => None
                  end
              | _ => None
              end
            else
              match unescape e with
              | Some ch => push ch (parse_chars s2)
              | None => None
              end
        end
      else if (nat_of_ascii c <? 32)%nat then None
      else push c (parse_chars s')
  end.

Fixpoint span_digits (s : string) : string * string :=
  match s with
  | EmptyString => (EmptyString, EmptyString)
  | String c s' =>
      if Js.is_digit c
      then let (d, r) := span_digits s' in (String c d, r)
      else (EmptyString, s)
  end.

Fixpoint digits_to_Z (s : string) (acc : Z) : Z :=
  match s with
  | EmptyString => acc
  | String c s' => digits_to_Z s' (acc * 10 + Z.of_nat (nat_of_ascii c - 48))%Z
  end.

Definition parse_fraction (s : string) : option (string * string) :=
  match s with
  | String c s' =>
      if Ascii.eqb c "." then
        let (d, r) := span_digits s' in
        if Js.is_empty d then None else Some (d, r)
      else Some (EmptyString, s)
  | EmptyString => Some (EmptyString, s)
  end.

Definition parse_exponent (s : string) : option (Z * string) :=
  match s with
  | String c s' =>
      if Ascii.eqb c "e" || Ascii.eqb c "E" then
        let '(neg, s1) :=
          match s' with
          | String g s2 =>
              if Ascii.eqb g "-" then (true, s2)
              else if Ascii.eqb g "+" then (false, s2)
              else (false, s')
          | EmptyString => (false, s')
          end in
        let (d, r) := span_digits s1 in
        if Js.is_empty d then None
        else Some ((if neg then Z.opp else id) (digits_to_Z d 0), r)
      else Some (0%Z, s)
  | EmptyString => Some (0%Z, s)
  end.

Definition parse_number (s : string) : option (json * string) :=
  let '(neg, s1) :=
    match s with
    | String c s' => if Ascii.eqb c "-" then (true, s') else (false, s)
    | EmptyString => (false, s)
    end in
  match s1 with
  | EmptyString => None
  | String d s2 =>
      if Js.is_digit d then
        let '(ip, s3) :=
          if Ascii.eqb d "0" then ("0", s2) else span_digits s1 in
        match parse_fraction s3 with
        | None => None
        | Some (fp, s4) =>
            match parse_exponent s4 with
            | None => None
            | Some (ex, s5) =>
                let mant := digits_to_Z (ip ++ fp) 0 in
                Some (JNum (if neg then Z.opp mant else mant)
                           (ex - Z.of_nat (String.length fp)), s5)
            end
        end
      else None
  end.

Definition keyword (w : string) (v : json) (s : string)
  : outcome (json * string) :=
  if Js.startsWith s w then Ok (v, Js.drop (String.length w) s)
  else SyntaxError.

Definition lift (r : option (json * string)) : outcome (json * string) :=
  match r with
  | Some x => Ok x
  | None => SyntaxError
  end.

Fixpoint parse_value (n : nat) (s : string) : outcome (json * string) :=
  match n with
  | 0 => OutOfFuel
  | S n' =>
      match skip_ws s with
      | EmptyString => SyntaxError
      | String c s' as s0 =>
          if Ascii.eqb c "{" then
            match skip_ws s' with
            | EmptyString => SyntaxError
            | String c1 s1 as s1' =>
                if Ascii.eqb c1 "}" then Ok (JObj [], s1)
                else parse_members n' s1' []
            end
          else if Ascii.eqb c "[" then
            match skip_ws s' with
            | EmptyString => SyntaxError
            | String c1 s1 as s1' =>
                if Ascii.eqb c1 "]" then Ok (JArr [], s1)
                else parse_elems n' s1' []
            end
          else if Ascii.eqb c Js.dquote then
            match parse_chars s' with
            | Some (t, r) => Ok (JStr t, r)
            | None => SyntaxError
            end
          else if Ascii.eqb c "-" || Js.is_digit c then lift (parse_number s0)
          else if Ascii.eqb c "t" then keyword "true" (JBool true) s0
          else if Ascii.eqb c "f" then keyword "false" (JBool false) s0
          else if Ascii.eqb c "n" then keyword "null" JNull s0
          else SyntaxError
      end
  end

with parse_elems (n : nat) (s : string) (acc : list json)
  : outcome (json * string) :=
  match n with
  | 0 => OutOfFuel
  | S n' =>
      match parse_value n' s with
      | Ok (v, s1) =>
          match skip_ws s1 with
          | EmptyString => SyntaxError
          | String c s2 =>
              if Ascii.eqb c "," then parse_elems n' s2 (acc ++ [v])%list
              else if Ascii.eqb c "]" then Ok (JArr (acc ++ [v])%list, s2)
              else SyntaxError
          end
      | SyntaxError => SyntaxError
      | OutOfFuel => OutOfFuel
      end
  end

with parse_members (n : nat) (s : string) (acc : list (string * json))
  : outcome (json * string) :=
  match n with
  | 0 => OutOfFuel
  | S n' =>
      match skip_ws s with
      | EmptyString => SyntaxError
      | String q s1 =>
          if Ascii.eqb q Js.dquote then
            match parse_chars s1 with
            | None => SyntaxError
            | Some (key, s2) =>
                match skip_ws s2 with
                | EmptyString => SyntaxError
                | String c s3 =>
                    if Ascii.eqb c ":" then
                      match parse_value n' s3 with
                      | Ok (v, s4) =>
                          match skip_ws s4 with
                          | EmptyString => SyntaxError
                          | String d s5 =>
                              if Ascii.eqb d ","
                              then parse_members n' s5 (Obj.set key v acc)
                              else if Ascii.eqb d "}"
                              then Ok (JObj (Obj.set key v acc), s5)
                              else SyntaxError
                          end
                      | SyntaxError => SyntaxError
                      | OutOfFuel => OutOfFuel
                      end
                    else SyntaxError
                end
            end
          else SyntaxError
      end
  end.

Definition run (s : string) : outcome json :=
  match parse_value (2 * String.length s + 2) s with
  | Ok (v, r) => if Js.is_empty (skip_ws r) then Ok v else SyntaxError
  | SyntaxError => SyntaxError
  | OutOfFuel => OutOfFuel
  end.

(** [JSON.parse(s)]: [None] when it throws. *)
Definition parse (s : string) : option json :=
  match run s with
  | Ok v => Some v
  | _ => None
  end.

End JSON.



(* ------------------------------------------------------------------ *)
(** ** File-action extraction ([services/localInferenceService.ts]) *)
(* ------------------------------------------------------------------ *)

Definition FileMap := Obj.t string.

Module LocalInference.
Import Regex.

Definition detectContentType (content : string) : string :=
  let has := Js.includes content in
  if has "<html" || has "<body" || has "<div" then "html"
  else if has "{" && has "}" && (has "#" || has "." || has "@") then "css"
  else if has "function" || has "const" || has "let"
          || has "import" || has "export" || has "React" then
    (if has "React" || has "<" && has "/>" then "jsx" else "js")
  else if has "def " || has "import " || has "from "
          || has "class " || has "print(" then "py"
  else if match JSON.parse content with Some _ => true | None => false end
  then "json"
  else if has "# " || has "## " || has "```" || has "[" && has "](" then "md"
  else
    let up := Js.includes (Js.toUpperCase content) in
    if up "SELECT" || up "INSERT" || up "UPDATE" || up "CREATE" then "sql"
    else "txt".

Definition compatibleExtensions : Obj.t (list string) :=
  [ ("js", ["js"; "jsx"; "ts"; "tsx"]);
    ("jsx", ["js"; "jsx"; "ts"; "tsx"]);
    ("ts", ["js"; "jsx"; "ts"; "tsx"]);
    ("tsx", ["js"; "jsx"; "ts"; "tsx"]);
    ("py", ["py"]);
    ("html", ["html"; "htm"]);
    ("css", ["css"; "scss"; "sass"; "less"]);
    ("json", ["json"]);
    ("md", ["md"; "markdown"]) ].

Definition mem (x : string) (l : list string) : bool :=
  existsb (String.eqb x) l.

Definition isValidExtensionForContent (extension content : string) : bool :=
  if Js.is_empty extension then false
  else
    let contentType := detectContentType content in
    match Obj.get contentType compatibleExtensions with
    | Some l => mem extension l
    | None => false
    end.

(** [/\.[^.]+$/] *)
Definition extensionRegex : regex :=
  seqs [Lit "."; Plus true (Chr (none_of ".")); Eos].

Definition ensureProperExtension (filename content : string) : string :=
  if Js.includes filename "." then
    let ext := Js.toLowerCase (Js.last_segment "." filename) in
    if isValidExtensionForContent ext content then filename
    else
      let baseName := replace_first extensionRegex EmptyString filename in
      let properExt := detectContentType content in
      baseName ++ "." ++ properExt
  else
    let properExt := detectContentType content in
    filename ++ "." ++ properExt.

(** [/(?:\/\/|#|<!--|--)\s*(?:file|filename|name):\s*([^\n\r]+)/i] *)
Definition filenameRegex : regex :=
  seqs [ Alt (Lit "//") (Alt (Lit "#") (Alt (Lit "<!--") (Lit "--")));
         Star true (Chr space);
         Alt (LitCI "file") (Alt (LitCI "filename") (LitCI "name"));
         Lit ":";
         Star true (Chr space);
         Group 1 (Plus true (Chr (none_of (String Js.nl (String (ascii_of_nat 13) EmptyString))))) ].

(** The table [extensions] of [generateFilename]: its own keys. *)
Definition extensions : Obj.t string :=
  [ ("javascript", "js"); ("js", "js"); ("jsx", "jsx");
    ("typescript", "ts"); ("ts", "ts"); ("tsx", "tsx");
    ("python", "py"); ("py", "py");
    ("html", "html"); ("htm", "html");
    ("css", "css"); ("scss", "scss"); ("sass", "sass"); ("less", "less");
    ("json", "json"); ("xml", "xml"); ("yaml", "yaml"); ("yml", "yml");
    ("markdown", "md"); ("md", "md"); ("sql", "sql");
    ("bash", "sh"); ("shell", "sh");
    ("java", "java"); ("cpp", "cpp"); ("c", "c");
    ("csharp", "cs"); ("cs", "cs"); ("php", "php");
    ("ruby", "rb"); ("rb", "rb"); ("go", "go");
    ("rust", "rs"); ("rs", "rs") ].

(** What a lookup in a plain object finds under a name that the object
    does not own but inherits from [Object.prototype], as a template
    literal prints it: the object [Object.prototype] for [__proto__], a
    built-in function for the other names (written the way V8 prints a
    built-in function). *)
Definition inherited (k : string) : option string :=
  let native name := "function " ++ name ++ "() { [native code] }" in
  if String.eqb k "__proto__" then Some "[object Object]"
  else if String.eqb k "constructor" then Some (native "Object")
  else if existsb (String.eqb k)
            [ "__defineGetter__"; "__defineSetter__"; "__lookupGetter__";
              "__lookupSetter__"; "hasOwnProperty"; "isPrototypeOf";
              "propertyIsEnumerable"; "toLocaleString"; "toString"; "valueOf" ]
  then Some (native k)
  else None.

(** [files[filename] = content] on a plain object: an ordinary assignment.
    Under the name [__proto__] it reaches the setter that every object
    inherits, which ignores a string: no property is created. *)
Definition assign_entry (filename content : string) (files : FileMap) : FileMap :=
  if String.eqb filename "__proto__" then files
  else Obj.set filename content files.

Definition group_or_empty (i : nat) (c : captures) : string :=
  match group i c with Some t => t | None => EmptyString end.

Definition generateFilename (language : string) (index : nat) (content : string)
  : string :=
  match search filenameRegex EmptyString content with
  | Some filenameMatch => Js.trim (group_or_empty 1 (groups filenameMatch))
  | None =>
      let ext := match Obj.get language extensions with
                 | Some e => if Js.is_empty e then "txt" else e
                 | None => match inherited language with
                           | Some e => e
                           | None => "txt"
                           end
                 end in
      let num := Json.string_of_nat (index + 1) in
      if String.eqb language "html" && Nat.eqb index 0 then "index.html"
      else if String.eqb language "css" && Nat.eqb index 0 then "styles.css"
      else if (String.eqb language "javascript" || String.eqb language "js")
              && (Js.includes content "React" || Js.includes content "import React")
      then "component" ++ num ++ ".jsx"
      else if (String.eqb language "javascript" || String.eqb language "js")
              && (Js.includes content "function" || Js.includes content "const"
                  || Js.includes content "let")
      then "script" ++ num ++ ".js"
      else language ++ num ++ "." ++ ext
  end.

(** [/```(\w+)?\s*\n([\s\S]*?)```/gi] *)
Definition codeBlockRegex : regex :=
  seqs [ Lit "```";
         Opt (Group 1 (Plus true (Chr word)));
         Star true (Chr space);
         Lit Js.NL;
         Group 2 (Star false (Chr any));
         Lit "```" ].

Fixpoint codeBlocks_loop (ms : list result) (blockIndex : nat) (files : FileMap)
  : FileMap :=
  match ms with
  | [] => files
  | x :: ms' =>
      let language :=
        match group 1 (groups x) with
        | Some l => if Js.is_empty l then "text" else Js.toLowerCase l
        | None => "text"
        end in
      let content := Js.trim (group_or_empty 2 (groups x)) in
      if negb (Js.is_empty content) && (10 <? String.length content)%nat then
        let filename := generateFilename language blockIndex content in
        codeBlocks_loop ms' (S blockIndex) (assign_entry filename content files)
      else codeBlocks_loop ms' blockIndex files
  end.

Definition extractCodeBlocks (text : string) : FileMap :=
  codeBlocks_loop (exec_all codeBlockRegex text) 0 [].

(** [/\[FILE:\s*([a-zA-Z0-9\/\._-]+)\]\s*(?:```[a-z]*\n)?([\s\S]*?)(?:\n?```|\n?\[\/FILE\]|$)/gi] *)
Definition fileRegex : regex :=
  seqs [ LitCI "[FILE:";
         Star true (Chr space);
         Group 1 (Plus true (Chr (fun a => Js.is_lower a || Js.is_upper a
                                           || Js.is_digit a || Js.has_char a "/._-")));
         Lit "]";
         Star true (Chr space);
         Opt (seqs [ Lit "```";
                     Star true (Chr (fun a => Js.is_lower a || Js.is_upper a));
                     Lit Js.NL ]);
         Group 2 (Star false (Chr any));
         Alt (seqs [Opt (Lit Js.NL); Lit "```"])
             (Alt (seqs [Opt (Lit Js.NL); LitCI "[/FILE]"]) Eos) ].

(** The loop over the [[FILE: ...]] matches.  A normalised name holds a
    dot, so [files[properFilename] = content] is an ordinary property
    write. *)
Fixpoint files_loop (ms : list result) (files : FileMap) : FileMap :=
  match ms with
  | [] => files
  | x :: ms' =>
      let filename := Js.trim (group_or_empty 1 (groups x)) in
      let content := Js.trim (group_or_empty 2 (groups x)) in
      let properFilename := ensureProperExtension filename content in
      files_loop ms' (Obj.set properFilename content files)
  end.

Definition extractFiles (text : string) : FileMap :=
  let files := files_loop (exec_all fileRegex text) [] in
  if Nat.eqb (List.length (Obj.keys files)) 0
  then Obj.assign files (extractCodeBlocks text)
  else files.

(** A path carries an extension that suits its content: the extension is
    among those compatible with the detected content type, or it is the
    detected type itself. *)
Definition consistent (path content : string) : bool :=
  Js.includes path "."
  && (let ext := Js.toLowerCase (Js.last_segment "." path) in
      isValidExtensionForContent ext content
      || String.eqb ext (detectContentType content)).

End LocalInference.

(* ------------------------------------------------------------------ *)
(** ** Framework detection *)
(* ------------------------------------------------------------------ *)

Module Framework.
Import Json.

Inductive FrameworkType : Type :=
| vanilla | react | vue | nextjs | nuxt | svelte | angular | express | fastify.

Record FrameworkInfo : Type := mkFramework
  { type : FrameworkType; version : value; features : list string }.

(** [{ ...pkg.dependencies, ...pkg.devDependencies }]; [None] when reading a
    property of [pkg] raises. *)
Definition mergedDependencies (pkg : json) : option (Obj.t json) :=
  match prop (Some pkg) "dependencies", prop (Some pkg) "devDependencies" with
  | Some d, Some dd => Some (Obj.assign (Obj.assign [] (own_props d)) (own_props dd))
  | _, _ => None
  end.

(** The lookup table [deps] of [detectFramework]
    ([services/localInferenceService.ts]). *)
Definition manifestDependencies (files : FileMap) : Obj.t json :=
  match Obj.get "package.json" files with
  | Some packageJson =>
      if Js.is_empty packageJson then []
      else match JSON.parse packageJson with
           | Some pkg =>
               match mergedDependencies pkg with
               | Some deps => deps
               | None => []
               end
           | None => []
           end
  | None => []
  end.

Definition detectFramework (files : FileMap) : FrameworkInfo :=
  let deps := manifestDependencies files in
  let dep k := Obj.get k deps in
  if truthy (dep "react") then
    let features := ["JSX"; "Hooks"; "Components"] in
    if truthy (dep "next") then
      mkFramework nextjs (dep "next") (features ++ ["SSR"; "API Routes"; "App Router"])%list
    else mkFramework react (dep "react") features
  else if truthy (dep "vue") then
    let features := ["Vue Components"; "Reactivity"; "Templates"] in
    if truthy (dep "nuxt") then
      mkFramework nuxt (dep "nuxt") (features ++ ["SSR"; "Auto-imports"; "Modules"])%list
    else mkFramework vue (dep "vue") features
  else if truthy (dep "svelte") then
    mkFramework svelte (dep "svelte") ["Components"; "Reactivity"; "Stores"]
  else if truthy (dep "@angular/core") then
    mkFramework angular (dep "@angular/core")
                ["Components"; "Services"; "Modules"; "Dependency Injection"]
  else if truthy (dep "express") then
    mkFramework express (dep "express") ["Middleware"; "Routing"; "REST API"]
  else if truthy (dep "fastify") then
    mkFramework fastify (dep "fastify") ["Plugins"; "Hooks"; "Validation"]
  else mkFramework vanilla undefined ["HTML"; "CSS"; "JavaScript"].

(** The manifest declares a dependency: the merged lookup holds a truthy
    value (a non-empty version string) under its name. *)
Definition declares (files : FileMap) (name : string) : bool :=
  truthy (Obj.get name (manifestDependencies files)).

(** The frameworks in order of priority, each with the dependency that
    selects it and the dependency that refines it into another type. *)
Definition priorities : list (string * FrameworkType * option (string * FrameworkType)) :=
  [ ("react", react, Some ("next", nextjs));
    ("vue", vue, Some ("nuxt", nuxt));
    ("svelte", svelte, None);
    ("@angular/core", angular, None);
    ("express", express, None);
    ("fastify", fastify, None) ].

(** First match wins, as a table walk. *)
Fixpoint classify (has : string -> bool)
         (table : list (string * FrameworkType * option (string * FrameworkType)))
  : FrameworkType :=
  match table with
  | [] => vanilla
  | (name, ty, refinement) :: table' =>
      if has name then
        match refinement with
        | Some (extra, refined) => if has extra then refined else ty
        | None => ty
        end
      else classify has table'
  end.

End Framework.

(* ------------------------------------------------------------------ *)
(** ** Provider registry ([services/multiProviderService.ts]) *)
(* ------------------------------------------------------------------ *)

Module Providers.
Import Json.

(** A provider record is a plain object; after a merge with persisted data
    its fields may hold any JSON value. *)
Definition ProviderConfig := Obj.t json.

(** The built-in registry.  The credential written in the OpenRouter entry
    is left out: only its being a non-empty string matters. *)
Definition DEFAULT_PROVIDERS : list ProviderConfig :=
  [[
    ("name", JStr "Ollama");
    ("baseUrl", JStr "http://localhost:11434");
    ("models", JArr [
        JObj [("id", JStr "qwen2.5:0.5b"); ("name", JStr "Qwen 2.5 (Fast)"); ("size", JStr "0.5B"); ("contextLength", JNum 32768 0)];
        JObj [("id", JStr "codegemma:latest"); ("name", JStr "CodeGemma"); ("size", JStr "7.3B"); ("contextLength", JNum 8192 0)];
        JObj [("id", JStr "llama3.2:3b"); ("name", JStr "Llama 3.2 3B"); ("size", JStr "3B"); ("contextLength", JNum 32768 0)] ]);
    ("enabled", JBool true) ];
   [
    ("name", JStr "OpenRouter");
    ("baseUrl", JStr "https://openrouter.ai/api/v1");
    ("apiKey", JStr "sk-or-v1-(credential elided)");
    ("models", JArr [
        JObj [("id", JStr "openai/gpt-oss-120b:free"); ("name", JStr "GPT-OSS 120B (Free)"); ("contextLength", JNum 32768 0)];
        JObj [("id", JStr "meta-llama/llama-3.1-8b-instruct:free"); ("name", JStr "Llama 3.1 8B Instruct (Free)"); ("contextLength", JNum 131072 0)];
        JObj [("id", JStr "meta-llama/llama-3.1-70b-instruct:free"); ("name", JStr "Llama 3.1 70B Instruct (Free)"); ("contextLength", JNum 131072 0)];
        JObj [("id", JStr "meta-llama/llama-3.1-405b-instruct:free"); ("name", JStr "Llama 3.1 405B Instruct (Free)"); ("contextLength", JNum 131072 0)];
        JObj [("id", JStr "microsoft/wizardlm-2-8x22b:free"); ("name", JStr "WizardLM 2 8x22B (Free)"); ("contextLength", JNum 65536 0)];
        JObj [("id", JStr "microsoft/wizardlm-2-7b"); ("name", JStr "WizardLM 2 7B (Free)"); ("contextLength", JNum 32768 0)];
        JObj [("id", JStr "huggingface/zephyr-7b-beta:free"); ("name", JStr "Zephyr 7B Beta (Free)"); ("contextLength", JNum 32768 0)];
        JObj [("id", JStr "openchat/openchat-7b:free"); ("name", JStr "OpenChat 7B (Free)"); ("contextLength", JNum 8192 0)];
        JObj [("id", JStr "anthropic/claude-3-haiku:beta"); ("name", JStr "Claude 3 Haiku (Beta)"); ("contextLength", JNum 200000 0)];
        JObj [("id", JStr "openai/gpt-4o"); ("name", JStr "GPT-4o"); ("contextLength", JNum 128000 0); ("pricing", JObj [("input", JNum 5 (-3)); ("output", JNum 15 (-3))])];
        JObj [("id", JStr "openai/gpt-4o-mini"); ("name", JStr "GPT-4o Mini"); ("contextLength", JNum 128000 0); ("pricing", JObj [("input", JNum 15 (-5)); ("output", JNum 6 (-4))])];
        JObj [("id", JStr "openai/gpt-4-turbo"); ("name", JStr "GPT-4 Turbo"); ("contextLength", JNum 128000 0); ("pricing", JObj [("input", JNum 1 (-2)); ("output", JNum 3 (-2))])];
        JObj [("id", JStr "openai/gpt-4"); ("name", JStr "GPT-4"); ("contextLength", JNum 8192 0); ("pricing", JObj [("input", JNum 3 (-2)); ("output", JNum 6 (-2))])];
        JObj [("id", JStr "openai/gpt-3.5-turbo"); ("name", JStr "GPT-3.5 Turbo"); ("contextLength", JNum 16385 0); ("pricing", JObj [("input", JNum 5 (-4)); ("output", JNum 15 (-4))])];
        JObj [("id", JStr "openai/gpt-3.5-turbo-16k"); ("name", JStr "GPT-3.5 Turbo 16K"); ("contextLength", JNum 16385 0); ("pricing", JObj [("input", JNum 3 (-3)); ("output", JNum 4 (-3))])];
        JObj [("id", JStr "anthropic/claude-3.5-sonnet"); ("name", JStr "Claude 3.5 Sonnet"); ("contextLength", JNum 200000 0); ("pricing", JObj [("input", JNum 3 (-3)); ("output", JNum 15 (-3))])];
        JObj [("id", JStr "anthropic/claude-3-opus"); ("name", JStr "Claude 3 Opus"); ("contextLength", JNum 200000 0); ("pricing", JObj [("input", JNum 15 (-3)); ("output", JNum 75 (-3))])];
        JObj [("id", JStr "anthropic/claude-3-haiku"); ("name", JStr "Claude 3 Haiku"); ("contextLength", JNum 200000 0); ("pricing", JObj [("input", JNum 25 (-5)); ("output", JNum 125 (-5))])];
        JObj [("id", JStr "anthropic/claude-3-sonnet"); ("name", JStr "Claude 3 Sonnet"); ("contextLength", JNum 200000 0); ("pricing", JObj [("input", JNum 3 (-3)); ("output", JNum 15 (-3))])];
        JObj [("id", JStr "google/gemini-pro-1.5"); ("name", JStr "Gemini Pro 1.5"); ("contextLength", JNum 2097152 0); ("pricing", JObj [("input", JNum 125 (-5)); ("output", JNum 5 (-3))])];
        JObj [("id", JStr "google/gemini-flash-1.5"); ("name", JStr "Gemini Flash 1.5"); ("contextLength", JNum 1048576 0); ("pricing", JObj [("input", JNum 75 (-6)); ("output", JNum 3 (-4))])];
        JObj [("id", JStr "google/gemini-pro"); ("name", JStr "Gemini Pro"); ("contextLength", JNum 32768 0); ("pricing", JObj [("input", JNum 25 (-5)); ("output", JNum 5 (-4))])];
        JObj [("id", JStr "meta-llama/llama-3.1-405b-instruct"); ("name", JStr "Llama 3.1 405B Instruct"); ("contextLength", JNum 131072 0); ("pricing", JObj [("input", JNum 2 (-3)); ("output", JNum 2 (-3))])];
        JObj [("id", JStr "meta-llama/llama-3.1-70b-instruct"); ("name", JStr "Llama 3.1 70B Instruct"); ("contextLength", JNum 131072 0); ("pricing", JObj [("input", JNum 9 (-4)); ("output", JNum 9 (-4))])];
        JObj [("id", JStr "meta-llama/llama-3.1-8b-instruct"); ("name", JStr "Llama 3.1 8B Instruct"); ("contextLength", JNum 131072 0); ("pricing", JObj [("input", JNum 3 (-4)); ("output", JNum 3 (-4))])];
        JObj [("id", JStr "meta-llama/llama-3-70b-instruct"); ("name", JStr "Llama 3 70B Instruct"); ("contextLength", JNum 8192 0); ("pricing", JObj [("input", JNum 1 (-3)); ("output", JNum 1 (-3))])];
        JObj [("id", JStr "meta-llama/llama-3-8b-instruct"); ("name", JStr "Llama 3 8B Instruct"); ("contextLength", JNum 8192 0); ("pricing", JObj [("input", JNum 4 (-4)); ("output", JNum 4 (-4))])];
        JObj [("id", JStr "mistralai/mistral-7b-instruct"); ("name", JStr "Mistral 7B Instruct"); ("contextLength", JNum 32768 0); ("pricing", JObj [("input", JNum 2 (-4)); ("output", JNum 2 (-4))])];
        JObj [("id", JStr "mistralai/mistral-7b-instruct:free"); ("name", JStr "Mistral 7B Instruct (Free)"); ("contextLength", JNum 32768 0)];
        JObj [("id", JStr "mistralai/mixtral-8x7b-instruct"); ("name", JStr "Mixtral 8x7B Instruct"); ("contextLength", JNum 32768 0); ("pricing", JObj [("input", JNum 7 (-4)); ("output", JNum 7 (-4))])];
        JObj [("id", JStr "cohere/command-r-plus"); ("name", JStr "Command R Plus"); ("contextLength", JNum 128000 0); ("pricing", JObj [("input", JNum 3 (-3)); ("output", JNum 15 (-3))])];
        JObj [("id", JStr "cohere/command-r"); ("name", JStr "Command R"); ("contextLength", JNum 128000 0); ("pricing", JObj [("input", JNum 5 (-4)); ("output", JNum 15 (-4))])];
        JObj [("id", JStr "groq/llama-3.1-70b"); ("name", JStr "Llama 3.1 70B (Groq)"); ("contextLength", JNum 131072 0); ("pricing", JObj [("input", JNum 59 (-5)); ("output", JNum 79 (-5))])];
        JObj [("id", JStr "groq/llama-3.1-8b"); ("name", JStr "Llama 3.1 8B (Groq)"); ("contextLength", JNum 131072 0); ("pricing", JObj [("input", JNum 5 (-5)); ("output", JNum 8 (-5))])];
        JObj [("id", JStr "groq/mixtral-8x7b"); ("name", JStr "Mixtral 8x7B (Groq)"); ("contextLength", JNum 32768 0); ("pricing", JObj [("input", JNum 27 (-5)); ("output", JNum 27 (-5))])];
        JObj [("id", JStr "xai/grok-beta"); ("name", JStr "Grok Beta"); ("contextLength", JNum 131072 0); ("pricing", JObj [("input", JNum 5 (-3)); ("output", JNum 5 (-3))])];
        JObj [("id", JStr "perplexity/llama-3.1-sonar-large-128k-online"); ("name", JStr "Llama 3.1 Sonar Large 128K"); ("contextLength", JNum 127072 0); ("pricing", JObj [("input", JNum 1 (-3)); ("output", JNum 1 (-3))])];
        JObj [("id", JStr "perplexity/llama-3.1-sonar-small-128k-online"); ("name", JStr "Llama 3.1 Sonar Small 128K"); ("contextLength", JNum 127072 0); ("pricing", JObj [("input", JNum 2 (-4)); ("output", JNum 2 (-4))])];
        JObj [("id", JStr "fireworks/firellava-13b"); ("name", JStr "FireLLaVA 13B"); ("contextLength", JNum 4096 0); ("pricing", JObj [("input", JNum 2 (-4)); ("output", JNum 2 (-4))])];
        JObj [("id", JStr "anthropic/claude-2"); ("name", JStr "Claude 2"); ("contextLength", JNum 100000 0); ("pricing", JObj [("input", JNum 8 (-3)); ("output", JNum 24 (-3))])];
        JObj [("id", JStr "anthropic/claude-instant-1"); ("name", JStr "Claude Instant"); ("contextLength", JNum 100000 0); ("pricing", JObj [("input", JNum 8 (-4)); ("output", JNum 24 (-4))])] ]);
    ("enabled", JBool false) ];
   [
    ("name", JStr "OpenAI");
    ("baseUrl", JStr "https://api.openai.com/v1");
    ("models", JArr [
        JObj [("id", JStr "gpt-4o"); ("name", JStr "GPT-4o"); ("contextLength", JNum 128000 0); ("pricing", JObj [("input", JNum 5 (-3)); ("output", JNum 15 (-3))])];
        JObj [("id", JStr "gpt-4o-mini"); ("name", JStr "GPT-4o Mini"); ("contextLength", JNum 128000 0); ("pricing", JObj [("input", JNum 15 (-5)); ("output", JNum 6 (-4))])];
        JObj [("id", JStr "gpt-3.5-turbo"); ("name", JStr "GPT-3.5 Turbo"); ("contextLength", JNum 16385 0); ("pricing", JObj [("input", JNum 5 (-4)); ("output", JNum 15 (-4))])] ]);
    ("enabled", JBool false) ];
   [
    ("name", JStr "Anthropic");
    ("baseUrl", JStr "https://api.anthropic.com/v1");
    ("models", JArr [
        JObj [("id", JStr "claude-3-5-sonnet-20241022"); ("name", JStr "Claude 3.5 Sonnet"); ("contextLength", JNum 200000 0); ("pricing", JObj [("input", JNum 3 (-3)); ("output", JNum 15 (-3))])];
        JObj [("id", JStr "claude-3-5-haiku-20241022"); ("name", JStr "Claude 3.5 Haiku"); ("contextLength", JNum 200000 0); ("pricing", JObj [("input", JNum 8 (-4)); ("output", JNum 4 (-3))])] ]);
    ("enabled", JBool false) ] ]%Z.

(** The text of a storage item.  A text written by [JSON.stringify] is kept
    as the value that [JSON.parse] reads back from it (see [written]). *)
Inductive text : Type :=
| Raw (s : string)
| Stringified (v : json).

Definition text_truthy (t : text) : bool :=
  match t with
  | Raw s => negb (Js.is_empty s)
  | Stringified _ => true
  end.

Definition parse_text (t : text) : option json :=
  match t with
  | Raw s => JSON.parse s
  | Stringified v => Some v
  end.

(** The module state: the item ['ai-providers'] of [localStorage] ([None]
    when absent) and the current [enabled] field of each object of
    [DEFAULT_PROVIDERS].  Those objects escape through
    [loadProviderConfigs], and [setActiveProvider] writes their [enabled]
    field in place. *)
Record Registry : Type := mkRegistry
  { storage : option text; enabledDefaults : list bool }.

(** The stored item, when it parses, denotes a proper JSON value. *)
Definition wf_storage (reg : Registry) : bool :=
  match storage reg with
  | Some saved =>
      match parse_text saved with
      | Some parsed => wf parsed
      | None => true
      end
  | None => true
  end.

Definition defaultNames : list string :=
  ["Ollama"; "OpenRouter"; "OpenAI"; "Anthropic"].

Definition nameOf (p : ProviderConfig) : value := Obj.get "name" p.
Definition enabledOf (p : ProviderConfig) : value := Obj.get "enabled" p.

Definition initialEnabled : list bool :=
  map (fun o => truthy (Obj.get "enabled" o)) DEFAULT_PROVIDERS.

Definition initial : Registry := mkRegistry None initialEnabled.

Fixpoint withEnabled (i : nat) (flags : list bool) (l : list ProviderConfig)
  : list ProviderConfig :=
  match l with
  | [] => []
  | o :: l' =>
      Obj.set "enabled"
              (JBool (nth i flags (truthy (Obj.get "enabled" o)))) o
      :: withEnabled (S i) flags l'
  end.

(** The objects of [DEFAULT_PROVIDERS] as they currently are. *)
Definition defaultObjects (reg : Registry) : list ProviderConfig :=
  withEnabled 0 (enabledDefaults reg) DEFAULT_PROVIDERS.

(** A loaded provider is one of the built-in objects itself or a fresh
    merged object. *)
Inductive ref : Type :=
| Default (i : nat)
| Merged (o : ProviderConfig).

Definition deref (reg : Registry) (r : ref) : ProviderConfig :=
  match r with
  | Default i => nth i (defaultObjects reg) []
  | Merged o => o
  end.

(** The name behind a reference, which no assignment changes. *)
Definition refName (r : ref) : value :=
  match r with
  | Default i => nth i (map nameOf DEFAULT_PROVIDERS) None
  | Merged o => nameOf o
  end.

(** A merged object is a proper value: no two properties of one name. *)
Definition proper (r : ref) : Prop :=
  match r with
  | Default _ => True
  | Merged o => wf (JObj o) = true
  end.

(** [parsed.find(p => p.name === name)] on the elements of an array: the
    outer [None] is a [TypeError] (an element is [null]). *)
Fixpoint find_by_name (name : value) (l : list json) : option (option json) :=
  match l with
  | [] => Some None
  | p :: l' =>
      match prop (Some p) "name" with
      | None => None
      | Some n => if strict_eq n name then Some (Some p) else find_by_name name l'
      end
  end.

(** [DEFAULT_PROVIDERS.map(defaultProvider => ...)]; [None] when the
    callback raises. *)
Fixpoint merge_defaults (parsed : json) (i : nat) (defaults : list ProviderConfig)
  : option (list ref) :=
  match defaults with
  | [] => Some []
  | defaultProvider :: rest =>
      match parsed with
      | JArr l =>
          match find_by_name (Obj.get "name" defaultProvider) l with
          | None => None
          | Some savedProvider =>
              let r := if truthy savedProvider
                       then Merged (Obj.assign defaultProvider (own_props savedProvider))
                       else Default i in
              match merge_defaults parsed (S i) rest with
              | Some rs => Some (r :: rs)
              | None => None
              end
          end
      | _ => None
      end
  end.

Definition allDefaults (reg : Registry) : list ref :=
  map Default (seq 0 (List.length (defaultObjects reg))).

Definition loadProviderConfigs (reg : Registry) : list ref :=
  match storage reg with
  | Some saved =>
      if text_truthy saved then
        match parse_text saved with
        | Some parsed =>
            match merge_defaults parsed 0 (defaultObjects reg) with
            | Some providers => providers
            | None => allDefaults reg
            end
        | None => allDefaults reg
        end
      else allDefaults reg
  | None => allDefaults reg
  end.

(** [localStorage.setItem] raises when the quota is exceeded or the storage
    is denied; the [catch] logs the error and the item stays as it was.
    [accepted] tells whether the write goes through. *)
Definition saveProviderConfigs (accepted : bool) (configs : list ProviderConfig)
           (reg : Registry) : Registry :=
  if accepted then
    mkRegistry (Some (Stringified (written (JArr (map JObj configs)))))
               (enabledDefaults reg)
  else reg.

Definition getAvailableProviders (reg : Registry) : list ProviderConfig :=
  map (deref reg) (loadProviderConfigs reg).

(** [providers.find(p => p.enabled) || null] *)
Definition getActiveProvider (reg : Registry) : option ProviderConfig :=
  find (fun p => truthy (Obj.get "enabled" p)) (getAvailableProviders reg).

Fixpoint set_nth (i : nat) (b : bool) (initial : list bool) (flags : list bool)
  : list bool :=
  match initial with
  | [] => []
  | d :: initial' =>
      match i with
      | 0 => b :: match flags with [] => initial' | _ :: fs => fs end
      | S i' =>
          match flags with
          | [] => d :: set_nth i' b initial' []
          | f :: fs => f :: set_nth i' b initial' fs
          end
      end
  end.

(** [providers.forEach(p => p.enabled = p.name === providerName)]: writes
    through the references, then the list is saved. *)
Fixpoint enable_only (providerName : string) (rs : list ref) (reg : Registry)
  : list ProviderConfig * Registry :=
  match rs with
  | [] => ([], reg)
  | r :: rs' =>
      let p := deref reg r in
      let flag := strict_eq (Obj.get "name" p) (Some (JStr providerName)) in
      let reg1 :=
        match r with
        | Default i =>
            mkRegistry (storage reg)
                       (set_nth i flag initialEnabled (enabledDefaults reg))
        | Merged _ => reg
        end in
      let '(ps, reg2) := enable_only providerName rs' reg1 in
      (Obj.set "enabled" (JBool flag) p :: ps, reg2)
  end.

Definition setActiveProvider (accepted : bool) (providerName : string)
           (reg : Registry) : Registry :=
  let providers := loadProviderConfigs reg in
  let '(configs, reg') := enable_only providerName providers reg in
  saveProviderConfigs accepted configs reg'.

(** The model catalogue of the active provider, or an empty array. *)
Definition getAvailableModels (reg : Registry) : value :=
  match getActiveProvider reg with
  | None => Some (JArr [])
  | Some provider => Obj.get "models" provider
  end.

End Providers.

(* ------------------------------------------------------------------ *)
(** ** Streaming inference dispatcher ([services/multiProviderService.ts]) *)
(* ------------------------------------------------------------------ *)

Module Dispatcher.
Import Json Providers.

(** A thrown value: an error object with its [name] and [message].  The
    adapters throw [new Error(...)], a failed property read is a
    [TypeError], and the platform rejects a request or a read with an error
    object of its own ([TypeError], [AbortError]). *)
Record JsError : Type := mkError { err_name : string; err_message : string }.
Definition Error (msg : string) : JsError := mkError "Error" msg.
Definition TypeError (msg : string) : JsError := mkError "TypeError" msg.

Record Request : Type := mkRequest
  { url : string; method : string;
    headers : list (string * string); body : json }.

(** What the network does with a request.  A response body delivers its
    decoded chunks in order; then the stream ends, or a read fails. *)
Record Body : Type := mkBody
  { chunks : list string; read_error : option JsError }.

Inductive FetchOutcome : Type :=
| Rejects (e : JsError)
| Responds (ok : bool) (status : nat) (statusText : string) (body : option Body).

Record World : Type := mkWorld
  { fetch : Request -> FetchOutcome; origin : string }.

(** State of a read loop; [calls] lists the arguments of the successive
    invocations of the streaming callback, [deltas] the pieces appended to
    [fullText] (an observation, not a program variable). *)
Record Stream : Type := mkStream
  { fullText : string; buffer : string;
    calls : list string; deltas : list string }.

Definition emit (onStream : bool) (content : value) (st : Stream) : Stream :=
  let piece := str content in
  let text := fullText st ++ piece in
  mkStream text (buffer st)
           (if onStream then (calls st ++ [text])%list else calls st)
           (deltas st ++ [piece])%list.

(** The running concatenations of a list of pieces. *)
Fixpoint running (acc : string) (pieces : list string) : list string :=
  match pieces with
  | [] => []
  | d :: pieces' => (acc ++ d) :: running (acc ++ d) pieces'
  end.

(** The body of a [for (const line of lines)] loop processes a line and
    tells whether it executed [break]. *)
Definition LineStep := string -> Stream -> Stream * bool.

Fixpoint for_lines (step : LineStep) (lines : list string) (st : Stream)
  : Stream :=
  match lines with
  | [] => st
  | line :: lines' =>
      let (st', brk) := step line st in
      if brk then st' else for_lines step lines' st'
  end.

(** One iteration of [while (true)] after a successful read. *)
Definition on_chunk (step : LineStep) (chunk : string) (st : Stream) : Stream :=
  let buf := buffer st ++ chunk in
  let lines := Js.split Js.nl buf in
  let st1 := mkStream (fullText st) (last lines EmptyString) (calls st) (deltas st) in
  for_lines step (removelast lines) st1.

Definition read_all (step : LineStep) (b : Body) : Stream :=
  fold_left (fun st chunk => on_chunk step chunk st) (chunks b)
            (mkStream EmptyString EmptyString [] []).

(** How an asynchronous text-producing function settles: the text it
    resolves to or the error it rejects with, together with the callback
    invocations and the requests made meanwhile. *)
Record Outcome : Type := mkOutcome
  { result : string + JsError; observed : list string; sent : list Request }.

Definition throws (e : JsError) : Outcome := mkOutcome (inr e) [] [].
Definition returns (t : string) : Outcome := mkOutcome (inl t) [] [].

Definition finish (step : LineStep) (fallback : string) (req : Request) (b : Body)
  : Outcome :=
  let st := read_all step b in
  match read_error b with
  | Some e => mkOutcome (inr e) (calls st) [req]
  | None =>
      mkOutcome (inl (if Js.is_empty (fullText st) then fallback else fullText st))
                (calls st) [req]
  end.

(** [v || d] for a constant [d]. *)
Definition or_default (v : value) (d : json) : json :=
  match v with
  | Some j => if truthy v then j else d
  | None => d
  end.

(** The complete lines of a text received so far and the unfinished line
    after them; they are what [split] and [pop] compute. *)
Fixpoint lines_of (t : string) : list string :=
  match t with
  | EmptyString => []
  | String a t' =>
      if Ascii.eqb a Js.nl then EmptyString :: lines_of t'
      else match lines_of t' with
           | [] => []
           | l :: ls => String a l :: ls
           end
  end.

Fixpoint tail_of (t : string) : string :=
  match t with
  | EmptyString => EmptyString
  | String a t' =>
      if Ascii.eqb a Js.nl then tail_of t'
      else match lines_of t' with
           | [] => String a (tail_of t')
           | _ :: _ => tail_of t'
           end
  end.

Definition with_buffer (b : string) (st : Stream) : Stream :=
  mkStream (fullText st) b (calls st) (deltas st).

(** The loop body applied to each line in turn, ignoring [break]. *)
Definition run_lines (step : LineStep) (lines : list string) (st : Stream)
  : Stream :=
  fold_left (fun st line => fst (step line st)) lines st.

(** The read loop on a list of chunks. *)
Definition feed (step : LineStep) (chunks : list string) (st : Stream) : Stream :=
  fold_left (fun st chunk => on_chunk step chunk st) chunks st.


(** Newline-delimited JSON (Ollama). *)
Definition ollama_line (onStream : bool) : LineStep := fun line st =>
  if Js.is_empty (Js.trim line) then (st, false)
  else
    match JSON.parse line with
    | None => (st, false)
    | Some data =>
        match prop (Some data) "done" with
        | None => (st, false)
        | Some done =>
            if truthy done then (st, true)
            else (emit onStream
                       (Some (or_default (prop_opt (Some data) "response")
                                         (JStr EmptyString)))
                       st, false)
        end
    end.

(** [data:]-prefixed lines (OpenAI, OpenRouter, Anthropic). *)
Definition sse_line (on_data : json -> Stream -> Stream) : LineStep :=
  fun line st =>
    if Js.is_empty (Js.trim line) then (st, false)
    else if Js.startsWith line "data: " then
      let dataStr := Js.drop 6 line in
      if String.eqb dataStr "[DONE]" then (st, true)
      else match JSON.parse dataStr with
           | None => (st, false)
           | Some data => (on_data data st, false)
           end
    else (st, false).

(** [data.choices?.[0]?.delta?.content || ''] *)
Definition openai_data (onStream : bool) (data : json) (st : Stream) : Stream :=
  match prop (Some data) "choices" with
  | None => st
  | Some choices =>
      let content :=
        prop_opt (prop_opt (prop_opt choices "0") "delta") "content" in
      emit onStream (Some (or_default content (JStr EmptyString))) st
  end.

(** [if (data.type === 'content_block_delta') ... data.delta?.text || ''] *)
Definition anthropic_data (onStream : bool) (data : json) (st : Stream) : Stream :=
  match prop (Some data) "type" with
  | None => st
  | Some ty =>
      if strict_eq ty (Some (JStr "content_block_delta")) then
        match prop (Some data) "delta" with
        | None => st
        | Some delta =>
            emit onStream (Some (or_default (prop_opt delta "text") (JStr EmptyString))) st
        end
      else st
  end.

(** The part common to the four adapters, once the request is built. *)
Definition exchange (w : World) (req : Request) (api : string)
           (step : LineStep) (fallback : string) : Outcome :=
  match fetch w req with
  | Rejects e => mkOutcome (inr e) [] [req]
  | Responds ok status statusText body =>
      if negb ok then
        mkOutcome (inr (Error (api ++ " API error: " ++ string_of_nat status
                                   ++ " " ++ statusText))) [] [req]
      else match body with
           | None => mkOutcome (inr (Error "Unable to read response stream")) [] [req]
           | Some b => finish step fallback req b
           end
  end.

Definition num (n : Z) : json := JNum n 0.

Definition generateOllamaResponse (w : World) (provider : ProviderConfig)
           (prompt systemInstruction : string) (onStream : bool) (modelId : value)
  : Outcome :=
  let fullPrompt := systemInstruction ++ Js.NL ++ Js.NL ++ "User: " ++ prompt
                    ++ Js.NL ++ "Assistant:" in
  let req :=
    mkRequest (str (Obj.get "baseUrl" provider) ++ "/api/generate") "POST"
      [("Content-Type", "application/json")]
      (JObj [ ("model", or_default modelId (JStr "qwen2.5:0.5b"));
              ("prompt", JStr fullPrompt); ("stream", JBool true);
              ("options", JObj [ ("temperature", JNum 1 (-1)); ("top_p", JNum 9 (-1));
                                 ("top_k", num 40); ("num_predict", num 1024);
                                 ("num_ctx", num 2048) ]) ]) in
  exchange w req "Ollama" (ollama_line onStream)
           "No response generated. The model may still be loading.".

Definition chat_body (model : json) (prompt systemInstruction : string) : json :=
  JObj [ ("model", model);
         ("messages", JArr [ JObj [("role", JStr "system"); ("content", JStr systemInstruction)];
                             JObj [("role", JStr "user"); ("content", JStr prompt)] ]);
         ("stream", JBool true); ("temperature", JNum 1 (-1));
         ("max_tokens", num 1024) ].

Definition generateOpenRouterResponse (w : World) (provider : ProviderConfig)
           (prompt systemInstruction : string) (onStream : bool) (modelId : value)
  : Outcome :=
  if negb (truthy (Obj.get "apiKey" provider)) then
    throws (Error "OpenRouter API key not configured")
  else
    let req :=
      mkRequest (str (Obj.get "baseUrl" provider) ++ "/chat/completions") "POST"
        [ ("Authorization", "Bearer " ++ str (Obj.get "apiKey" provider));
          ("Content-Type", "application/json");
          ("HTTP-Referer", origin w); ("X-Title", "Code Architect") ]
        (chat_body (or_default modelId (JStr "openai/gpt-oss-120b:free"))
                   prompt systemInstruction) in
    exchange w req "OpenRouter" (sse_line (openai_data onStream))
             "No response generated.".

Definition generateOpenAIResponse (w : World) (provider : ProviderConfig)
           (prompt systemInstruction : string) (onStream : bool) (modelId : value)
  : Outcome :=
  if negb (truthy (Obj.get "apiKey" provider)) then
    throws (Error "OpenAI API key not configured")
  else
    let req :=
      mkRequest (str (Obj.get "baseUrl" provider) ++ "/chat/completions") "POST"
        [ ("Authorization", "Bearer " ++ str (Obj.get "apiKey" provider));
          ("Content-Type", "application/json") ]
        (chat_body (or_default modelId (JStr "gpt-4o-mini"))
                   prompt systemInstruction) in
    exchange w req "OpenAI" (sse_line (openai_data onStream))
             "No response generated.".

Definition generateAnthropicResponse (w : World) (provider : ProviderConfig)
           (prompt systemInstruction : string) (onStream : bool) (modelId : value)
  : Outcome :=
  if negb (truthy (Obj.get "apiKey" provider)) then
    throws (Error "Anthropic API key not configured")
  else
    let req :=
      mkRequest (str (Obj.get "baseUrl" provider) ++ "/messages") "POST"
        [ ("x-api-key", str (Obj.get "apiKey" provider));
          ("Content-Type", "application/json");
          ("anthropic-version", "2023-06-01") ]
        (JObj [ ("model", or_default modelId (JStr "claude-3-5-haiku-20241022"));
                ("system", JStr systemInstruction);
                ("messages", JArr [ JObj [("role", JStr "user"); ("content", JStr prompt)] ]);
                ("stream", JBool true); ("max_tokens", num 1024);
                ("temperature", JNum 1 (-1)) ]) in
    exchange w req "Anthropic" (sse_line (anthropic_data onStream))
             "No response generated.".

(** A network that answers every request with a successful response whose
    body delivers the given chunks. *)
Definition streaming (origin : string) (chunks : list string) : World :=
  mkWorld (fun _ => Responds true 200 "OK" (Some (mkBody chunks None))) origin.


(** [modelId || provider.models[0]?.id || 'qwen2.5:0.5b']; an error when
    indexing [provider.models] raises. *)
Definition selectModel (modelId : option string) (provider : ProviderConfig)
  : value + JsError :=
  let given := match modelId with Some m => Some (JStr m) | None => None end in
  if truthy given then inl given
  else
    let models := Obj.get "models" provider in
    match prop models "0" with
    | None =>
        inr (TypeError ("Cannot read properties of " ++ str models
                        ++ " (reading '0')"))
    | Some first =>
        inl (Some (or_default (prop_opt first "id") (JStr "qwen2.5:0.5b")))
    end.

(** The statements of the [try] block of [generateLocalResponse]. *)
Definition respond (w : World) (reg : Registry)
           (prompt systemInstruction : string) (onStream : bool)
           (modelId : option string) : Outcome :=
  match getActiveProvider reg with
  | None => returns "No AI provider configured. Please check your settings."
  | Some provider =>
      match selectModel modelId provider with
      | inr e => throws e
      | inl selectedModelId =>
          let name := Obj.get "name" provider in
          let named n := strict_eq name (Some (JStr n)) in
          if named "Ollama" then
            generateOllamaResponse w provider prompt systemInstruction onStream selectedModelId
          else if named "OpenAI" then
            generateOpenAIResponse w provider prompt systemInstruction onStream selectedModelId
          else if named "Anthropic" then
            generateAnthropicResponse w provider prompt systemInstruction onStream selectedModelId
          else if named "OpenRouter" then
            generateOpenRouterResponse w provider prompt systemInstruction onStream selectedModelId
          else returns ("Provider " ++ str name ++ " not yet supported.")
      end
  end.

(** [try { ... } catch (error) { return handler(error) }] *)
Definition try_catch (body : Outcome) (handler : JsError -> string + JsError)
  : Outcome :=
  match result body with
  | inl _ => body
  | inr e => mkOutcome (handler e) (observed body) (sent body)
  end.

Definition generateLocalResponse (w : World) (reg : Registry)
           (prompt systemInstruction : string) (onStream : bool)
           (modelId : option string) : Outcome :=
  try_catch (respond w reg prompt systemInstruction onStream modelId)
            (fun error =>
               inl ("Error: " ++ err_message error
                    ++ ". Please check your provider configuration.")).

End Dispatcher.

(* ------------------------------------------------------------------ *)
(** ** The store: session state and orchestration handlers *)
(* ------------------------------------------------------------------ *)

Module Store.
Import Regex.

Inductive Role : Type := user | assistant | system.
Inductive ChatMode : Type := ask | plan | agent | debug.

Record ChatMessage : Type := mkMessage
  { id : string; role : Role; content : string;
    timestamp : Z; mode : option ChatMode }.

(** The fields of [AppState] the modelled actions read or write.
    [activeFile] is [None] when it holds [undefined]. *)
Record AppState : Type := mkState
  { files : FileMap;
    activeFile : option string;
    messages : list ChatMessage;
    liveWritingFile : option string;
    statusLog : list string }.

Definition set_files (f : FileMap) (s : AppState) : AppState :=
  mkState f (activeFile s) (messages s) (liveWritingFile s) (statusLog s).
Definition set_activeFile (a : option string) (s : AppState) : AppState :=
  mkState (files s) a (messages s) (liveWritingFile s) (statusLog s).
Definition setLiveWritingFile (f : option string) (s : AppState) : AppState :=
  mkState (files s) (activeFile s) (messages s) f (statusLog s).
Definition add_message (m : ChatMessage) (s : AppState) : AppState :=
  mkState (files s) (activeFile s) (messages s ++ [m])%list
          (liveWritingFile s) (statusLog s).
Definition log (msg : string) (s : AppState) : AppState :=
  mkState (files s) (activeFile s) (messages s) (liveWritingFile s)
          (statusLog s ++ [msg])%list.

(** The store's own [detectFramework], used to word the prompts. *)
Definition detectFramework (files : FileMap) : Framework.FrameworkInfo :=
  let fallback :=
    Framework.mkFramework Framework.vanilla (Some Json.JNull)
                          ["HTML"; "CSS"; "JavaScript"] in
  match Obj.get "package.json" files with
  | None => fallback
  | Some packageJson =>
      if Js.is_empty packageJson then fallback
      else
        match JSON.parse packageJson with
        | None => fallback
        | Some pkg =>
            match Framework.mergedDependencies pkg with
            | None => fallback
            | Some deps =>
                let dep k := Obj.get k deps in
                if Json.truthy (dep "react") then
                  if Json.truthy (dep "next") then
                    Framework.mkFramework Framework.nextjs (dep "next")
                      ["React"; "SSR"; "API Routes"; "App Router"]
                  else
                    Framework.mkFramework Framework.react (dep "react")
                      ["React"; "JSX"; "Hooks"; "Components"]
                else if Json.truthy (dep "vue") then
                  if Json.truthy (dep "nuxt") then
                    Framework.mkFramework Framework.nuxt (dep "nuxt")
                      ["Vue"; "SSR"; "Auto-imports"]
                  else
                    Framework.mkFramework Framework.vue (dep "vue")
                      ["Vue"; "Components"; "Reactivity"]
                else if Json.truthy (dep "svelte") then
                  Framework.mkFramework Framework.svelte (dep "svelte")
                    ["Svelte"; "Components"; "Reactivity"]
                else if Json.truthy (dep "@angular/core") then
                  Framework.mkFramework Framework.angular (dep "@angular/core")
                    ["Angular"; "Components"; "Services"]
                else if Json.truthy (dep "express") then
                  Framework.mkFramework Framework.express (dep "express")
                    ["Express"; "Middleware"; "REST API"]
                else fallback
            end
        end
  end.

(** The store carries its own, identical copies of [detectContentType] and
    [isValidExtensionForContent]. *)
Definition ensureProperFilename (filename content : string) : string :=
  if Js.includes filename "." then
    let ext := Js.toLowerCase (Js.last_segment "." filename) in
    if LocalInference.isValidExtensionForContent ext content then filename
    else
      let baseName :=
        replace_first LocalInference.extensionRegex EmptyString filename in
      let properExt := LocalInference.detectContentType content in
      baseName ++ "." ++ properExt
  else
    let properExt := LocalInference.detectContentType content in
    filename ++ "." ++ properExt.

(** [setFiles(updater)]: the argument is a map or a function of the
    current map. *)
Definition setFiles (updater : FileMap + (FileMap -> FileMap)) (s : AppState)
  : AppState :=
  let newFiles := match updater with
                  | inl m => m
                  | inr f => f (files s)
                  end in
  let validatedFiles :=
    fold_left (fun acc e =>
                 Obj.set (ensureProperFilename (fst e) (snd e)) (snd e) acc)
              newFiles [] in
  set_files validatedFiles s.

Definition same_path (a : option string) (path : string) : bool :=
  match a with
  | Some p => String.eqb p path
  | None => false
  end.

(** The copy [{ ...state.files }] has the same properties in the same
    order. *)
Definition deleteFile (path : string) (state : AppState) : AppState :=
  if (List.length (Obj.keys (files state)) <=? 1)%nat then state
  else
    let nextFiles := Obj.delete path (files state) in
    set_activeFile
      (if same_path (activeFile state) path
       then hd_error (Obj.keys nextFiles)
       else activeFile state)
      (set_files nextFiles state).

(** *** File actions read from the model output *)

Record AIOperation : Type := mkOperation
  { operation : string; filePath : string;
    payload : string; description : string }.

Definition directiveRegex (tag : string) : regex :=
  seqs [ Lit ("[" ++ tag ++ ":");
         Star true (Chr space);
         Group 1 (Plus true (Chr (none_of "]")));
         Lit "]";
         Star true (Chr space);
         Lit Js.NL;
         Group 2 (Star false (Chr any));
         Lit (Js.NL ++ "[/" ++ tag ++ "]") ].

(** [/\[CREATE:\s*([^\]]+)\]\s*\n([\s\S]*?)\n\[\/CREATE\]/g] *)
Definition createRegex : regex := directiveRegex "CREATE".
(** [/\[MODIFY:\s*([^\]]+)\]\s*\n([\s\S]*?)\n\[\/MODIFY\]/g] *)
Definition modifyRegex : regex := directiveRegex "MODIFY".

Definition operation_of (op label : string) (x : result) : AIOperation :=
  let filePath := LocalInference.group_or_empty 1 (groups x) in
  let content := LocalInference.group_or_empty 2 (groups x) in
  mkOperation op (Js.trim filePath) (Js.trim content) (label ++ filePath).

(** The module binds no [apiClient]: its imports are zustand, the types
    and the provider service.  Reading the name at a call site
    [apiClient.executeAIOperation(...)] raises this error before any
    argument is evaluated; the enclosing [try] catches and logs it, and the
    loop goes on. *)
Definition apiClient_unbound : Dispatcher.JsError :=
  Dispatcher.mkError "ReferenceError" "apiClient is not defined".

(** The call sites [apiClient.executeAIOperation(...)] that the two loops
    of [processAICodeActions] reach, in order, each with the arguments
    written there.  They are attempts: every one of them fails with
    [apiClient_unbound], so that no operation reaches the file server. *)
Definition processAICodeActions (aiResponse : string) : list AIOperation :=
  (map (operation_of "create" "AI created file: ") (exec_all createRegex aiResponse)
   ++ map (operation_of "write" "AI modified file: ") (exec_all modifyRegex aiResponse))%list.

(** A directive block as the agent prompt asks for it, and a text made of
    such blocks, one per line group. *)
Definition create_block (path content : string) : string :=
  "[CREATE: " ++ path ++ "]" ++ Js.NL ++ content ++ Js.NL ++ "[/CREATE]".

Fixpoint create_blocks (blocks : list (string * string)) : string :=
  match blocks with
  | [] => EmptyString
  | (path, content) :: blocks' =>
      create_block path content ++ Js.NL ++ create_blocks blocks'
  end.

(** A well-formed block: the path holds no closing bracket and is not
    blank, the content is not blank and holds no closing tag of its own. *)
Definition well_formed (block : string * string) : bool :=
  let (path, content) := block in
  negb (Js.has_char "]" path)
  && negb (Js.is_empty (Js.trimStart path))
  && negb (Js.is_empty (Js.trimStart content))
  && negb (Js.includes content (Js.NL ++ "[/CREATE]")).

Definition is_create (o : AIOperation) : bool := String.eqb (operation o) "create".

(** *** Handlers.  The prompt texts are not modelled: the text a call of
    [generateLocalResponse] resolves to is an input. *)

Definition reply (now : Z) (m : ChatMode) (text : string) : ChatMessage :=
  mkMessage (Json.string_of_Z (now + 1)) assistant text now (Some m).

Definition handleAskMode (response : string) (now : Z) (s : AppState) : AppState :=
  add_message (reply now ask response)
              (log "Processing Question with Rich Context" s).

Definition handleDebugMode (analysis : string) (now : Z) (s : AppState) : AppState :=
  add_message (reply now debug analysis)
              (log "Performing Intelligent Code Analysis" s).

Definition first_key_or (patches : FileMap) (fallback : option string)
  : option string :=
  match hd_error (Obj.keys patches) with
  | Some k => if Js.is_empty k then fallback else Some k
  | None => fallback
  end.

Definition handleAgentMode (codeOutput : string) (now : Z) (s : AppState)
  : AppState * list AIOperation :=
  let s1 := log "Generating Framework-Aware Code"
                (log "Analyzing Request with AI Context" s) in
  let ops := processAICodeActions codeOutput in
  let patches := LocalInference.extractFiles codeOutput in
  let s2 :=
    if (0 <? List.length (Obj.keys patches))%nat then
      log ("Created/Updated: " ++ Js.join ", " (Obj.keys patches))
          (set_activeFile (first_key_or patches (activeFile s1))
                          (set_files (Obj.assign (files s1) patches) s1))
    else s1 in
  (add_message (reply now agent codeOutput) s2, ops).

(** What plan mode receives from outside: two readings of the clock, the
    outcome of [apiClient.createFile] and the text the model call resolves
    to.  In the module as it stands the call fails in every run
    ([apiClient_unbound]), which is [createFile_ok = false]; the other
    outcome is that of a module that binds the name. *)
Record PlanWorld : Type := mkPlanWorld
  { isoNow : string; localeNow : string; now : Z;
    createFile_ok : bool; answer : string }.

Fixpoint replace_char (a b : ascii) (s : string) : string :=
  match s with
  | EmptyString => EmptyString
  | String c s' => if Ascii.eqb c a then String b s' else String c (replace_char a b s')
  end.

Definition planFileName (w : PlanWorld) : string :=
  "PLAN_" ++ replace_char "T" "_" (Js.take 16 (isoNow w)) ++ ".md".

Definition initialPlanContent (content : string) (w : PlanWorld) : string :=
  "# Implementation Plan: " ++ content ++ Js.NL ++ Js.NL
  ++ "*Plan generated on " ++ localeNow w ++ "*" ++ Js.NL ++ Js.NL
  ++ "## Analyzing Requirements..." ++ Js.NL ++ Js.NL
  ++ "*AI is analyzing the task and generating a comprehensive implementation plan...*"
  ++ Js.NL ++ Js.NL
  ++ "---" ++ Js.NL
  ++ "*This plan is being written live by the AI. Watch as the content appears below.*"
  ++ Js.NL ++ "---" ++ Js.NL ++ Js.NL.

Definition successText (name : string) : string :=
  "✅ **Implementation plan created!**" ++ Js.NL ++ Js.NL
  ++ "📄 **File:** `" ++ name ++ "`" ++ Js.NL
  ++ "📝 **Status:** Plan generated and saved to disk" ++ Js.NL
  ++ "👀 **View:** The plan file is now open in the editor" ++ Js.NL ++ Js.NL
  ++ "The AI has analyzed your request and created a comprehensive implementation plan. You can see it being written live in the `"
  ++ name ++ "` file.".

Definition planText (plan : string) : string :=
  "📋 **Implementation Plan**" ++ Js.NL ++ Js.NL ++ plan.

Definition planMessage (w : PlanWorld) (text : string) : ChatMessage :=
  mkMessage (Json.string_of_Z (now w)) assistant text (now w) (Some plan).

(** The loop that writes the plan into the file line by line; [snapshot] is
    the map read once before the loop. *)
Fixpoint write_lines (name : string) (snapshot : FileMap) (lines : list string)
         (currentContent : string) (s : AppState) : AppState :=
  match lines with
  | [] => s
  | line :: lines' =>
      let currentContent' := currentContent ++ line ++ Js.NL in
      write_lines name snapshot lines' currentContent'
                  (set_files (Obj.set name currentContent' snapshot) s)
  end.

(** How a handler completes: normally, or by an exception that reaches
    [orchestrate]. *)
Inductive Completion : Type :=
| Normal
| Throws (e : Dispatcher.JsError).

(** The statement after the [try]/[catch] of [handlePlanMode] reads the
    variable [plan], which is declared inside the [catch] block only:
    evaluating it raises a [ReferenceError] and nothing is appended. *)
Definition after_try (s : AppState) : AppState * Completion :=
  (s, Throws (Dispatcher.mkError "ReferenceError" "plan is not defined")).

Definition handlePlanMode (content : string) (w : PlanWorld) (s : AppState)
  : AppState * Completion :=
  let s0 := log "Creating Implementation Plan - Writing to PLAN.md" s in
  let name := planFileName w in
  let initial := initialPlanContent content w in
  if createFile_ok w then
    let snapshot := files s0 in
    let s1 := set_activeFile (Some name)
                (set_files (Obj.set name initial snapshot) s0) in
    let s2 := setLiveWritingFile (Some name)
                (log ("Plan file created: " ++ name ++ " - Opening for live editing") s1) in
    let s3 := write_lines name snapshot (Js.split Js.nl (answer w)) initial s2 in
    let s4 := setLiveWritingFile None
                (log ("Plan completed and saved to " ++ name) s3) in
    after_try (add_message (planMessage w (successText name)) s4)
  else
    let s1 := setLiveWritingFile None
                (log "Plan generated (file creation failed, showing in chat)" s0) in
    after_try (add_message (planMessage w (planText (answer w))) s1).

End Store.

(* ------------------------------------------------------------------ *)
(** ** Notions used in the statements *)
(* ------------------------------------------------------------------ *)

(** Vocabulary of the properties proved below and the sample data of their
    examples.  Nothing here comes from the source. *)
Module Notions.

Section Files.
Import Js LocalInference.

(** The values of [detectContentType]. *)
Definition contentTypes : list string :=
  ["html"; "css"; "jsx"; "js"; "py"; "json"; "md"; "sql"; "txt"].

(** A small project. *)
Definition demoState : Store.AppState :=
  Store.mkState
    [("index.html", "<html></html>"); ("styles.css", "body { margin: 0.5em }");
     ("script.js", "const x = 1;")]
    (Some "index.html") [] None [].

(** An answer of the model holding one fenced block that names its file in
    a comment. *)
Definition agentOutput : string :=
  "```js" ++ Js.NL ++ "// file: notes" ++ Js.NL ++ "const x = 1;" ++ Js.NL ++ "```".

(** A project with an entry page and the given manifest (quotes written
    as apostrophes). *)
Definition manifest (text : string) : FileMap :=
  [("index.html", "<html></html>"); ("package.json", Js.dq text)].

End Files.

Section Matching.
Import Regex.

(** A matching step hands its continuation a split of the input: the text
    it matched, not empty when the step is [productive], and what is left. *)
Definition splits (A : Type)
           (step : string -> captures -> kont A -> option A)
           (productive : bool) : Prop :=
  forall s c (k : kont A) x,
    step s c k = Some x ->
    exists t s' c', k t s' c' = Some x /\ s = t ++ s'
                    /\ (productive = true -> t <> EmptyString).

End Matching.

Section Directives.
Import Js Regex Store.

(** The closing tag of a [[CREATE: ...]] block with the line feed before it. *)
Definition closing : string := String nl "[/CREATE]".

(** The part of a directive after the closing bracket of its head:
    [\s*\n([\s\S]*?)\n\[\/CREATE\]]. *)
Definition directiveTail : regex :=
  Seq (Star true (Chr space))
      (Seq (Lit NL) (Seq (Group 2 (Star false (Chr any))) (Lit closing))).

(** What a call site asks for: the kind, the path, the content. *)
Definition summary (o : AIOperation) : string * string * string :=
  (operation o, filePath o, payload o).

Definition create_of (x : result) : string * string * string :=
  summary (operation_of "create" "AI created file: " x).

End Directives.

Section Streams.
Import Js Json Dispatcher.

(** The invariant of every read loop: the text is the concatenation of the
    pieces appended so far and each callback invocation carried the text
    accumulated up to its piece. *)
Definition accumulated (onStream : bool) (st : Stream) : Prop :=
  fullText st = concat_all (deltas st)
  /\ calls st = if onStream then running EmptyString (deltas st) else [].

(** A line handler keeps the invariant. *)
Definition preserves (onStream : bool) (step : LineStep) : Prop :=
  forall line st, accumulated onStream st ->
                  accumulated onStream (fst (step line st)).

(** The lines at which the Ollama handler leaves the loop over the lines of
    a chunk: a parsed object whose [done] is truthy. *)
Definition ollama_breaks (line : string) : bool :=
  if is_empty (trim line) then false
  else match JSON.parse line with
       | None => false
       | Some data =>
           match prop (Some data) "done" with
           | None => false
           | Some done => truthy done
           end
       end.

End Streams.

Section Registry.
Import Json Providers.

(** The names of the built-in providers, as values. *)
Definition names : list value := map (fun n => Some (JStr n)) defaultNames.

(** [name === providerName], as the value written to [enabled]. *)
Definition flagOf (providerName : string) (name : value) : value :=
  Some (JBool (strict_eq name (Some (JStr providerName)))).

End Registry.

End Notions.

(* ------------------------------------------------------------------ *)
(** ** Streams: vocabulary for the adapters' read loops *)
(* ------------------------------------------------------------------ *)

Module Streams.
Import Js Json Dispatcher.

(** The lines that append nothing in the Ollama loop: blank, malformed, or
    carrying a truthy [done]. *)
Definition ollama_idle (line : string) : bool :=
  if is_empty (trim line) then true
  else match JSON.parse line with
       | None => true
       | Some data =>
           match prop (Some data) "done" with
           | None => true
           | Some done => truthy done
           end
       end.

(** The line [data: [DONE]], which leaves the loop over the lines of a
    chunk in the three [data:] adapters. *)
Definition sse_breaks (line : string) : bool :=
  negb (is_empty (trim line))
  && startsWith line "data: "
  && String.eqb (drop 6 line) "[DONE]".

(** The lines that are passed over in the [data:] adapters before their
    payload is looked at: blank, without the prefix, [[DONE]], malformed. *)
Definition sse_idle (line : string) : bool :=
  if is_empty (trim line) then true
  else if startsWith line "data: " then
    if String.eqb (drop 6 line) "[DONE]" then true
    else match JSON.parse (drop 6 line) with
         | None => true
         | Some _ => false
         end
  else true.

(** After the first line that leaves the loop, only idle lines follow. *)
Fixpoint settled (breaks idle : string -> bool) (lines : list string) : bool :=
  match lines with
  | [] => true
  | l :: lines' =>
      if breaks l then forallb idle lines' else settled breaks idle lines'
  end.





Fixpoint pieces (piece : string -> option string) (lines : list string)
  : list string :=
  match lines with
  | [] => []
  | l :: lines' =>
      match piece l with
      | Some p => p :: pieces piece lines'
      | None => pieces piece lines'
      end
  end.


End Streams.

(* ------------------------------------------------------------------ *)
(** ** Registry: vocabulary *)
(* ------------------------------------------------------------------ *)

Module RegistryTerms.
Import Json Providers.

(** The records that [loadProviderConfigs] searches: the elements of the
    stored array, when the item is there, not empty, and parses to one. *)
Definition stored_records (reg : Registry) : list json :=
  match storage reg with
  | Some saved =>
      if text_truthy saved then
        match parse_text saved with
        | Some (JArr l) => l
        | _ => []
        end
      else []
  | None => []
  end.

(** [p] is the built-in object [d] itself, or [d] overlaid with a stored
    record of the same name: the record's fields win, the others are the
    built-in ones. *)
Definition overlays (reg : Registry) (d p : ProviderConfig) : Prop :=
  p = d
  \/ exists o,
       In (JObj o) (stored_records reg)
       /\ nameOf o = nameOf d
       /\ forall k, Obj.get k p
                    = match Obj.get k o with
                      | Some v => Some v
                      | None => Obj.get k d
                      end.

End RegistryTerms.

(* ------------------------------------------------------------------ *)
(** ** Context distiller: dependency table and related files
       ([services/localInferenceService.ts]) *)
(* ------------------------------------------------------------------ *)

Module Distiller.
Import Json.

(** [Object.assign(target, source)] on a plain target: each property is
    written with an ordinary assignment, so the key [__proto__] reaches the
    inherited setter and creates no property of its own. *)
Definition assign_set (target source : Obj.t json) : Obj.t json :=
  Obj.assign target
             (filter (fun e => negb (String.eqb (fst e) "__proto__")) source).

Definition extractDependencies (files : FileMap) : Obj.t json :=
  match Obj.get "package.json" files with
  | Some packageJson =>
      if Js.is_empty packageJson then []
      else
        match JSON.parse packageJson with
        | Some pkg =>
            match prop (Some pkg) "dependencies",
                  prop (Some pkg) "devDependencies" with
            | Some dependencies, Some devDependencies =>
                let deps1 :=
                  assign_set [] (own_props (or_else dependencies (Some (JObj [])))) in
                assign_set deps1 (own_props (or_else devDependencies (Some (JObj []))))
            | _, _ => []
            end
        | None => []
        end
  | None => []
  end.

Definition extensionMap : Obj.t (list string) :=
  [ ("html", ["css"; "js"]);
    ("css", ["html"; "js"; "scss"]);
    ("js", ["html"; "css"; "json"; "ts"]);
    ("jsx", ["css"; "js"; "json"; "ts"; "tsx"]);
    ("ts", ["js"; "json"; "tsx"]);
    ("tsx", ["css"; "ts"; "js"; "json"]);
    ("py", ["txt"; "md"; "json"; "yml"]);
    ("json", ["js"; "ts"; "py"; "md"]) ].

(** What [extensionMap[ext] || []] evaluates to: an array, or, for the two
    lower-case names every object inherits ([constructor], [__proto__]), an
    inherited object that is not an array. *)
Inductive Related : Type :=
| Extensions (l : list string)
| Inherited.

Definition getRelatedExtensions (activeFile : string) : Related :=
  let ext := Js.toLowerCase (Js.last_segment "." activeFile) in
  match Obj.get ext extensionMap with
  | Some l => Extensions l
  | None =>
      if String.eqb ext "constructor" || String.eqb ext "__proto__"
      then Inherited
      else Extensions []
  end.

(** The entries pushed by the loop over [Object.keys(files)]. *)
Fixpoint relatedFiles (relatedExtensions : list string) (activeFile : string)
         (files : FileMap) : list string :=
  match files with
  | [] => []
  | (filename, content) :: files' =>
      if String.eqb filename activeFile
      then relatedFiles relatedExtensions activeFile files'
      else
        let ext := Js.toLowerCase (Js.last_segment "." filename) in
        if LocalInference.mem ext relatedExtensions
           && (String.length content <? 1000)%nat
        then (filename ++ ":" ++ Js.NL ++ content)
               :: relatedFiles relatedExtensions activeFile files'
        else relatedFiles relatedExtensions activeFile files'
  end.

(** [getRelevantFileContents(files, activeFile, context)]; the third
    argument is not read.  With an inherited object in place of the array,
    the first call of [relatedExtensions.includes] raises. *)
Definition getRelevantFileContents (files : FileMap) (activeFile : string)
  : string + Dispatcher.JsError :=
  let manifest :=
    match Obj.get "package.json" files with
    | Some packageJson =>
        if Js.is_empty packageJson then []
        else ["package.json: " ++ packageJson]
    | None => []
    end in
  match getRelatedExtensions activeFile with
  | Extensions l =>
      inl (Js.join (Js.NL ++ Js.NL)
                   (manifest ++ relatedFiles l activeFile files)%list)
  | Inherited =>
      if existsb (fun e => negb (String.eqb (fst e) activeFile)) files
      then inr (Dispatcher.TypeError "relatedExtensions.includes is not a function")
      else inl (Js.join (Js.NL ++ Js.NL) manifest)
  end.

End Distiller.

(* ------------------------------------------------------------------ *)
(** ** Store: vocabulary *)
(* ------------------------------------------------------------------ *)

Module StoreTerms.
Import Store.

(** The loop of [setFiles] that fills [validatedFiles], from a given
    accumulator. *)
Definition validate (acc : FileMap) (newFiles : FileMap) : FileMap :=
  fold_left (fun acc e =>
               Obj.set (ensureProperFilename (fst e) (snd e)) (snd e) acc)
            newFiles acc.

End StoreTerms.

(* ------------------------------------------------------------------ *)
(** ** File directives: vocabulary *)
(* ------------------------------------------------------------------ *)

Module FileDirectives.
Import Js LocalInference.

(** The characters of the class [[a-zA-Z0-9\/\._-]]. *)
Definition name_char (a : ascii) : bool :=
  is_lower a || is_upper a || is_digit a || has_char a "/._-".

(** A [[FILE: name]] block closed by [[/FILE]], and a text made of such
    blocks, one per line group. *)
Definition file_block (name content : string) : string :=
  "[FILE: " ++ name ++ "]" ++ NL ++ content ++ NL ++ "[/FILE]".

Fixpoint file_blocks (blocks : list (string * string)) : string :=
  match blocks with
  | [] => EmptyString
  | (name, content) :: blocks' =>
      file_block name content ++ NL ++ file_blocks blocks'
  end.

(** A well-formed block: the name is not empty and made of the characters
    of the class, the content holds neither a code fence nor a closing tag
    of its own (in any letter case). *)
Definition well_formed (block : string * string) : bool :=
  let (name, content) := block in
  negb (is_empty name)
  && all name_char name
  && negb (includes content "```")
  && negb (includes (toLowerCase content) "[/file]").

(** The same block with its content inside a code fence that carries a
    language tag. *)
Definition fenced_block (name lang content : string) : string :=
  "[FILE: " ++ name ++ "]" ++ NL ++ "```" ++ lang ++ NL
  ++ content ++ NL ++ "```" ++ NL ++ "[/FILE]".

Fixpoint fenced_blocks (blocks : list (string * string * string)) : string :=
  match blocks with
  | [] => EmptyString
  | (name, lang, content) :: blocks' =>
      fenced_block name lang content ++ NL ++ fenced_blocks blocks'
  end.

(** A well-formed fenced block: moreover the language tag is made of
    letters. *)
Definition well_fenced (block : string * string * string) : bool :=
  let '(name, lang, content) := block in
  well_formed (name, content)
  && all (fun a => is_lower a || is_upper a) lang.

(** The map built by storing the blocks in order, each under its
    normalised name and with its trimmed content. *)
Definition stored (blocks : list (string * string)) : FileMap :=
  fold_left (fun files b =>
               Obj.set (ensureProperExtension (fst b) (trim (snd b)))
                       (trim (snd b)) files)
            blocks [].


End FileDirectives.

(* ------------------------------------------------------------------ *)
(** ** Sessions in good order *)
(* ------------------------------------------------------------------ *)

Module Session.
Import Store.

(** The file map is a JavaScript object (distinct keys), every name
    suits its content and the active file is one of the files. *)
Definition well_kept (s : AppState) : Prop :=
  NoDup (Obj.keys (files s))
  /\ (forall k c, In (k, c) (files s) -> LocalInference.consistent k c = true)
  /\ (exists k, activeFile s = Some k /\ In k (Obj.keys (files s))).

(** [deleteFile] called on the paths in turn. *)
Definition deleteFiles (paths : list string) (s : AppState) : AppState :=
  fold_left (fun s path => deleteFile path s) paths s.

End Session.

(* ------------------------------------------------------------------ *)
(** ** Code fences: vocabulary *)
(* ------------------------------------------------------------------ *)

Module CodeFences.
Import Js LocalInference.

(** A fenced block with its language tag, and a text made of such blocks,
    one per line group. *)
Definition code_fence (lang content : string) : string :=
  "```" ++ lang ++ NL ++ content ++ NL ++ "```".

Fixpoint code_fences (blocks : list (string * string)) : string :=
  match blocks with
  | [] => EmptyString
  | (lang, content) :: blocks' =>
      code_fence lang content ++ NL ++ code_fences blocks'
  end.

(** A well-formed block: the tag is a word (possibly empty), the content
    holds no fence. *)
Definition well_formed (block : string * string) : bool :=
  let (lang, content) := block in
  all Regex.word lang
  && negb (includes content "```").

(** The blocks stored in order under generated names: a block whose
    trimmed content has at most ten characters is passed over and does not
    advance the index; a block whose generated name is [__proto__] advances
    the index and leaves no entry ([assign_entry]). *)
Fixpoint stored (blocks : list (string * string)) (blockIndex : nat)
         (files : FileMap) : FileMap :=
  match blocks with
  | [] => files
  | (lang, content) :: blocks' =>
      let language := if is_empty lang then "text" else toLowerCase lang in
      let content' := trim content in
      if (10 <? String.length content')%nat then
        stored blocks' (S blockIndex)
               (assign_entry (generateFilename language blockIndex content')
                             content' files)
      else stored blocks' blockIndex files
  end.

End CodeFences.

(* ================================================================== *)
(** * Properties *)
(* ================================================================== *)

Unset Implicit Arguments.
Arguments Ascii.eqb : simpl never.
Import Notions.

(** ** Sanity checks of the primitives *)

Example split_demo : Js.split "." "a.b." = ["a"; "b"; EmptyString].
Proof. reflexivity. Qed.

Example last_segment_demo :
  Js.last_segment "." "a.tar.gz" = "gz" /\ Js.last_segment "." "abc" = "abc"
  /\ Js.last_segment "." "abc." = EmptyString.
Proof. repeat split; reflexivity. Qed.

Example trim_demo : Js.trim ("  a b " ++ Js.NL) = "a b".
Proof. reflexivity. Qed.

Example number_to_string_demo :
  map (fun p => Json.number_to_string (fst p) (snd p))
      [(5, -3); (128000, 0); (15, -5); (1, -7); (1, 21); (-25, -1); (12, 19)]%Z
  = ["0.005"; "128000"; "0.00015"; "1e-7"; "1e+21"; "-2.5"; "120000000000000000000"].
Proof. vm_compute. reflexivity. Qed.

Example obj_order_demo :
  Obj.keys (Obj.of_list [("b", 1); ("10", 2); ("a", 3); ("2", 4); ("b", 5); ("01", 6)])
  = ["2"; "10"; "b"; "a"; "01"].
Proof. vm_compute. reflexivity. Qed.

Example json_parse_demo :
  JSON.parse (Js.dq "{'dependencies': {'react': '18.0.0', 'n': [1, -2.50e1, true, null]}, 'aA': 'x\n'}")
  = Some (Json.JObj
      [("dependencies",
        Json.JObj [("react", Json.JStr "18.0.0");
                   ("n", Json.JArr [Json.JNum 1 0; Json.JNum (-250) (-1);
                                    Json.JBool true; Json.JNull])]);
       ("aA", Json.JStr ("x" ++ Js.NL))]).
Proof. vm_compute. reflexivity. Qed.

Example json_parse_rejects :
  map (fun s => JSON.parse (Js.dq s))
      ["hello"; EmptyString; "{'a':1,}"; "[1 2]"; "01"; "{a:1}"; "1e"; " 12 x"]
  = [None; None; None; None; None; None; None; None].
Proof. vm_compute. reflexivity. Qed.

Example extractFiles_file_directive :
  LocalInference.extractFiles
    ("Here: [FILE: src/app]" ++ Js.NL ++ "```js" ++ Js.NL
     ++ "const x = 1;" ++ Js.NL ++ "```" ++ Js.NL ++ "done")
  = [("src/app.js", "const x = 1;")].
Proof. vm_compute. reflexivity. Qed.

Example extractFiles_python_fallback :
  LocalInference.extractFiles
    ("```python" ++ Js.NL ++ "print('0123456789012345678901234567890123456789ab')"
     ++ Js.NL ++ "```")
  = [("python1.py", "print('0123456789012345678901234567890123456789ab')")].
Proof. vm_compute. reflexivity. Qed.

Example ensureProperExtension_demo :
  map (fun p => LocalInference.ensureProperExtension (fst p) (snd p))
      [("a", "hello"); ("a.txt", "hello"); ("a.b.md", "hello"); ("x.TS", "const a = 1");
       ("page.htm", "<div>x</div>"); ("foo.", "SELECT 1"); ("n.json", "{}")]
  = ["a.txt"; "a.txt"; "a.b.txt"; "x.TS"; "page.htm"; "foo..sql"; "n.json"].
Proof. vm_compute. reflexivity. Qed.

(* ------------------------------------------------------------------ *)
(** ** Strings *)
(* ------------------------------------------------------------------ *)

Module JsFacts.
Import Js.

Lemma append_nil_r : forall s : string, s ++ EmptyString = s.
Proof. induction s; simpl; congruence. Qed.

Lemma append_assoc : forall s t u : string, (s ++ t) ++ u = s ++ (t ++ u).
Proof. induction s; simpl; intros; congruence. Qed.

Lemma append_cons : forall (s : string) a t,
  (s ++ String a EmptyString) ++ t = s ++ String a t.
Proof. intros. rewrite append_assoc. reflexivity. Qed.

Lemma length_append : forall s t : string,
  String.length (s ++ t) = String.length s + String.length t.
Proof. induction s; simpl; intros; auto. Qed.

Lemma has_char_append : forall c s t,
  has_char c (s ++ t) = has_char c s || has_char c t.
Proof.
  induction s; simpl; intros; auto.
  rewrite IHs. now rewrite orb_assoc.
Qed.

Lemma includes_char : forall (c : ascii) s,
  includes s (String c EmptyString) = has_char c s.
Proof.
  induction s as [|a s IH]; simpl; auto.
  rewrite IH. rewrite andb_true_r. now rewrite Ascii.eqb_sym.
Qed.

Lemma last_segment_no_sep : forall sep s,
  has_char sep s = false -> last_segment sep s = s.
Proof.
  destruct s as [|a s]; simpl; auto.
  intros H. now rewrite H.
Qed.

Lemma last_segment_append : forall sep b t,
  has_char sep t = false ->
  last_segment sep (b ++ String sep t) = t.
Proof.
  induction b as [|a b IH]; intros t Ht.
  - simpl. rewrite Ascii.eqb_refl. simpl. now rewrite Ht.
  - change ((String a b ++ String sep t)) with (String a (b ++ String sep t)).
    assert (Hh : has_char sep (b ++ String sep t) = true).
    { rewrite has_char_append. simpl. rewrite Ascii.eqb_refl.
      now rewrite orb_true_r. }
    simpl. fold (has_char sep (b ++ String sep t)).
    rewrite Hh, orb_true_r.
    specialize (IH t Ht). destruct (Ascii.eqb a sep); exact IH.
Qed.

Lemma all_append : forall p s t, all p (s ++ t) = all p s && all p t.
Proof.
  induction s as [|a s IH]; simpl; intros; [reflexivity|].
  now rewrite IH, andb_assoc.
Qed.

Lemma trimStart_split : forall s,
  exists u, s = u ++ trimStart s /\ all is_space u = true.
Proof.
  induction s as [|a s (u & E & Hu)]; simpl.
  - exists EmptyString. auto.
  - destruct (is_space a) eqn:Ha.
    + exists (String a u). simpl. rewrite Ha, Hu. split; [congruence | reflexivity].
    + exists EmptyString. auto.
Qed.

Lemma trimStart_stops : forall s,
  match trimStart s with
  | EmptyString => true
  | String a _ => negb (is_space a)
  end = true.
Proof.
  induction s as [|a s IH]; simpl; [reflexivity|].
  destruct (is_space a) eqn:Ha; [exact IH|]. simpl. now rewrite Ha.
Qed.

Lemma trimStart_append_space : forall u s,
  all is_space u = true -> trimStart (u ++ s) = trimStart s.
Proof.
  induction u as [|a u IH]; simpl; intros s H; [reflexivity|].
  apply andb_true_iff in H. destruct H as [Ha Hu]. rewrite Ha. now apply IH.
Qed.

Lemma trimStart_idempotent : forall s, trimStart (trimStart s) = trimStart s.
Proof.
  induction s as [|a s IH]; simpl; [reflexivity|].
  destruct (is_space a) eqn:Ha; [exact IH|]. simpl. now rewrite Ha.
Qed.

Lemma trim_trimStart : forall s, trim (trimStart s) = trim s.
Proof. intros. unfold trim. now rewrite trimStart_idempotent. Qed.

Lemma trim_append_space : forall u s,
  all is_space u = true -> trim (u ++ s) = trim s.
Proof. intros. unfold trim. now rewrite trimStart_append_space. Qed.

(** The last line feed of a text that has one. *)
Lemma last_newline : forall l,
  has_char nl l = true ->
  exists l1 l2, l = l1 ++ String nl l2 /\ has_char nl l2 = false.
Proof.
  induction l as [|a l IH]; simpl; intros H; [discriminate|].
  destruct (has_char nl l) eqn:Hl.
  - destruct (IH eq_refl) as (l1 & l2 & E & H2).
    exists (String a l1), l2. simpl. split; congruence.
  - rewrite orb_false_r in H. apply Ascii.eqb_eq in H. subst a.
    exists EmptyString, l. auto.
Qed.

Lemma includes_suffix : forall u1 u2 P,
  includes (u1 ++ u2) P = false -> startsWith u2 P = false.
Proof.
  induction u1 as [|a u1 IH]; simpl; intros u2 P H.
  - destruct u2; simpl in H; apply orb_false_iff in H; tauto.
  - apply orb_false_iff in H. destruct H as [_ H]. now apply IH.
Qed.

(** A pattern without line feed cannot start in [u] and run across a line
    feed that follows [u]. *)
Lemma startsWith_before_newline : forall Q u t,
  has_char nl Q = false ->
  is_empty Q = false ->
  startsWith (u ++ String nl t) Q = startsWith u Q.
Proof.
  induction Q as [|a Q IH]; intros u t HQ Hne; [discriminate|].
  simpl in HQ. apply orb_false_iff in HQ. destruct HQ as [Ha HQ].
  destruct u as [|b u]; simpl.
  - rewrite Ha. reflexivity.
  - destruct Q as [|a' Q].
    + reflexivity.
    + rewrite (IH u t HQ eq_refl). reflexivity.
Qed.

End JsFacts.

(* ------------------------------------------------------------------ *)
(** ** The matcher on quantified character classes *)
(* ------------------------------------------------------------------ *)

Module RegexFacts.
Import Js Regex JsFacts.

Section Scan.
Variable A : Type.
Variable p : ascii -> bool.
Variable k : kont A.

Lemma star_greedy_chr : forall n acc s c,
  String.length s <= n ->
  star_loop (m (A:=A) (Chr p)) true k n acc s c = greedy_scan p k acc s c.
Proof.
  induction n as [|n IH]; intros acc s c Hn.
  - destruct s; simpl in Hn; [reflexivity | lia].
  - destruct s as [|a s]; simpl.
    + reflexivity.
    + destruct (p a); simpl; [|reflexivity].
      rewrite IH by (simpl in Hn; lia). reflexivity.
Qed.

Lemma star_lazy_chr : forall n acc s c,
  String.length s <= n ->
  star_loop (m (A:=A) (Chr p)) false k n acc s c = lazy_scan p k acc s c.
Proof.
  induction n as [|n IH]; intros acc s c Hn.
  - destruct s; simpl in Hn; [|lia]. simpl. now destruct (k acc EmptyString c).
  - destruct s as [|a s]; simpl.
    + reflexivity.
    + destruct (k acc (String a s) c); [reflexivity|].
      destruct (p a); simpl; [|reflexivity].
      rewrite IH by (simpl in Hn; lia). reflexivity.
Qed.

Lemma m_Seq : forall r1 r2 s c,
  m (Seq r1 r2) s c k
  = m r1 s c (fun t1 s1 c1 => m r2 s1 c1 (fun t2 s2 c2 => k (t1 ++ t2) s2 c2)).
Proof. reflexivity. Qed.

Lemma m_Alt : forall r1 r2 s c,
  m (Alt r1 r2) s c k
  = match m r1 s c k with Some x => Some x | None => m r2 s c k end.
Proof. reflexivity. Qed.

Lemma m_Chr_cons : forall a s c,
  m (Chr p) (String a s) c k
  = if p a then k (String a EmptyString) s c else None.
Proof. reflexivity. Qed.

Lemma m_Chr_nil : forall c, m (Chr p) EmptyString c k = None.
Proof. reflexivity. Qed.

Lemma m_Group : forall i r s c,
  m (Group i r) s c k = m r s c (fun t s' c' => k t s' ((i, t) :: c')).
Proof. reflexivity. Qed.

Lemma m_Eps : forall s c, m Eps s c k = k EmptyString s c.
Proof. reflexivity. Qed.

Lemma m_Eos_nil : forall c, m Eos EmptyString c k = k EmptyString EmptyString c.
Proof. reflexivity. Qed.

Lemma m_Eos_cons : forall a s c, m Eos (String a s) c k = None.
Proof. reflexivity. Qed.

Lemma m_Lit : forall P s c,
  m (Lit P) s c k
  = if startsWith s P then k P (drop (String.length P) s) c else None.
Proof.
  intros P. revert k. induction P as [|a P IH]; intros k0 s c.
  - reflexivity.
  - destruct P as [|b P].
    + simpl. destruct s as [|x s]; [reflexivity|]. simpl.
      destruct (Ascii.eqb a x) eqn:E; [|reflexivity].
      apply Ascii.eqb_eq in E. now subst.
    + change (Lit (String a (String b P)))
        with (Seq (Chr (Ascii.eqb a)) (Lit (String b P))).
      simpl m at 1. destruct s as [|x s]; [reflexivity|].
      change (startsWith (String x s) (String a (String b P)))
        with (Ascii.eqb a x && startsWith s (String b P)).
      destruct (Ascii.eqb a x) eqn:E; [|reflexivity].
      apply Ascii.eqb_eq in E. subst x. rewrite IH. reflexivity.
Qed.

(** A greedy scan takes the whole run when the continuation accepts
    there. *)
Lemma greedy_success : forall u s acc c x,
  all p u = true -> stops p s = true ->
  k (acc ++ u) s c = Some x ->
  greedy_scan p k acc (u ++ s) c = Some x.
Proof.
  induction u as [|a u IH]; intros s acc c x Hu Hs Hk.
  - rewrite append_nil_r in Hk. simpl. destruct s as [|b s]; [exact Hk|].
    simpl in Hs. simpl. destruct (p b); [discriminate | exact Hk].
  - simpl in Hu. apply andb_true_iff in Hu. destruct Hu as [Ha Hu].
    simpl. rewrite Ha. rewrite (IH s (acc ++ String a EmptyString) c x); auto.
    now rewrite append_cons.
Qed.

(** A lazy scan stops at the first place where the continuation
    accepts. *)
Lemma lazy_first : forall u r acc c x,
  (forall a, p a = true) ->
  (forall u1 b u2, u = u1 ++ String b u2 ->
                   k (acc ++ u1) (String b u2 ++ r) c = None) ->
  k (acc ++ u) r c = Some x ->
  lazy_scan p k acc (u ++ r) c = Some x.
Proof.
  induction u as [|a u IH]; intros r acc c x Hp Hearly Hk.
  - rewrite append_nil_r in Hk. simpl. destruct r; simpl; now rewrite Hk.
  - simpl.
    pose proof (Hearly EmptyString a u eq_refl) as H0.
    rewrite append_nil_r in H0. simpl in H0. rewrite H0, Hp.
    apply IH; auto.
    + intros u1 b u2 E. rewrite append_cons.
      apply (Hearly (String a u1) b u2). simpl. now rewrite E.
    + now rewrite append_cons.
Qed.

(** When the continuation insists on a line feed, a greedy scan of white
    space backs up to the last line feed of the run. *)
Hypothesis k_needs_nl : forall acc r c, starts_nl r = false -> k acc r c = None.
Hypothesis p_nl : p nl = true.

Lemma greedy_none_without_nl : forall w s acc c,
  all p w = true -> has_char nl w = false -> stops p s = true ->
  greedy_scan p k acc (w ++ s) c = None.
Proof.
  induction w as [|a w IH]; intros s acc c Hw Hnl Hs.
  - simpl. assert (Hstart : starts_nl s = false).
    { destruct s as [|b s]; [reflexivity|]. simpl in *.
      destruct (Ascii.eqb b nl) eqn:E; [|reflexivity].
      apply Ascii.eqb_eq in E. subst. rewrite p_nl in Hs. discriminate. }
    destruct s as [|b s]; [now apply k_needs_nl|].
    simpl in Hs. apply negb_true_iff in Hs. simpl. rewrite Hs.
    now apply k_needs_nl.
  - simpl in Hw, Hnl. apply andb_true_iff in Hw. destruct Hw as [Ha Hw].
    apply orb_false_iff in Hnl. destruct Hnl as [Hane Hnl].
    simpl. rewrite Ha, IH by assumption.
    apply k_needs_nl. exact Hane.
Qed.

Lemma greedy_until_newline : forall u1 w2 s acc c x,
  all p u1 = true -> all p w2 = true -> has_char nl w2 = false ->
  stops p s = true ->
  k (acc ++ u1) (String nl (w2 ++ s)) c = Some x ->
  greedy_scan p k acc (u1 ++ String nl (w2 ++ s)) c = Some x.
Proof.
  induction u1 as [|a u1 IH]; intros w2 s acc c x Hu Hw Hnl Hs Hk.
  - rewrite append_nil_r in Hk. simpl. rewrite p_nl.
    rewrite greedy_none_without_nl by assumption. exact Hk.
  - simpl in Hu. apply andb_true_iff in Hu. destruct Hu as [Ha Hu].
    simpl. rewrite Ha.
    rewrite (IH w2 s (acc ++ String a EmptyString) c x); auto.
    now rewrite append_cons.
Qed.

Lemma m_star_greedy_chr : forall s c,
  m (Star true (Chr p)) s c k = greedy_scan p k EmptyString s c.
Proof. intros. simpl. now apply star_greedy_chr. Qed.

Lemma m_star_lazy_chr : forall s c,
  m (Star false (Chr p)) s c k = lazy_scan p k EmptyString s c.
Proof. intros. simpl. now apply star_lazy_chr. Qed.
End Scan.

(** One step of symbolic matching at the head of the goal. *)
Ltac rx_step :=
  first [ rewrite m_Seq | rewrite m_Chr_cons | rewrite m_Chr_nil
        | rewrite m_Group | rewrite m_Eps | rewrite m_Eos_nil
        | rewrite m_Eos_cons | rewrite m_star_greedy_chr
        | rewrite m_star_lazy_chr | rewrite m_Alt ];
  cbv beta.
Ltac rx := repeat rx_step.

End RegexFacts.

(** *** What a match consumes *)

Module RegexSound.
Import Js Regex JsFacts.

Section Sound.
Variable A : Type.

Lemma star_loop_sound : forall step greedy (k : kont A),
  splits step false ->
  forall n acc s c x,
    star_loop step greedy k n acc s c = Some x ->
    exists t s' c', k (acc ++ t) s' c' = Some x /\ s = t ++ s'.
Proof.
  intros step greedy k Hstep.
  assert (Hstop : forall acc s c x, k acc s c = Some x ->
            exists t s' c', k (acc ++ t) s' c' = Some x /\ s = t ++ s').
  { intros acc s c x H. exists EmptyString, s, c.
    rewrite append_nil_r. auto. }
  assert (Hiter : forall n, (forall acc s c x,
              star_loop step greedy k n acc s c = Some x ->
              exists t s' c', k (acc ++ t) s' c' = Some x /\ s = t ++ s') ->
            forall acc s c x,
              step s c (fun t s' c' =>
                          if is_empty t then None
                          else star_loop step greedy k n (acc ++ t) s' c') = Some x ->
              exists t s' c', k (acc ++ t) s' c' = Some x /\ s = t ++ s').
  { intros n IH acc s c x H.
    destruct (Hstep _ _ _ _ H) as (t1 & s1 & c1 & H1 & -> & _).
    destruct (is_empty t1); [discriminate|].
    destruct (IH _ _ _ _ H1) as (t2 & s2 & c2 & H2 & ->).
    exists (t1 ++ t2), s2, c2. now rewrite <- !append_assoc. }
  induction n as [|n IH]; intros acc s c x H; cbn [star_loop] in H.
  - exact (Hstop _ _ _ _ H).
  - destruct greedy.
    + match type of H with
      | match ?e with _ => _ end = _ => destruct e as [y|] eqn:E
      end.
      * injection H as ->. exact (Hiter n IH _ _ _ _ E).
      * exact (Hstop _ _ _ _ H).
    + destruct (k acc s c) as [y|] eqn:E.
      * injection H as ->. exact (Hstop _ _ _ _ E).
      * exact (Hiter n IH _ _ _ _ H).
Qed.

Lemma m_sound : forall r, splits (m (A:=A) r) (consuming r).
Proof.
  induction r as [|p|r1 IH1 r2 IH2|r1 IH1 r2 IH2|g r1 IH1|i r1 IH1|];
    intros s c k x H; cbn [m consuming] in *.
  - exists EmptyString, s, c. repeat split; auto. discriminate.
  - destruct s as [|a s]; [discriminate|]. destruct (p a); [|discriminate].
    exists (String a EmptyString), s, c. repeat split; auto. discriminate.
  - destruct (IH1 _ _ _ _ H) as (t1 & s1 & c1 & H1 & -> & P1).
    destruct (IH2 _ _ _ _ H1) as (t2 & s2 & c2 & H2 & -> & P2).
    exists (t1 ++ t2), s2, c2. rewrite <- append_assoc. repeat split; auto.
    intros Hc. apply orb_true_iff in Hc.
    destruct t1; [|discriminate].
    destruct Hc as [Hc | Hc]; [now destruct (P1 Hc) | now apply P2].
  - destruct (m r1 s c k) as [y|] eqn:E.
    + injection H as ->. destruct (IH1 _ _ _ _ E) as (t & s' & c' & H1 & -> & P).
      exists t, s', c'. repeat split; auto.
      intros Hc. apply andb_true_iff in Hc. now apply P.
    + destruct (IH2 _ _ _ _ H) as (t & s' & c' & H1 & -> & P).
      exists t, s', c'. repeat split; auto.
      intros Hc. apply andb_true_iff in Hc. now apply P.
  - assert (Hstep : splits (m (A:=A) r1) false).
    { intros s0 c0 k0 x0 H0.
      destruct (IH1 _ _ _ _ H0) as (t & s' & c' & H1 & -> & _).
      exists t, s', c'. repeat split; auto. discriminate. }
    destruct (star_loop_sound _ g k Hstep _ _ _ _ _ H) as (t & s' & c' & H1 & ->).
    exists t, s', c'. repeat split; auto. discriminate.
  - destruct (IH1 _ _ _ _ H) as (t & s' & c' & H1 & -> & P).
    exists t, s', ((i, t) :: c'). repeat split; auto.
  - destruct s; [|discriminate].
    exists EmptyString, EmptyString, c. repeat split; auto. discriminate.
Qed.

End Sound.

Lemma match_here_sound : forall r s t c s',
  match_here r s = Some (t, c, s') ->
  s = t ++ s' /\ (consuming r = true -> t <> EmptyString).
Proof.
  intros r s t c s' H. unfold match_here in H.
  destruct (m_sound _ r _ _ _ _ H) as (t0 & s0 & c0 & H0 & -> & P).
  injection H0 as <- <- <-. auto.
Qed.

Lemma search_sound : forall r s skipped x,
  search r skipped s = Some x ->
  skipped ++ s = pre x ++ matched x ++ rest x
  /\ (consuming r = true -> matched x <> EmptyString).
Proof.
  intros r. induction s as [|a s IH]; intros skipped x H; cbn [search] in H.
  - destruct (match_here r EmptyString) as [[[t c] s']|] eqn:E; [|discriminate].
    injection H as <-. cbn [pre matched rest].
    destruct (match_here_sound _ _ _ _ _ E) as (-> & P). auto.
  - destruct (match_here r (String a s)) as [[[t c] s']|] eqn:E.
    + injection H as <-. cbn [pre matched rest].
      destruct (match_here_sound _ _ _ _ _ E) as (-> & P). auto.
    + destruct (IH _ _ H) as (H1 & P). split; [|exact P].
      rewrite <- H1, append_assoc. reflexivity.
Qed.

(** The loop over the matches of a consuming expression ends before its
    fuel does: more fuel finds no more matches. *)
Lemma exec_loop_enough : forall r,
  consuming r = true ->
  forall n s extra,
    String.length s < n ->
    exec_loop (n + extra) r s = exec_loop n r s.
Proof.
  intros r Hr. induction n as [|n IH]; intros s extra Hn; [lia|].
  cbn [Nat.add exec_loop].
  destruct (search r EmptyString s) as [x|] eqn:E; [|reflexivity].
  f_equal. apply IH.
  destruct (search_sound _ _ _ _ E) as (Hs & P). specialize (P Hr).
  cbn [append] in Hs. rewrite Hs, !length_append in Hn.
  destruct (matched x); [congruence|]. cbn [String.length] in Hn. lia.
Qed.

Lemma exec_all_enough : forall r s extra,
  consuming r = true ->
  exec_loop (S (String.length s) + extra) r s = exec_all r s.
Proof.
  intros r s extra Hr. unfold exec_all. apply exec_loop_enough; [exact Hr | lia].
Qed.

End RegexSound.

(** The global expressions of the source all consume. *)
Example global_expressions_consume :
  Regex.consuming LocalInference.fileRegex = true
  /\ Regex.consuming LocalInference.codeBlockRegex = true
  /\ Regex.consuming Store.createRegex = true
  /\ Regex.consuming Store.modifyRegex = true.
Proof. repeat split; reflexivity. Qed.

(* ------------------------------------------------------------------ *)
(** ** Filename normalisation *)
(* ------------------------------------------------------------------ *)

Module ExtensionFacts.
Import Js Regex JsFacts RegexFacts LocalInference.

Lemma detectContentType_cases : forall content,
  In (detectContentType content) contentTypes.
Proof.
  intros content. unfold detectContentType, contentTypes.
  repeat match goal with
         | |- context [if ?b then _ else _] => destruct b
         end; simpl; tauto.
Qed.

(** A scan whose continuation only accepts the end of the input. *)
Lemma greedy_scan_to_end : forall (A : Type) p (k : kont A),
  (forall acc a s c, k acc (String a s) c = None) ->
  forall s acc c,
    greedy_scan p k acc s c
    = if all p s then k (acc ++ s) EmptyString c else None.
Proof.
  intros A p k Hk. induction s as [|a s IH]; intros acc c; simpl.
  - now rewrite append_nil_r.
  - destruct (p a); simpl.
    + rewrite IH, append_cons, Hk. now destruct (all p s); [destruct (k _ _ _)|].
    + apply Hk.
Qed.

Lemma extension_match_here : forall s,
  match_here extensionRegex s
  = match s with
    | String a s' =>
        if Ascii.eqb "." a && negb (is_empty s') && all (none_of ".") s'
        then Some (s, [], EmptyString) else None
    | EmptyString => None
    end.
Proof.
  intros [|a s']; [reflexivity|].
  unfold match_here, extensionRegex, seqs, Lit, Plus. rx.
  destruct (Ascii.eqb "." a) eqn:Ea; [|reflexivity].
  destruct s' as [|d s]; [reflexivity|]. rx. simpl.
  destruct (none_of "." d); [|reflexivity]. rx.
  rewrite greedy_scan_to_end by reflexivity. rx. simpl.
  rewrite ?append_nil_r.
  destruct (all (none_of ".") s); reflexivity.
Qed.

Lemma all_none_of : forall c s,
  all (none_of (String c EmptyString)) s = negb (has_char c s).
Proof.
  induction s as [|a s IH]; simpl; [reflexivity|].
  rewrite IH. unfold none_of. simpl. rewrite orb_false_r, negb_orb.
  now rewrite Ascii.eqb_sym.
Qed.

Lemma search_extension : forall b skipped t,
  is_empty t = false -> has_char "." t = false ->
  search extensionRegex skipped (b ++ String "." t)
  = Some (mkResult (skipped ++ b) (String "." t) [] EmptyString).
Proof.
  induction b as [|a b IH]; intros skipped t Hne Hdot.
  - simpl append. unfold search. destruct t as [|x t]; [discriminate|].
    rewrite extension_match_here, all_none_of, Hdot. simpl.
    now rewrite append_nil_r.
  - change (String a b ++ String "." t) with (String a (b ++ String "." t)).
    simpl search. rewrite extension_match_here, all_none_of.
    rewrite has_char_append. simpl has_char. rewrite ?Ascii.eqb_refl.
    rewrite orb_true_r. simpl negb. rewrite !andb_false_r.
    rewrite IH by assumption. now rewrite append_cons.
Qed.

Lemma strip_extension : forall b t,
  is_empty t = false -> has_char "." t = false ->
  replace_first extensionRegex EmptyString (b ++ String "." t) = b.
Proof.
  intros b t Hne Hdot. unfold replace_first.
  rewrite search_extension by assumption. simpl. now rewrite append_nil_r.
Qed.

(** Every content type is a non-empty lower-case word without a dot, and it
    is either among its own compatible extensions or has none at all. *)
Lemma contentType_shape : forall t,
  In t contentTypes ->
  is_empty t = false /\ has_char "." t = false /\ toLowerCase t = t
  /\ (Obj.get t compatibleExtensions = None
      \/ exists l, Obj.get t compatibleExtensions = Some l /\ mem t l = true).
Proof.
  unfold contentTypes. simpl. intros t H.
  repeat (destruct H as [<- | H];
          [ repeat split; try reflexivity;
            first [ left; reflexivity | right; eexists; split; reflexivity ] | ]).
  contradiction.
Qed.

(** Appending the detected type gives a fixed point of the normalisation. *)
Lemma ensureProperExtension_appended : forall b content,
  ensureProperExtension (b ++ "." ++ detectContentType content) content
  = b ++ "." ++ detectContentType content.
Proof.
  intros b content.
  destruct (contentType_shape _ (detectContentType_cases content))
    as (Hne & Hdot & Hlow & Hcompat).
  unfold ensureProperExtension.
  set (t := detectContentType content) in *.
  simpl append at 2 3 5 7.
  rewrite includes_char, has_char_append. simpl has_char at 2.
  rewrite ?Ascii.eqb_refl. simpl orb. rewrite orb_true_r.
  rewrite last_segment_append by assumption. rewrite Hlow.
  unfold isValidExtensionForContent. rewrite Hne. fold t.
  change (b ++ "." ++ t) with (b ++ String "." t).
  destruct Hcompat as [Hnone | (l & Hsome & Hmem)].
  - rewrite Hnone. now rewrite strip_extension.
  - rewrite Hsome, Hmem. reflexivity.
Qed.

(** The two shapes of a normalised name: the name itself, accepted because
    its extension suits the content, or a base name followed by the detected
    type. *)
Lemma ensureProperExtension_shape : forall filename content,
  (ensureProperExtension filename content = filename
   /\ includes filename "." = true
   /\ isValidExtensionForContent
        (toLowerCase (last_segment "." filename)) content = true)
  \/ exists b,
       ensureProperExtension filename content
       = b ++ "." ++ detectContentType content.
Proof.
  intros filename content. unfold ensureProperExtension.
  destruct (includes filename ".") eqn:Hdot.
  - destruct (isValidExtensionForContent _ content) eqn:Hvalid.
    + left. auto.
    + right. eexists. reflexivity.
  - right. eexists. reflexivity.
Qed.

End ExtensionFacts.

(** C8. Filename normalisation is idempotent: normalising an already
    normalised name, for the same content, returns it unchanged. *)
Theorem ensureProperExtension_idempotent : forall filename content,
  LocalInference.ensureProperExtension
    (LocalInference.ensureProperExtension filename content) content
  = LocalInference.ensureProperExtension filename content.
Proof.
  intros filename content.
  destruct (ExtensionFacts.ensureProperExtension_shape filename content)
    as [(Hsame & Hdot & Hvalid) | (b & Hb)].
  - rewrite Hsame. exact Hsame.
  - rewrite Hb. apply ExtensionFacts.ensureProperExtension_appended.
Qed.

(* ------------------------------------------------------------------ *)
(** ** Objects *)
(* ------------------------------------------------------------------ *)

Module ObjFacts.
Import Obj.

Section Dict.
Variable A : Type.
Implicit Types (o : Obj.t A) (k : string) (v : A).

Lemma get_In : forall o k v, get k o = Some v -> In (k, v) o.
Proof.
  induction o as [|[k' v'] o IH]; simpl; intros k v H; [discriminate|].
  destruct (String.eqb k' k) eqn:E.
  - apply String.eqb_eq in E. injection H as <-. subst. now left.
  - right. now apply IH.
Qed.

Lemma get_None_keys : forall o k, get k o = None <-> ~ In k (keys o).
Proof.
  induction o as [|[k' v'] o IH]; simpl; intros k.
  - tauto.
  - destruct (String.eqb k' k) eqn:E.
    + apply String.eqb_eq in E. split; [discriminate | intros H; exfalso; auto].
    + apply String.eqb_neq in E. rewrite IH. tauto.
Qed.


(** *** Deletion *)

Lemma keys_delete : forall k o,
  keys (delete k o) = filter (fun k' => negb (String.eqb k' k)) (keys o).
Proof.
  intros k. induction o as [|[k' v'] o IH]; simpl; [reflexivity|].
  destruct (String.eqb k' k); simpl; now rewrite IH.
Qed.

Lemma get_delete_same : forall k o, get k (delete k o) = None.
Proof.
  intros k. induction o as [|[k' v'] o IH]; simpl; [reflexivity|].
  destruct (String.eqb k' k) eqn:E; simpl; [exact IH|].
  now rewrite E.
Qed.

Lemma get_delete_other : forall k k' o,
  k' <> k -> get k' (delete k o) = get k' o.
Proof.
  intros k k' o Hne. induction o as [|[k1 v1] o IH]; simpl; [reflexivity|].
  destruct (String.eqb k1 k) eqn:E; simpl.
  - apply String.eqb_eq in E. subst k1.
    destruct (String.eqb k k') eqn:E'; [|exact IH].
    apply String.eqb_eq in E'. congruence.
  - now rewrite IH.
Qed.

Lemma In_delete : forall k e o,
  In e (delete k o) <-> In e o /\ fst e <> k.
Proof.
  intros k e o. unfold delete. rewrite filter_In.
  rewrite negb_true_iff, String.eqb_neq. tauto.
Qed.

Lemma NoDup_delete : forall k o, NoDup (keys o) -> NoDup (keys (delete k o)).
Proof. intros. rewrite keys_delete. now apply NoDup_filter. Qed.

(** Removing one key from at least two distinct keys leaves one. *)
Lemma delete_nonempty : forall k o,
  NoDup (keys o) -> 1 < List.length (keys o) -> delete k o <> [].
Proof.
  intros k [|[k1 v1] [|[k2 v2] o]] Hnd Hlen; simpl in Hlen; try lia.
  inversion Hnd as [|? ? Hnot _]; subst. simpl in Hnot.
  simpl. destruct (String.eqb k1 k) eqn:E1; simpl; [|discriminate].
  destruct (String.eqb k2 k) eqn:E2; simpl; [|discriminate].
  apply String.eqb_eq in E1, E2. exfalso. apply Hnot. left. congruence.
Qed.

(** *** Assignment *)

Lemma In_update : forall k v e o,
  In e (update k v o) -> In e o \/ e = (k, v).
Proof.
  intros k v e. induction o as [|[k' v'] o IH]; simpl; [tauto|].
  destruct (String.eqb k' k) eqn:E; simpl.
  - apply String.eqb_eq in E. subst. intros [<- | H]; auto.
  - intros [<- | H]; auto. destruct (IH H); auto.
Qed.

Lemma In_insert_index : forall n k v e o,
  In e (insert_index n k v o) -> In e o \/ e = (k, v).
Proof.
  intros n k v e. induction o as [|[k' v'] o IH]; simpl.
  - intros [<- | []]. now right.
  - destruct (array_index k') as [n'|].
    + destruct (n' <? n)%N; simpl.
      * intros [<- | H]; auto. destruct (IH H); auto.
      * intros [<- | H]; auto.
    + simpl. intros [<- | H]; auto.
Qed.

Lemma In_set : forall k v e o, In e (set k v o) -> In e o \/ e = (k, v).
Proof.
  intros k v e o. unfold set. destruct (has k o).
  - apply In_update.
  - destruct (array_index k).
    + apply In_insert_index.
    + rewrite in_app_iff. simpl. intuition.
Qed.

Lemma distinct_NoDup : forall l : list string, distinct l = true <-> NoDup l.
Proof.
  induction l as [|x l IH]; simpl.
  - split; [constructor | reflexivity].
  - rewrite andb_true_iff, negb_true_iff, IH. split.
    + intros [Hx Hl]. constructor; [|exact Hl].
      intros Hin. assert (existsb (String.eqb x) l = true).
      { apply existsb_exists. exists x. split; [exact Hin | apply String.eqb_refl]. }
      congruence.
    + intros H. inversion H as [|? ? Hnot Hl]; subst. split; [|exact Hl].
      destruct (existsb (String.eqb x) l) eqn:E; [|reflexivity].
      apply existsb_exists in E. destruct E as (y & Hy & Exy).
      apply String.eqb_eq in Exy. subst. contradiction.
Qed.

Lemma has_keys : forall k o, has k o = true <-> In k (keys o).
Proof.
  intros k o. unfold has. pose proof (get_None_keys o k) as H.
  destruct (get k o); split; intros H'; try reflexivity; try discriminate.
  - destruct (in_dec string_dec k (keys o)) as [Hin|Hn]; [exact Hin|].
    apply H in Hn. discriminate.
  - exfalso. apply (proj1 H); auto.
Qed.

Lemma keys_update : forall k v o, keys (update k v o) = keys o.
Proof.
  intros k v. induction o as [|[k' v'] o IH]; simpl; [reflexivity|].
  destruct (String.eqb k' k); simpl; [reflexivity | now rewrite IH].
Qed.

Lemma In_keys_insert_index : forall n k v x o,
  In x (keys (insert_index n k v o)) <-> x = k \/ In x (keys o).
Proof.
  intros n k v x. induction o as [|[k' v'] o IH]; simpl.
  - intuition.
  - destruct (array_index k') as [n'|]; [destruct (n' <? n)%N|]; simpl;
      rewrite ?IH; intuition.
Qed.

Lemma NoDup_insert_index : forall n k v o,
  NoDup (keys o) -> ~ In k (keys o) -> NoDup (keys (insert_index n k v o)).
Proof.
  intros n k v. induction o as [|[k' v'] o IH]; simpl; intros Hnd Hk.
  - constructor; [tauto | constructor].
  - inversion Hnd as [|? ? Hnot Hnd']; subst.
    assert (Hgoal : NoDup (k :: k' :: keys o)).
    { constructor; [simpl; tauto | exact Hnd]. }
    destruct (array_index k') as [n'|]; [destruct (n' <? n)%N|]; simpl;
      try exact Hgoal.
    constructor.
    + rewrite In_keys_insert_index. intuition.
    + apply IH; [exact Hnd' | tauto].
Qed.

Lemma NoDup_set : forall k v o, NoDup (keys o) -> NoDup (keys (set k v o)).
Proof.
  intros k v o Hnd. unfold set. destruct (has k o) eqn:Hh.
  - now rewrite keys_update.
  - assert (Hk : ~ In k (keys o)).
    { intros Hin. apply has_keys in Hin. congruence. }
    destruct (array_index k).
    + now apply NoDup_insert_index.
    + unfold keys. rewrite map_app. simpl. apply NoDup_app.
      * exact Hnd.
      * constructor; [simpl; tauto | constructor].
      * intros x Hx [<- | []]. exact (Hk Hx).
Qed.

Lemma get_update_same : forall k v o,
  has k o = true -> get k (update k v o) = Some v.
Proof.
  intros k v. unfold has. induction o as [|[k' v'] o IH]; simpl; [discriminate|].
  destruct (String.eqb k' k) eqn:E; simpl; rewrite E; auto.
Qed.

Lemma get_update_other : forall k k' v o,
  k' <> k -> get k' (update k v o) = get k' o.
Proof.
  intros k k' v o Hne. induction o as [|[k1 v1] o IH]; simpl; [reflexivity|].
  destruct (String.eqb k1 k) eqn:E; simpl.
  - apply String.eqb_eq in E. subst k1.
    apply not_eq_sym in Hne. apply String.eqb_neq in Hne. now rewrite Hne.
  - now rewrite IH.
Qed.

Lemma get_insert_index_same : forall n k v o,
  get k o = None -> get k (insert_index n k v o) = Some v.
Proof.
  intros n k v. induction o as [|[k' v'] o IH]; simpl; intros H.
  - now rewrite String.eqb_refl.
  - destruct (String.eqb k' k) eqn:E; [discriminate|].
    destruct (array_index k') as [n'|]; [destruct (n' <? n)%N|]; simpl;
      rewrite ?E, ?String.eqb_refl; auto.
Qed.

Lemma get_insert_index_other : forall n k k' v o,
  k' <> k -> get k' (insert_index n k v o) = get k' o.
Proof.
  intros n k k' v o Hne. apply not_eq_sym in Hne. apply String.eqb_neq in Hne.
  induction o as [|[k1 v1] o IH]; simpl.
  - now rewrite Hne.
  - destruct (array_index k1) as [n'|]; [destruct (n' <? n)%N|]; simpl;
      rewrite ?Hne, ?IH; reflexivity.
Qed.

Lemma get_app : forall k o1 o2,
  get k (o1 ++ o2)%list
  = match get k o1 with Some v => Some v | None => get k o2 end.
Proof.
  intros k. induction o1 as [|[k' v'] o1 IH]; simpl; intros; [reflexivity|].
  destruct (String.eqb k' k); auto.
Qed.

Lemma get_set_same : forall k v o, get k (set k v o) = Some v.
Proof.
  intros k v o. unfold set. destruct (has k o) eqn:Hh.
  - now apply get_update_same.
  - assert (Hn : get k o = None).
    { unfold has in Hh. destruct (get k o); [discriminate | reflexivity]. }
    destruct (array_index k).
    + now apply get_insert_index_same.
    + rewrite get_app, Hn. simpl. now rewrite String.eqb_refl.
Qed.

Lemma get_set_other : forall k k' v o,
  k' <> k -> get k' (set k v o) = get k' o.
Proof.
  intros k k' v o Hne. unfold set. destruct (has k o).
  - now apply get_update_other.
  - destruct (array_index k).
    + now apply get_insert_index_other.
    + rewrite get_app. simpl.
      apply not_eq_sym in Hne. apply String.eqb_neq in Hne. rewrite Hne.
      now destruct (get k' o).
Qed.

Lemma NoDup_assign : forall source target : Obj.t A,
  NoDup (keys target) -> NoDup (keys (assign target source)).
Proof.
  unfold assign. induction source as [|[k v] source IH]; simpl; intros target H.
  - exact H.
  - apply IH. now apply NoDup_set.
Qed.

(** The properties of the source win over those of the target. *)
Lemma get_assign : forall (source target : Obj.t A) k,
  NoDup (keys source) ->
  get k (assign target source)
  = match get k source with Some v => Some v | None => get k target end.
Proof.
  unfold assign. induction source as [|[k1 v1] source IH]; simpl;
    intros target k Hnd; [reflexivity|].
  inversion Hnd as [|? ? Hnot Hnd']; subst.
  rewrite IH by exact Hnd'.
  destruct (String.eqb k1 k) eqn:E.
  - apply String.eqb_eq in E. subst k1.
    apply get_None_keys in Hnot. rewrite Hnot. apply get_set_same.
  - apply String.eqb_neq in E.
    destruct (get k source); [reflexivity|].
    apply get_set_other. congruence.
Qed.
End Dict.

End ObjFacts.

(* ------------------------------------------------------------------ *)
(** ** The store *)
(* ------------------------------------------------------------------ *)

Module StoreFacts.
Import Store LocalInference.

Lemma ensureProperFilename_eq : forall filename content,
  ensureProperFilename filename content = ensureProperExtension filename content.
Proof. reflexivity. Qed.

(** A normalised name suits its content. *)
Lemma ensureProperExtension_consistent : forall filename content,
  consistent (ensureProperExtension filename content) content = true.
Proof.
  intros filename content. unfold consistent.
  destruct (ExtensionFacts.ensureProperExtension_shape filename content)
    as [(Hsame & Hdot & Hvalid) | (b & Hb)].
  - rewrite Hsame, Hdot, Hvalid. reflexivity.
  - rewrite Hb.
    destruct (ExtensionFacts.contentType_shape _
                (ExtensionFacts.detectContentType_cases content))
      as (Hne & Hdot & Hlow & _).
    change (b ++ "." ++ detectContentType content)
      with (b ++ String "." (detectContentType content)).
    rewrite JsFacts.includes_char, JsFacts.has_char_append. simpl Js.has_char at 2.
    rewrite ?Ascii.eqb_refl. simpl orb. rewrite orb_true_r.
    rewrite JsFacts.last_segment_append by assumption.
    rewrite Hlow, String.eqb_refl. now rewrite orb_true_r.
Qed.

Lemma validated_consistent : forall (newFiles acc : FileMap),
  (forall e, In e acc -> consistent (fst e) (snd e) = true) ->
  forall e,
    In e (fold_left (fun acc e =>
                       Obj.set (ensureProperFilename (fst e) (snd e)) (snd e) acc)
                    newFiles acc) ->
    consistent (fst e) (snd e) = true.
Proof.
  induction newFiles as [|[k c] newFiles IH]; simpl; intros acc Hacc e He.
  - auto.
  - apply (IH _) in He; [exact He|].
    intros e' He'. apply ObjFacts.In_set in He'. destruct He' as [He' | ->].
    + auto.
    + simpl. rewrite ensureProperFilename_eq.
      apply ensureProperExtension_consistent.
Qed.

Lemma write_lines_other : forall name snapshot lines cur s,
  let s' := write_lines name snapshot lines cur s in
  messages s' = messages s /\ liveWritingFile s' = liveWritingFile s
  /\ activeFile s' = activeFile s /\ statusLog s' = statusLog s.
Proof.
  induction lines as [|l lines IH]; intros cur s; simpl.
  - auto.
  - destruct (IH (cur ++ l ++ Js.NL)
                 (set_files (Obj.set name (cur ++ l ++ Js.NL) snapshot) s))
      as (H1 & H2 & H3 & H4).
    simpl in *. auto.
Qed.

End StoreFacts.

(** C9. [deleteFile] does nothing when the file map has at most one entry;
    otherwise it removes exactly the given key, keeps every other entry and
    their order, moves the active file to the first remaining key when the
    deleted path was active, and never leaves the map empty. *)
Theorem deleteFile_spec : forall path st,
  NoDup (Obj.keys (Store.files st)) ->
  let st' := Store.deleteFile path st in
  (List.length (Obj.keys (Store.files st)) <= 1 -> st' = st)
  /\ (1 < List.length (Obj.keys (Store.files st)) ->
      Obj.get path (Store.files st') = None
      /\ (forall k, k <> path ->
            Obj.get k (Store.files st') = Obj.get k (Store.files st))
      /\ Obj.keys (Store.files st')
         = filter (fun k => negb (String.eqb k path)) (Obj.keys (Store.files st))
      /\ (Store.activeFile st = Some path ->
            Store.activeFile st' = hd_error (Obj.keys (Store.files st'))
            /\ Store.activeFile st' <> None)
      /\ (Store.activeFile st <> Some path ->
            Store.activeFile st' = Store.activeFile st)
      /\ Store.files st' <> [])
  /\ (Store.files st <> [] -> Store.files st' <> []).
Proof.
  intros path st Hnd st'. subst st'. unfold Store.deleteFile.
  destruct (List.length (Obj.keys (Store.files st)) <=? 1)%nat eqn:Hlen.
  - apply Nat.leb_le in Hlen. repeat split; auto; intros; lia.
  - apply Nat.leb_gt in Hlen.
    pose proof (ObjFacts.delete_nonempty _ path _ Hnd Hlen) as Hne.
    split; [intros; lia|]. split; [intros _|intros _; exact Hne].
    simpl. repeat split.
    + apply ObjFacts.get_delete_same.
    + intros k Hk. now apply ObjFacts.get_delete_other.
    + apply ObjFacts.keys_delete.
    + rewrite H. simpl. now rewrite String.eqb_refl.
    + rewrite H. simpl. rewrite String.eqb_refl.
      destruct (Obj.delete path (Store.files st)); [congruence | discriminate].
    + intros Hact.
      destruct (Store.activeFile st) as [a|]; simpl; [|reflexivity].
      destruct (String.eqb a path) eqn:E; [|reflexivity].
      apply String.eqb_eq in E. congruence.
    + exact Hne.
Qed.

Lemma deleteFile_spec_witness :
  NoDup (Obj.keys (Store.files demoState))
  /\ Store.files (Store.deleteFile "index.html" demoState) <> [].
Proof.
  assert (Hnd : NoDup (Obj.keys (Store.files demoState))).
  { simpl. repeat constructor; simpl; intuition discriminate. }
  split; [exact Hnd|].
  apply (deleteFile_spec "index.html" demoState Hnd). discriminate.
Defined.

(** C2 (as amended). After a write through [setFiles], every key of the
    file map carries an extension that suits its content. *)
Theorem setFiles_consistent : forall updater st k c,
  In (k, c) (Store.files (Store.setFiles updater st)) ->
  LocalInference.consistent k c = true.
Proof.
  intros updater st k c H. unfold Store.setFiles in H. simpl in H.
  apply (StoreFacts.validated_consistent _ []) in H; [exact H|].
  intros e [].
Qed.

Lemma setFiles_consistent_witness :
  In ("notes.js", "const x = 1;")
     (Store.files (Store.setFiles (inl [("notes", "const x = 1;")]) demoState))
  /\ LocalInference.consistent "notes.js" "const x = 1;" = true.
Proof.
  assert (H : In ("notes.js", "const x = 1;")
                (Store.files (Store.setFiles (inl [("notes", "const x = 1;")]) demoState))).
  { vm_compute. left. reflexivity. }
  split; [exact H | exact (setFiles_consistent _ _ _ _ H)].
Defined.

(** C2 (as stated) fails: the agent-mode merge writes the extracted names
    as they are.  A fenced block that names its file in a comment is merged
    under that name, without any extension. *)
Lemma agent_merge_not_normalised :
  In ("notes", "// file: notes" ++ Js.NL ++ "const x = 1;")
     (Store.files (fst (Store.handleAgentMode agentOutput 0 demoState)))
  /\ LocalInference.consistent "notes" ("// file: notes" ++ Js.NL ++ "const x = 1;")
     = false.
Proof. vm_compute. split; [right; right; right; left|]; reflexivity. Qed.

(** Plan mode writes its file under a fixed [.md] name whatever the text:
    a request that mentions a function makes the content look like
    JavaScript. *)
Lemma plan_write_not_normalised :
  let w := Store.mkPlanWorld "2026-01-15T14:30:00.000Z" "1/15/2026, 2:30:00 PM" 0
                             true "Step 1" in
  let st := fst (Store.handlePlanMode "add a function" w demoState) in
  exists c, Obj.get "PLAN_2026-01-15_14:30.md" (Store.files st) = Some c
            /\ LocalInference.consistent "PLAN_2026-01-15_14:30.md" c = false.
Proof.
  intros w st. eexists. split.
  - subst st w. vm_compute. reflexivity.
  - vm_compute. reflexivity.
Qed.


(* ------------------------------------------------------------------ *)
(** ** File directives *)
(* ------------------------------------------------------------------ *)


Example processAICodeActions_demo :
  map (fun o => (Store.operation o, Store.filePath o, Store.payload o))
      (Store.processAICodeActions
         (Store.create_blocks [("a.txt", "hello"); (" src/b.js ", "  const x = [1];" ++ Js.NL)]))
  = [("create", "a.txt", "hello"); ("create", "src/b.js", "const x = [1];")].
Proof. vm_compute. reflexivity. Qed.

(** An empty first block swallows the next one: blank contents are not
    well formed. *)
Example processAICodeActions_blank_content :
  map (fun o => (Store.filePath o, Store.payload o))
      (Store.processAICodeActions
         (Store.create_blocks [("a.txt", EmptyString); ("b.txt", "hello")]))
  = [("a.txt", "[/CREATE]" ++ Js.NL ++ "[CREATE: b.txt]" ++ Js.NL ++ "hello")].
Proof. vm_compute. reflexivity. Qed.

Arguments Regex.m : simpl never.

Module DirectiveFacts.
Import Js Regex JsFacts RegexFacts Store.

Lemma create_block_text : forall p c rest,
  create_block p c ++ rest
  = "[CREATE:" ++ String " " (p ++ "]" ++ String nl (c ++ closing ++ rest)).
Proof.
  intros. unfold create_block, closing, NL. rewrite !append_assoc. reflexivity.
Qed.

Lemma m_Lit_append : forall (A : Type) (k : kont A) P s c,
  m (Lit P) (P ++ s) c k = k P s c.
Proof.
  intros. rewrite m_Lit.
  assert (H : startsWith (P ++ s) P = true
              /\ drop (String.length P) (P ++ s) = s).
  { induction P as [|a P (H1 & H2)]; simpl; [auto|].
    rewrite Ascii.eqb_refl, H1, H2. auto. }
  destruct H as [-> ->]. reflexivity.
Qed.

(** No closing tag starts inside a content that holds none. *)
Lemma no_early_closing : forall u1 b u2 rest,
  includes (u1 ++ String b u2) closing = false ->
  startsWith (String b u2 ++ closing ++ rest) closing = false.
Proof.
  intros u1 b u2 rest H. apply includes_suffix in H.
  unfold closing in *.
  change (startsWith (String b u2 ++ String nl "[/CREATE]" ++ rest) (String nl "[/CREATE]"))
    with (Ascii.eqb nl b && startsWith (u2 ++ String nl ("[/CREATE]" ++ rest)) "[/CREATE]").
  rewrite startsWith_before_newline by reflexivity.
  exact H.
Qed.

Lemma startsWith_NL : forall r, startsWith r NL = starts_nl r.
Proof.
  destruct r as [|b r]; [reflexivity|]. simpl.
  rewrite andb_true_r. apply Ascii.eqb_sym.
Qed.

Lemma m_Lit_NL : forall (A : Type) (k : kont A) s c,
  m (Lit NL) (String nl s) c k = k NL s c.
Proof. intros. rewrite m_Lit. simpl. now rewrite ?Ascii.eqb_refl. Qed.

Lemma m_Lit_closing : forall (A : Type) (k : kont A) rest c,
  m (Lit closing) (closing ++ rest) c k = k closing rest c.
Proof. intros. rewrite m_Lit. reflexivity. Qed.

Lemma tail_match : forall u1 w2 d e rest c0,
  all space u1 = true -> all space w2 = true -> has_char nl w2 = false ->
  negb (is_space d) = true ->
  includes (w2 ++ String d e) closing = false ->
  exists t, forall (A : Type) (k : kont A) x,
    k t rest ((2, w2 ++ String d e) :: c0) = Some x ->
    m directiveTail (u1 ++ String nl (w2 ++ String d e ++ closing ++ rest)) c0 k
    = Some x.
Proof.
  intros u1 w2 d e rest c0 Hu1 Hw2 Hnl Hd Hinc.
  eexists. intros A k x Hk. unfold directiveTail.
  rewrite m_Seq, m_star_greedy_chr.
  change (w2 ++ String d e ++ closing ++ rest)
    with (w2 ++ String d (e ++ closing ++ rest)).
  apply greedy_until_newline; try assumption; try reflexivity.
  - intros acc r c Hr. rewrite m_Seq, m_Lit, startsWith_NL, Hr. reflexivity.
  - rewrite m_Seq, m_Lit_NL.
    rewrite m_Seq, m_Group, m_star_lazy_chr.
    change (w2 ++ String d (e ++ closing ++ rest))
      with (w2 ++ String d e ++ closing ++ rest).
    rewrite <- append_assoc.
    apply lazy_first.
    + reflexivity.
    + intros v1 b v2 E. rewrite m_Lit.
      rewrite E in Hinc. rewrite (no_early_closing _ _ _ _ Hinc). reflexivity.
    + rewrite m_Lit_closing. exact Hk.
Qed.

Lemma create_match_here : forall p c rest,
  well_formed (p, c) = true ->
  exists t g2,
    match_here createRegex (create_block p c ++ rest)
    = Some (t, [(2, g2); (1, trimStart p)], rest)
    /\ trim g2 = trim c.
Proof.
  intros p c rest Hwf. unfold well_formed in Hwf.
  apply andb_true_iff in Hwf. destruct Hwf as [Hwf Hc2].
  apply andb_true_iff in Hwf. destruct Hwf as [Hwf Hc1].
  apply andb_true_iff in Hwf. destruct Hwf as [Hp1 Hp2].
  apply negb_true_iff in Hp1, Hp2, Hc1, Hc2.
  (* the path: leading blanks, then a run without closing bracket *)
  destruct (trimStart_split p) as (lp & Ep & Hlp).
  pose proof (trimStart_stops p) as Hq.
  destruct (trimStart p) as [|a q] eqn:Eq; [discriminate|]. clear Hp2.
  rewrite Ep, has_char_append in Hp1. apply orb_false_iff in Hp1.
  destruct Hp1 as [_ Hp1]. simpl in Hp1. apply orb_false_iff in Hp1.
  destruct Hp1 as [Ha Hq'].
  (* the content: leading blanks, then its first visible character *)
  destruct (trimStart_split c) as (lc & Ec & Hlc).
  pose proof (trimStart_stops c) as Hd.
  destruct (trimStart c) as [|d e] eqn:Ed; [discriminate|]. clear Hc1.
  (* the white space after the head ends at the last line feed before the
     first visible character of the content *)
  assert (Hsplit : exists u1 w2,
             String nl lc = u1 ++ String nl w2
             /\ all space u1 = true /\ all space w2 = true
             /\ has_char nl w2 = false
             /\ exists c1, c = c1 ++ w2 ++ String d e /\ all is_space c1 = true).
  { destruct (has_char nl lc) eqn:Hnl.
    - destruct (last_newline lc Hnl) as (l1 & l2 & El & Hl2).
      rewrite El, all_append in Hlc. apply andb_true_iff in Hlc.
      destruct Hlc as [Hl1 Hl2']. simpl in Hl2'.
      exists (String nl l1), l2. repeat split; auto.
      + simpl. now rewrite El.
      + exists (l1 ++ String nl EmptyString). split.
        * rewrite Ec, El. rewrite !append_assoc. reflexivity.
        * rewrite all_append, Hl1. reflexivity.
    - exists EmptyString, lc. repeat split; auto.
      exists EmptyString. auto. }
  destruct Hsplit as (u1 & w2 & EW & Hu1 & Hw2 & Hnl & c1 & Ec1 & Hc1).
  assert (Hinc : includes (w2 ++ String d e) closing = false).
  { destruct (includes (w2 ++ String d e) closing) eqn:Hi; [|reflexivity].
    exfalso. rewrite Ec1 in Hc2. clear - Hc2 Hi.
    induction c1 as [|x c1 IH]; simpl in Hc2.
    - unfold closing, NL in *. simpl in *. congruence.
    - apply orb_false_iff in Hc2. destruct Hc2 as [_ Hc2]. auto. }
  destruct (tail_match u1 w2 d e rest [(1, String a q)] Hu1 Hw2 Hnl Hd Hinc)
    as (t & Ht).
  eexists. exists (w2 ++ String d e). split.
  - unfold match_here, createRegex, directiveRegex, seqs.
    change (Lit ("[" ++ "CREATE" ++ ":")) with (Lit "[CREATE:").
    change (Seq (Star true (Chr space))
              (Seq (Lit NL)
                 (Seq (Group 2 (Star false (Chr any)))
                    (Lit (NL ++ "[/" ++ "CREATE" ++ "]")))))
      with directiveTail.
    rewrite create_block_text.
    rewrite m_Seq, m_Lit_append.
    rewrite m_Seq, m_star_greedy_chr.
    rewrite Ep, append_assoc.
    change (String " " (lp ++ String a q ++ "]" ++ String nl (c ++ closing ++ rest)))
      with (String " " lp ++ String a (q ++ "]" ++ String nl (c ++ closing ++ rest))).
    apply greedy_success; [simpl; exact Hlp | exact Hq |].
    rewrite m_Seq, m_Group. unfold Plus. rewrite m_Seq, m_Chr_cons.
    assert (Hnb : none_of "]" a = true).
    { unfold none_of. simpl. rewrite Ascii.eqb_sym, Ha. reflexivity. }
    rewrite Hnb, m_star_greedy_chr.
    apply greedy_success;
      [rewrite ExtensionFacts.all_none_of, Hq'; reflexivity | reflexivity |].
    rewrite m_Seq, m_Lit_append.
    rewrite Ec, append_assoc.
    change (String nl (lc ++ String d e ++ closing ++ rest))
      with (String nl lc ++ String d e ++ closing ++ rest).
    rewrite EW, append_assoc.
    change ((String nl w2) ++ String d e ++ closing ++ rest)
      with (String nl (w2 ++ String d e ++ closing ++ rest)).
    apply Ht. reflexivity.
  - rewrite Ec1. symmetry. now apply trim_append_space.
Qed.

Lemma exec_loop_S : forall n r s,
  exec_loop (S n) r s
  = match search r EmptyString s with
    | None => []
    | Some x => x :: exec_loop n r (rest x)
    end.
Proof. reflexivity. Qed.

Lemma search_cons : forall r skipped a s,
  search r skipped (String a s)
  = match match_here r (String a s) with
    | Some (t, c, s') => Some (mkResult skipped t c s')
    | None => search r (skipped ++ String a EmptyString) s
    end.
Proof. reflexivity. Qed.

Lemma search_hit : forall r skipped s t c s',
  match_here r s = Some (t, c, s') ->
  search r skipped s = Some (mkResult skipped t c s').
Proof. intros r skipped [|a s] t c s' H; simpl; now rewrite H. Qed.

(** The text skipped before a match does not influence the match. *)
Lemma search_pre : forall r s skipped,
  search r skipped s
  = option_map (fun x => mkResult (skipped ++ pre x) (matched x) (groups x) (rest x))
               (search r EmptyString s).
Proof.
  intros r. induction s as [|a s IH]; intros skipped; simpl.
  - destruct (match_here r EmptyString) as [[[t c] s']|]; simpl;
      [now rewrite append_nil_r | reflexivity].
  - destruct (match_here r (String a s)) as [[[t c] s']|]; simpl.
    + now rewrite append_nil_r.
    + rewrite (IH (skipped ++ String a EmptyString)).
      rewrite (IH (String a EmptyString)).
      destruct (search r EmptyString s); simpl; [|reflexivity].
      now rewrite append_assoc.
Qed.

Lemma match_here_other : forall a s,
  Ascii.eqb "[" a = false -> match_here createRegex (String a s) = None.
Proof.
  intros a s H. unfold match_here, createRegex, directiveRegex, seqs.
  change (Lit ("[" ++ "CREATE" ++ ":")) with (Lit "[CREATE:").
  rewrite m_Seq, m_Lit. simpl startsWith. now rewrite H.
Qed.

(** A line feed in front of the text is passed over. *)
Lemma exec_loop_after_newline : forall n s,
  map create_of (exec_loop n createRegex (String nl s))
  = map create_of (exec_loop n createRegex s).
Proof.
  intros [|n] s; [reflexivity|]. rewrite !exec_loop_S, search_cons.
  rewrite match_here_other by reflexivity.
  rewrite search_pre. destruct (search createRegex EmptyString s); reflexivity.
Qed.

Lemma length_create_blocks : forall blocks,
  List.length blocks <= String.length (create_blocks blocks).
Proof.
  induction blocks as [|[p c] blocks IH]; simpl; [lia|].
  rewrite !length_append. simpl. lia.
Qed.

Lemma exec_loop_create_blocks : forall blocks n,
  forallb well_formed blocks = true ->
  List.length blocks < n ->
  map create_of (exec_loop n createRegex (create_blocks blocks))
  = map (fun b => ("create", trim (fst b), trim (snd b))) blocks.
Proof.
  induction blocks as [|[p c] blocks IH]; intros n Hwf Hn.
  - destruct n; reflexivity.
  - simpl in Hwf. apply andb_true_iff in Hwf. destruct Hwf as [Hb Hwf].
    destruct n as [|n]; [simpl in Hn; lia|].
    destruct (create_match_here p c (NL ++ create_blocks blocks) Hb)
      as (t & g2 & Hm & Hg2).
    change (create_blocks ((p, c) :: blocks))
      with (create_block p c ++ NL ++ create_blocks blocks).
    rewrite exec_loop_S, (search_hit _ EmptyString _ _ _ _ Hm).
    cbn [rest map].
    change (NL ++ create_blocks blocks) with (String nl (create_blocks blocks)).
    rewrite exec_loop_after_newline, IH by (simpl in Hn; auto; lia).
    unfold create_of at 1, summary, operation_of.
    cbn [groups LocalInference.group_or_empty group Nat.eqb operation filePath
         payload map fst snd].
    now rewrite trim_trimStart, Hg2.
Qed.

Lemma filter_create : forall l,
  filter is_create (map (operation_of "create" "AI created file: ") l)
  = map (operation_of "create" "AI created file: ") l.
Proof. induction l; simpl; congruence. Qed.

Lemma filter_write : forall l,
  filter is_create (map (operation_of "write" "AI modified file: ") l) = [].
Proof. induction l; simpl; congruence. Qed.

End DirectiveFacts.

(** The [[CREATE: path]] directives are read by [processAICodeActions]: on
    a text made of well-formed blocks its first loop reaches the call site
    once per block, in the order of the blocks, with the trimmed path and
    the trimmed content of each.  None of these attempts goes through
    ([apiClient_unbound]). *)
Theorem create_blocks_operations : forall blocks,
  forallb Store.well_formed blocks = true ->
  map Notions.summary
      (filter Store.is_create
              (Store.processAICodeActions (Store.create_blocks blocks)))
  = map (fun b => ("create", Js.trim (fst b), Js.trim (snd b))) blocks.
Proof.
  intros blocks Hwf. unfold Store.processAICodeActions.
  rewrite filter_app, DirectiveFacts.filter_create, DirectiveFacts.filter_write.
  rewrite app_nil_r, map_map.
  apply (DirectiveFacts.exec_loop_create_blocks blocks _ Hwf).
  pose proof (DirectiveFacts.length_create_blocks blocks). lia.
Qed.

Lemma create_blocks_operations_witness :
  forallb Store.well_formed [("a.txt", "hello"); ("src/b.js", "const x = [1];")] = true
  /\ map Notions.summary
         (filter Store.is_create
            (Store.processAICodeActions
               (Store.create_blocks [("a.txt", "hello"); ("src/b.js", "const x = [1];")])))
     = [("create", "a.txt", "hello"); ("create", "src/b.js", "const x = [1];")].
Proof.
  split; [reflexivity|].
  exact (create_blocks_operations
           [("a.txt", "hello"); ("src/b.js", "const x = [1];")] eq_refl).
Defined.


(* ------------------------------------------------------------------ *)
(** ** Framework detection *)
(* ------------------------------------------------------------------ *)

(** The detector of the context distiller walks the priority table: the
    first framework whose dependency is declared wins, [next] and [nuxt]
    refine [react] and [vue], and nothing declared means [vanilla]. *)
Lemma detectFramework_priority : forall files,
  Framework.type (Framework.detectFramework files)
  = Framework.classify (Framework.declares files) Framework.priorities.
Proof.
  intros files. unfold Framework.detectFramework, Framework.declares.
  simpl Framework.classify.
  repeat match goal with
         | |- context [if ?b then _ else _] => destruct b
         end; reflexivity.
Qed.

Lemma detectFramework_next_over_react : forall files,
  Framework.declares files "react" = true ->
  Framework.declares files "next" = true ->
  Framework.type (Framework.detectFramework files) = Framework.nextjs.
Proof.
  intros files Hr Hn. rewrite detectFramework_priority. simpl.
  now rewrite Hr, Hn.
Qed.

(** A manifest that does not parse, or none at all, gives [vanilla]. *)
Lemma detectFramework_unparsable : forall files,
  match Obj.get "package.json" files with
  | Some text => JSON.parse text = None
  | None => True
  end ->
  Framework.type (Framework.detectFramework files) = Framework.vanilla.
Proof.
  intros files H. unfold Framework.detectFramework, Framework.manifestDependencies.
  destruct (Obj.get "package.json" files) as [text|]; [|reflexivity].
  rewrite H. now destruct (Js.is_empty text).
Qed.

Example detectFramework_next_and_react :
  Framework.detectFramework
    (manifest "{'dependencies': {'react': '18.0.0', 'next': '14.1.0', 'express': '4'}}")
  = Framework.mkFramework Framework.nextjs (Some (Json.JStr "14.1.0"))
      ["JSX"; "Hooks"; "Components"; "SSR"; "API Routes"; "App Router"].
Proof. vm_compute. reflexivity. Qed.

Example store_detectFramework_next_and_react :
  Framework.type
    (Store.detectFramework
       (manifest "{'dependencies': {'react': '18.0.0'}, 'devDependencies': {'next': '14.1.0'}}"))
  = Framework.nextjs.
Proof. vm_compute. reflexivity. Qed.

(** The store's copy walks the same table without its last row. *)
Lemma store_detectFramework_priority : forall files,
  Framework.type (Store.detectFramework files)
  = Framework.classify (Framework.declares files)
                       (removelast Framework.priorities).
Proof.
  intros files.
  unfold Store.detectFramework, Framework.declares, Framework.manifestDependencies.
  destruct (Obj.get "package.json" files) as [packageJson|]; [|reflexivity].
  destruct (Js.is_empty packageJson); [reflexivity|].
  destruct (JSON.parse packageJson) as [pkg|]; [|reflexivity].
  destruct (Framework.mergedDependencies pkg) as [deps|]; [|reflexivity].
  simpl Framework.classify.
  repeat match goal with
         | |- context [if ?b then _ else _] => destruct b
         end; reflexivity.
Qed.

(** C6, at the failing input. The store's copy of [detectFramework] has no
    case for [fastify]: a manifest that declares only [fastify] is
    classified [vanilla] there, and [fastify] by the detector of the context
    distiller. *)
Lemma store_detectFramework_misses_fastify :
  let files := manifest "{'dependencies': {'fastify': '4.0.0'}}" in
  Framework.declares files "fastify" = true
  /\ Framework.type (Store.detectFramework files) = Framework.vanilla
  /\ Framework.type (Framework.detectFramework files) = Framework.fastify.
Proof. vm_compute. repeat split; reflexivity. Qed.

(* ------------------------------------------------------------------ *)
(** ** The dispatcher *)
(* ------------------------------------------------------------------ *)

Module DispatcherFacts.
Import Js Json Providers Dispatcher JsFacts.

Lemma concat_all_app : forall l1 l2,
  concat_all (l1 ++ l2)%list = concat_all l1 ++ concat_all l2.
Proof.
  induction l1 as [|x l1 IH]; simpl; intros; [reflexivity|].
  now rewrite IH, append_assoc.
Qed.

Lemma running_app : forall l1 l2 acc,
  running acc (l1 ++ l2)%list
  = (running acc l1 ++ running (acc ++ concat_all l1) l2)%list.
Proof.
  induction l1 as [|x l1 IH]; simpl; intros l2 acc.
  - now rewrite append_nil_r.
  - now rewrite IH, append_assoc.
Qed.

Lemma emit_accumulated : forall onStream content st,
  accumulated onStream st -> accumulated onStream (emit onStream content st).
Proof.
  intros onStream content st [Ht Hc]. unfold accumulated, emit. simpl.
  rewrite concat_all_app. simpl. rewrite append_nil_r, Ht. split; [reflexivity|].
  destruct onStream; [|exact Hc].
  rewrite running_app, Hc. simpl. reflexivity.
Qed.


Lemma sse_line_preserves : forall onStream on_data,
  (forall data st, accumulated onStream st -> accumulated onStream (on_data data st)) ->
  preserves onStream (sse_line on_data).
Proof.
  intros onStream on_data Hd line st H. unfold sse_line.
  destruct (is_empty (trim line)); [exact H|].
  destruct (startsWith line "data: "); [|exact H].
  destruct (String.eqb _ "[DONE]"); [exact H|].
  destruct (JSON.parse _); [|exact H]. simpl. now apply Hd.
Qed.

Lemma openai_data_accumulated : forall onStream data st,
  accumulated onStream st -> accumulated onStream (openai_data onStream data st).
Proof.
  intros onStream data st H. unfold openai_data.
  destruct (prop (Some data) "choices"); [|exact H]. now apply emit_accumulated.
Qed.

Lemma anthropic_data_accumulated : forall onStream data st,
  accumulated onStream st -> accumulated onStream (anthropic_data onStream data st).
Proof.
  intros onStream data st H. unfold anthropic_data.
  destruct (prop (Some data) "type"); [|exact H].
  destruct (strict_eq _ _); [|exact H].
  destruct (prop (Some data) "delta"); [|exact H]. now apply emit_accumulated.
Qed.



(** *** Independence of the chunking *)

Lemma split_nonempty : forall sep s, split sep s <> [].
Proof.
  intros sep [|a s]; simpl; [discriminate|].
  destruct (Ascii.eqb a sep); [discriminate|].
  destruct (split sep s); discriminate.
Qed.

Lemma split_lines : forall t,
  removelast (split nl t) = lines_of t
  /\ last (split nl t) EmptyString = tail_of t.
Proof.
  induction t as [|a t [IH1 IH2]]; simpl; [auto|].
  pose proof (split_nonempty nl t) as Hne.
  destruct (Ascii.eqb a nl).
  - destruct (split nl t) as [|x xs] eqn:E; [congruence|].
    rewrite <- IH1, <- IH2. split; reflexivity.
  - destruct (split nl t) as [|x xs] eqn:E; [congruence|].
    rewrite <- IH1, <- IH2. destruct xs; split; reflexivity.
Qed.

Lemma lines_append : forall t c,
  lines_of (t ++ c) = (lines_of t ++ lines_of (tail_of t ++ c))%list
  /\ tail_of (t ++ c) = tail_of (tail_of t ++ c).
Proof.
  induction t as [|a t IH]; intros c; simpl; [auto|].
  destruct (IH c) as [IH1 IH2].
  destruct (Ascii.eqb a nl) eqn:Ea.
  - rewrite IH1, IH2. auto.
  - rewrite IH1, IH2. destruct (lines_of t) as [|l ls]; simpl.
    + rewrite Ea. auto.
    + auto.
Qed.

Lemma lines_tail : forall t, lines_of (tail_of t) = [] /\ tail_of (tail_of t) = tail_of t.
Proof.
  induction t as [|a t [IH1 IH2]]; simpl; [auto|].
  destruct (Ascii.eqb a nl) eqn:Ea; [auto|].
  destruct (lines_of t); simpl; [|auto].
  rewrite Ea, IH1, IH2. auto.
Qed.

Section Chunking.
Variable step : LineStep.
Variable breaks : string -> bool.
Hypothesis step_breaks : forall line st, snd (step line st) = breaks line.
Hypothesis step_buffer : forall line st b,
  fst (step line (with_buffer b st)) = with_buffer b (fst (step line st)).




Lemma run_lines_with_buffer : forall lines st b,
  run_lines step lines (with_buffer b st)
  = with_buffer b (run_lines step lines st).
Proof.
  induction lines as [|l lines IH]; intros st b; [reflexivity|].
  unfold run_lines in *. cbn [fold_left]. now rewrite step_buffer, IH.
Qed.

Lemma run_lines_app : forall l1 l2 st,
  run_lines step (l1 ++ l2) st = run_lines step l2 (run_lines step l1 st).
Proof. intros. unfold run_lines. now rewrite fold_left_app. Qed.

End Chunking.

Lemma ollama_step_breaks : forall onStream line st,
  snd (ollama_line onStream line st) = ollama_breaks line.
Proof.
  intros. unfold ollama_line, ollama_breaks.
  destruct (is_empty (trim line)); [reflexivity|].
  destruct (JSON.parse line); [|reflexivity].
  destruct (prop _ "done"); [|reflexivity].
  now destruct (truthy _).
Qed.

Lemma ollama_step_buffer : forall onStream line st b,
  fst (ollama_line onStream line (with_buffer b st))
  = with_buffer b (fst (ollama_line onStream line st)).
Proof.
  intros. unfold ollama_line.
  destruct (is_empty (trim line)); [reflexivity|].
  destruct (JSON.parse line); [|reflexivity].
  destruct (prop _ "done"); [|reflexivity].
  now destruct (truthy _).
Qed.


End DispatcherFacts.

(** C4. The top-level entry point always resolves to a text: an error
    raised inside the [try] block (missing credential, non-success status,
    failed or aborted request, unreadable stream) is turned into a message,
    and without an enabled provider it answers at once, sending no
    request. *)
Theorem generateLocalResponse_total :
  forall w reg prompt systemInstruction onStream modelId,
    let body := Dispatcher.respond w reg prompt systemInstruction onStream modelId in
    let reply := Dispatcher.generateLocalResponse
                   w reg prompt systemInstruction onStream modelId in
    Dispatcher.result reply
    = inl (match Dispatcher.result body with
           | inl text => text
           | inr error =>
               "Error: " ++ Dispatcher.err_message error
               ++ ". Please check your provider configuration."
           end)
    /\ match Providers.getActiveProvider reg with
       | None =>
           Dispatcher.result reply
           = inl "No AI provider configured. Please check your settings."
           /\ Dispatcher.sent reply = []
       | Some _ => True
       end.
Proof.
  intros w reg prompt systemInstruction onStream modelId body reply.
  subst body reply. unfold Dispatcher.generateLocalResponse, Dispatcher.try_catch.
  split.
  - destruct (Dispatcher.result (Dispatcher.respond _ _ _ _ _ _)) eqn:E; simpl;
      [exact E | reflexivity].
  - unfold Dispatcher.respond.
    destruct (Providers.getActiveProvider reg); [exact I|]. simpl. auto.
Qed.



(** The same through the top-level entry point, with the built-in
    configuration (Ollama enabled). *)
Example generateLocalResponse_stream :
  let reply := Dispatcher.generateLocalResponse
                 (Dispatcher.streaming "http://localhost:3001"
                    [ Js.dq "{'response': 'a'}" ++ Js.NL;
                      Js.dq "{'response': 'b'}" ++ Js.NL ++ Js.dq "{'done': true}" ++ Js.NL ])
                 Providers.initial "hi" "be brief" true None in
  Dispatcher.result reply = inl "ab"
  /\ Dispatcher.observed reply = ["a"; "ab"]
  /\ map Dispatcher.url (Dispatcher.sent reply)
     = ["http://localhost:11434/api/generate"].
Proof. vm_compute. repeat split; reflexivity. Qed.

(** A sentinel in the middle of a chunk skips the rest of that chunk only:
    the lines of the following chunks are still read. *)
Example done_breaks_one_chunk_only :
  let line t := Js.dq ("{'response': '" ++ t ++ "'}") ++ Js.NL in
  let stop := Js.dq "{'done': true}" ++ Js.NL in
  Dispatcher.fullText
    (Dispatcher.read_all (Dispatcher.ollama_line true)
       (Dispatcher.mkBody [line "a" ++ stop ++ line "b"; line "c"] None))
  = "ac".
Proof. vm_compute. reflexivity. Qed.

(** The failures the adapters raise, as the top-level entry point reports
    them. *)
Example generateLocalResponse_missing_credential :
  let reply := Dispatcher.generateLocalResponse
                 (Dispatcher.streaming "http://localhost:3001" [])
                 (Providers.setActiveProvider true "OpenAI" Providers.initial)
                 "hi" "be brief" false None in
  Dispatcher.result reply
  = inl "Error: OpenAI API key not configured. Please check your provider configuration."
  /\ Dispatcher.sent reply = [].
Proof. vm_compute. split; reflexivity. Qed.

Example generateLocalResponse_http_error :
  Dispatcher.result
    (Dispatcher.generateLocalResponse
       (Dispatcher.mkWorld
          (fun _ => Dispatcher.Responds false 500 "Internal Server Error" None)
          "http://localhost:3001")
       Providers.initial "hi" "be brief" false None)
  = inl "Error: Ollama API error: 500 Internal Server Error. Please check your provider configuration.".
Proof. vm_compute. reflexivity. Qed.

Example generateLocalResponse_aborted :
  Dispatcher.result
    (Dispatcher.generateLocalResponse
       (Dispatcher.mkWorld
          (fun _ => Dispatcher.Rejects
                      (Dispatcher.mkError "AbortError" "signal is aborted without reason"))
          "http://localhost:3001")
       Providers.initial "hi" "be brief" false None)
  = inl "Error: signal is aborted without reason. Please check your provider configuration.".
Proof. vm_compute. reflexivity. Qed.

Example generateLocalResponse_unreadable :
  Dispatcher.result
    (Dispatcher.generateLocalResponse
       (Dispatcher.mkWorld (fun _ => Dispatcher.Responds true 200 "OK" None)
                           "http://localhost:3001")
       Providers.initial "hi" "be brief" false None)
  = inl "Error: Unable to read response stream. Please check your provider configuration.".
Proof. vm_compute. reflexivity. Qed.

Example generateLocalResponse_read_failure :
  let reply :=
    Dispatcher.generateLocalResponse
      (Dispatcher.mkWorld
         (fun _ => Dispatcher.Responds true 200 "OK"
                     (Some (Dispatcher.mkBody
                              [Js.dq "{'response': 'a'}" ++ Js.NL]
                              (Some (Dispatcher.TypeError "network error")))))
         "http://localhost:3001")
      Providers.initial "hi" "be brief" true None in
  Dispatcher.result reply
  = inl "Error: network error. Please check your provider configuration."
  /\ Dispatcher.observed reply = ["a"].
Proof. vm_compute. split; reflexivity. Qed.

Example generateLocalResponse_no_provider :
  let reg := Providers.mkRegistry
               (Some (Providers.Raw (Js.dq
                  "[{'name':'Ollama','enabled':false}]")))
               Providers.initialEnabled in
  let reply := Dispatcher.generateLocalResponse
                 (Dispatcher.streaming "http://localhost:3001" [])
                 reg "hi" "be brief" false None in
  Providers.getActiveProvider reg = None
  /\ Dispatcher.result reply
     = inl "No AI provider configured. Please check your settings."
  /\ Dispatcher.sent reply = [].
Proof. vm_compute. repeat split; reflexivity. Qed.

(* ------------------------------------------------------------------ *)
(** ** The provider registry *)
(* ------------------------------------------------------------------ *)

(** * [JSON.parse] builds proper values *)

Module JSONFacts.
Import Json JSON.

Ltac break H :=
  repeat match type of H with
  | context [match ?x with _ => _ end] =>
      match x with
      | context [match _ with _ => _ end] => fail 1
      | _ => destruct x eqn:?; try discriminate H
      end
  end.

Lemma parse_number_wf : forall s v r,
  parse_number s = Some (v, r) -> wf v = true.
Proof.
  intros s v r H. unfold parse_number in H. break H.
  all: injection H as <- _; reflexivity.
Qed.

Lemma keyword_value : forall w v s v' r,
  keyword w v s = Ok (v', r) -> v' = v.
Proof.
  intros w v s v' r H. unfold keyword in H.
  destruct (Js.startsWith s w); [|discriminate]. now injection H as <- _.
Qed.

Lemma wf_set : forall k v acc,
  wf (JObj acc) = true -> wf v = true -> wf (JObj (Obj.set k v acc)) = true.
Proof.
  intros k v acc Hacc Hv. cbn [wf] in *. apply andb_true_iff in Hacc.
  destruct Hacc as [Hd Hall]. apply andb_true_iff. split.
  - apply ObjFacts.distinct_NoDup. apply ObjFacts.distinct_NoDup in Hd.
    now apply (ObjFacts.NoDup_set json).
  - rewrite forallb_forall in *. intros e He.
    destruct (ObjFacts.In_set json _ _ _ _ He) as [Hin | ->]; auto.
Qed.

Lemma wf_snoc : forall acc v,
  forallb wf acc = true -> wf v = true -> forallb wf (acc ++ [v]) = true.
Proof.
  intros acc v Hacc Hv. rewrite forallb_app, Hacc. simpl. now rewrite Hv.
Qed.

Lemma parse_fuel_wf : forall n,
  (forall s v r, parse_value n s = Ok (v, r) -> wf v = true)
  /\ (forall s acc v r,
        parse_elems n s acc = Ok (v, r) -> forallb wf acc = true -> wf v = true)
  /\ (forall s acc v r,
        parse_members n s acc = Ok (v, r) -> wf (JObj acc) = true -> wf v = true).
Proof.
  induction n as [|n (IHv & IHe & IHm)].
  - repeat split; intros; discriminate.
  - repeat split.
    + intros s v r H. cbn [parse_value] in H. break H.
      all: try (injection H as <- _; reflexivity).
      all: try (apply keyword_value in H; now subst).
      * now apply (IHm _ _ _ _ H).
      * now apply (IHe _ _ _ _ H).
      * unfold lift in H. break H. injection H as ->.
        eapply parse_number_wf; eauto.
    + intros s acc v r H Hacc. cbn [parse_elems] in H. break H.
      * apply (IHe _ _ _ _ H). apply wf_snoc; eauto.
      * injection H as <- _. cbn [wf]. apply wf_snoc; eauto.
    + intros s acc v r H Hacc. cbn [parse_members] in H. break H.
      * apply (IHm _ _ _ _ H). apply wf_set; eauto.
      * injection H as <- _. apply wf_set; eauto.
Qed.

Lemma parse_wf : forall s v, parse s = Some v -> wf v = true.
Proof.
  intros s v H. unfold parse, run in H. break H. injection H as <-.
  match goal with
  | E : parse_value _ _ = Ok _ |- _ => apply (proj1 (parse_fuel_wf _) _ _ _ E)
  end.
Qed.

(** *** The fuel suffices *)

Lemma skip_ws_length : forall s, String.length (skip_ws s) <= String.length s.
Proof.
  induction s as [|c s IH]; simpl; [lia|]. destruct (is_ws c); simpl; lia.
Qed.

Lemma push_some : forall c r t rest,
  push c r = Some (t, rest) -> exists t', r = Some (t', rest).
Proof.
  intros c [[t' rest']|] t rest H; simpl in H; [|discriminate].
  injection H as _ <-. eauto.
Qed.

Lemma parse_chars_length : forall n s t r,
  String.length s <= n -> parse_chars s = Some (t, r) ->
  String.length r < String.length s.
Proof.
  induction n as [|n IH]; intros s t r Hn H;
    destruct s as [|c s']; try discriminate; cbn [String.length] in Hn; [lia|].
  cbn [parse_chars] in H. break H.
  all: try (injection H as _ <-; cbn [String.length]; lia).
  all: apply push_some in H; destruct H as (t' & H);
       apply IH in H; cbn [String.length] in *; lia.
Qed.

Lemma span_digits_length : forall s d r,
  span_digits s = (d, r) -> String.length r <= String.length s.
Proof.
  induction s as [|c s IH]; intros d r H; cbn [span_digits] in H.
  - injection H as _ <-. simpl. lia.
  - destruct (Js.is_digit c).
    + destruct (span_digits s) as [d' r'] eqn:E. injection H as _ <-.
      specialize (IH _ _ eq_refl). simpl. lia.
    + injection H as _ <-. lia.
Qed.

Lemma parse_fraction_length : forall s d r,
  parse_fraction s = Some (d, r) -> String.length r <= String.length s.
Proof.
  intros s d r H. unfold parse_fraction in H. break H.
  all: injection H as _ <-; cbn [String.length]; try lia.
  match goal with
  | E : span_digits _ = _ |- _ => apply span_digits_length in E; lia
  end.
Qed.

Lemma parse_exponent_length : forall s e r,
  parse_exponent s = Some (e, r) -> String.length r <= String.length s.
Proof.
  intros s e r H. unfold parse_exponent in H. break H.
  all: injection H as _ <-; cbn [String.length]; try lia.
  all: match goal with
       | E : span_digits _ = _ |- _ =>
           apply span_digits_length in E; cbn [String.length] in *; lia
       end.
Qed.

Ltac lengths :=
  repeat match goal with
  | E : span_digits _ = _ |- _ => apply span_digits_length in E
  | E : parse_fraction _ = Some _ |- _ => apply parse_fraction_length in E
  | E : parse_exponent _ = Some _ |- _ => apply parse_exponent_length in E
  | E : parse_chars _ = Some _ |- _ => apply (parse_chars_length _ _ _ _ (le_n _)) in E
  | E : skip_ws ?x = ?y |- _ =>
      let L := fresh "L" in
      pose proof (skip_ws_length x) as L; rewrite E in L; clear E
  end;
  cbn [String.length] in *.

Lemma parse_number_length : forall s v r,
  parse_number s = Some (v, r) -> String.length r < String.length s.
Proof.
  intros s v r H. unfold parse_number in H. break H.
  all: injection H as _ <-.
  all: repeat match goal with
       | E : (_, _) = (_, _) |- _ => injection E as <- <-
       end.
  all: subst.
  all: try match goal with
       | D : Js.is_digit ?a = true, E : span_digits (String ?a ?x) = _ |- _ =>
           cbn [span_digits] in E; rewrite D in E;
           destruct (span_digits x) eqn:?; injection E as <- <-
       end.
  all: lengths; lia.
Qed.

Lemma drop_length : forall n s, String.length (Js.drop n s) <= String.length s.
Proof.
  induction n as [|n IH]; intros [|c s]; simpl; try lia.
  specialize (IH s). lia.
Qed.

Lemma keyword_length : forall w v s v' r,
  w <> EmptyString -> s <> EmptyString ->
  keyword w v s = Ok (v', r) -> String.length r < String.length s.
Proof.
  intros [|a w] v [|c s] v' r Hw Hs H; try congruence.
  unfold keyword in H. destruct (Js.startsWith _ _); [|discriminate].
  injection H as _ <-. cbn [String.length Js.drop].
  pose proof (drop_length (String.length w) s). lia.
Qed.

(** Every successful parse consumes at least one character. *)
Lemma parse_fuel_length : forall n,
  (forall s v r, parse_value n s = Ok (v, r) ->
                 String.length r < String.length s)
  /\ (forall s acc v r, parse_elems n s acc = Ok (v, r) ->
                        String.length r < String.length s)
  /\ (forall s acc v r, parse_members n s acc = Ok (v, r) ->
                        String.length r < String.length s).
Proof.
  induction n as [|n (IHv & IHe & IHm)].
  - repeat split; intros; discriminate.
  - repeat split.
    + intros s v r H. cbn [parse_value] in H. break H.
      all: try (injection H as _ <-; lengths; lia).
      all: try (apply keyword_length in H; [lengths; lia | discriminate..]).
      * apply IHm in H. lengths. lia.
      * apply IHe in H. lengths. lia.
      * unfold lift in H. break H. injection H as ->.
        match goal with
        | E : parse_number _ = Some _ |- _ => apply parse_number_length in E
        end.
        lengths. lia.
    + intros s acc v r H. cbn [parse_elems] in H. break H.
      all: match goal with
           | E : parse_value _ _ = Ok _ |- _ => apply IHv in E
           end.
      * apply IHe in H. lengths. lia.
      * injection H as _ <-. lengths. lia.
    + intros s acc v r H. cbn [parse_members] in H. break H.
      all: match goal with
           | E : parse_value _ _ = Ok _ |- _ => apply IHv in E
           end.
      * apply IHm in H. lengths. lia.
      * injection H as _ <-. lengths. lia.
Qed.

Lemma parse_fuel_enough : forall n,
  (forall s, 2 * String.length s + 1 <= n -> parse_value n s <> OutOfFuel)
  /\ (forall s acc, 2 * String.length s + 2 <= n ->
                    parse_elems n s acc <> OutOfFuel)
  /\ (forall s acc, 2 * String.length s + 2 <= n ->
                    parse_members n s acc <> OutOfFuel).
Proof.
  induction n as [|n (IHv & IHe & IHm)].
  - repeat split; intros; lia.
  - destruct (parse_fuel_length n) as (Lv & _ & _). repeat split.
    + intros s Hn H. cbn [parse_value] in H. break H.
      all: try (unfold keyword in H; break H; discriminate).
      all: try (unfold lift in H; break H; discriminate).
      * revert H. apply IHm. lengths. lia.
      * revert H. apply IHe. lengths. lia.
    + intros s acc Hn H. cbn [parse_elems] in H. break H.
      * match goal with
        | E : parse_value _ _ = Ok _ |- _ => apply Lv in E
        end.
        revert H. apply IHe. lengths. lia.
      * match goal with
        | E : parse_value _ _ = OutOfFuel |- _ => revert E
        end.
        apply IHv. lia.
    + intros s acc Hn H. cbn [parse_members] in H. break H.
      * match goal with
        | E : parse_value _ _ = Ok _ |- _ => apply Lv in E
        end.
        revert H. apply IHm. lengths. lia.
      * match goal with
        | E : parse_value _ _ = OutOfFuel |- _ => revert E
        end.
        apply IHv. lengths. lia.
Qed.

(** [JSON.parse] either returns a value or throws a [SyntaxError]. *)
Lemma run_total : forall s, run s <> OutOfFuel.
Proof.
  intros s H. unfold run in H. break H.
  match goal with
  | E : parse_value _ _ = OutOfFuel |- _ => revert E
  end.
  apply (proj1 (parse_fuel_enough _)). lia.
Qed.

Lemma parse_None : forall s, parse s = None <-> run s = SyntaxError.
Proof.
  intros s. unfold parse. pose proof (run_total s) as H.
  destruct (run s); split; intros; congruence.
Qed.

End JSONFacts.

Module ProvidersFacts.
Import Json Providers ObjFacts.

(** *** Values as they are written and read back *)

Lemma json_induction : forall P : json -> Prop,
  P JNull -> (forall b, P (JBool b)) -> (forall m e, P (JNum m e)) ->
  (forall s, P (JStr s)) ->
  (forall l, Forall P l -> P (JArr l)) ->
  (forall o, Forall (fun e => P (snd e)) o -> P (JObj o)) ->
  forall v, P v.
Proof.
  intros P Hnull Hbool Hnum Hstr Harr Hobj. fix IH 1.
  intros [| b | m e | s | l | o];
    [exact Hnull | apply Hbool | apply Hnum | apply Hstr | | ].
  - apply Harr. induction l as [|x l IHl]; constructor; [apply IH | exact IHl].
  - apply Hobj. induction o as [|x o IHo]; constructor; [apply IH | exact IHo].
Qed.

Lemma written_JObj : forall o, written (JObj o) = JObj (written_props o).
Proof. reflexivity. Qed.

Lemma keys_written : forall o, Obj.keys (written_props o) = Obj.keys o.
Proof.
  intros o. unfold Obj.keys, written_props. rewrite map_map. reflexivity.
Qed.

Lemma get_written : forall k o,
  Obj.get k (written_props o) = option_map written (Obj.get k o).
Proof.
  intros k. induction o as [|[k' v] o IH]; [reflexivity|].
  cbn [written_props map fst snd Obj.get]. fold (written_props o).
  destruct (String.eqb k' k); [reflexivity | exact IH].
Qed.

Lemma wf_written : forall v, wf (written v) = wf v.
Proof.
  induction v as [| b | m e | s | l IH | o IH] using json_induction;
    try reflexivity.
  - cbn [written]. now destruct (overflows m e).
  - cbn [written wf]. induction IH as [|x l Hx _ IHl]; [reflexivity|].
    cbn [map forallb]. now rewrite Hx, IHl.
  - rewrite written_JObj. cbn [wf]. fold (Obj.keys (written_props o)).
    rewrite keys_written. fold (Obj.keys o). f_equal.
    induction IH as [|x o Hx _ IHo]; [reflexivity|].
    cbn [written_props map forallb snd]. fold (written_props o).
    now rewrite Hx, IHo.
Qed.

(** Whatever was written to their [enabled] fields, the built-in objects
    keep their names and have distinct keys. *)
Lemma defaults_names : forall reg, map nameOf (defaultObjects reg) = names.
Proof. intros [st flags]. vm_compute. reflexivity. Qed.

Lemma defaults_distinct : forall reg,
  forallb (fun o => Obj.distinct (Obj.keys o)) (defaultObjects reg) = true.
Proof. intros [st flags]. vm_compute. reflexivity. Qed.

Lemma defaults_enabled : forall reg,
  map enabledOf (defaultObjects reg)
  = map (fun i => Some (JBool (nth i (enabledDefaults reg) (nth i initialEnabled false))))
        (seq 0 4).
Proof. intros [st flags]. vm_compute. reflexivity. Qed.

Lemma string_of_nat_not_name : forall i k,
  match k with
  | String c _ => Js.is_digit c = false
  | EmptyString => True
  end ->
  String.eqb (string_of_nat i) k = false.
Proof.
  intros i [|c k] Hc; unfold string_of_nat.
  - destruct (Nat.to_uint i); reflexivity.
  - apply String.eqb_neq. intros E.
    assert (Hd : match DecimalString.NilZero.string_of_uint (Nat.to_uint i) with
                 | String a _ => Js.is_digit a = true
                 | EmptyString => False
                 end) by (destruct (Nat.to_uint i); reflexivity).
    rewrite E in Hd. congruence.
Qed.

Lemma get_indexed : forall (B : Type) (l : list B) i k,
  match k with
  | String c _ => Js.is_digit c = false
  | EmptyString => True
  end ->
  Obj.get k (indexed i l) = None.
Proof.
  induction l as [|x l IH]; intros i k Hk; simpl; [reflexivity|].
  rewrite string_of_nat_not_name by exact Hk. now apply IH.
Qed.

Lemma prop_name : forall p n,
  prop (Some p) "name" = Some (Some (JStr n)) ->
  exists o, p = JObj o /\ Obj.get "name" o = Some (JStr n).
Proof.
  intros p n H. destruct p; simpl in H; try discriminate.
  - rewrite get_indexed in H by reflexivity. discriminate.
  - rewrite get_indexed in H by reflexivity. discriminate.
  - exists o. split; congruence.
Qed.

Lemma strict_eq_string : forall v n,
  strict_eq v (Some (JStr n)) = true -> v = Some (JStr n).
Proof.
  intros [[]|] n H; simpl in H; try discriminate.
  apply String.eqb_eq in H. now subst.
Qed.

Lemma find_by_name_found : forall n l p,
  find_by_name (Some (JStr n)) l = Some (Some p) ->
  In p l /\ exists o, p = JObj o /\ Obj.get "name" o = Some (JStr n).
Proof.
  intros n. induction l as [|x l IH]; cbn [find_by_name]; intros p H;
    [discriminate|].
  destruct (prop (Some x) "name") as [nm|] eqn:Hp; [|discriminate].
  destruct (strict_eq nm (Some (JStr n))) eqn:He.
  - injection H as <-. apply strict_eq_string in He. subst nm.
    split; [now left | now apply prop_name].
  - destruct (IH p H) as [Hin Ho]. split; [now right | exact Ho].
Qed.

Lemma wf_element : forall l o,
  wf (JArr l) = true -> In (JObj o) l -> NoDup (Obj.keys o).
Proof.
  intros l o Hwf Hin. simpl in Hwf. rewrite forallb_forall in Hwf.
  specialize (Hwf _ Hin). simpl in Hwf. apply andb_true_iff in Hwf.
  destruct Hwf as [Hd _]. now apply distinct_NoDup.
Qed.

(** The merge keeps the name of every built-in provider. *)
Lemma merge_names : forall reg parsed ds i rs,
  wf parsed = true ->
  (forall d, In d ds -> exists n, nameOf d = Some (JStr n)) ->
  (forall j, j < List.length ds -> nth (i + j) (defaultObjects reg) [] = nth j ds []) ->
  merge_defaults parsed i ds = Some rs ->
  map (fun r => nameOf (deref reg r)) rs = map nameOf ds.
Proof.
  intros reg parsed. induction ds as [|d ds IH]; intros i rs Hwf Hnames Hnth H.
  - simpl in H. injection H as <-. reflexivity.
  - simpl in H. destruct parsed as [| | | |l|]; try discriminate.
    destruct (find_by_name (Obj.get "name" d) l) as [savedProvider|] eqn:Hf;
      [|discriminate].
    destruct (merge_defaults (JArr l) (S i) ds) as [rs'|] eqn:Hm; [|discriminate].
    injection H as <-. cbn [map]. f_equal.
    + destruct (Hnames d (or_introl eq_refl)) as (n & Hn).
      fold (nameOf d) in Hf. rewrite Hn in Hf.
      destruct (truthy savedProvider) eqn:Ht.
      * destruct savedProvider as [p|]; [|discriminate].
        destruct (find_by_name_found _ _ _ Hf) as (Hin & o & -> & Ho).
        cbn [deref own_props]. unfold nameOf.
        rewrite get_assign by (eapply wf_element; eauto).
        now rewrite Ho.
      * cbn [deref]. specialize (Hnth 0 (Nat.lt_0_succ _)).
        rewrite Nat.add_0_r in Hnth. now rewrite Hnth.
    + apply (IH (S i) rs' Hwf).
      * intros d' Hd'. apply Hnames. now right.
      * intros j Hj. specialize (Hnth (S j)). simpl in Hnth.
        rewrite Nat.add_succ_r in Hnth. apply Hnth. lia.
      * exact Hm.
Qed.

Lemma map_nth_seq : forall (B : Type) (l : list B) d,
  map (fun i => nth i l d) (seq 0 (List.length l)) = l.
Proof.
  intros B l d. induction l as [|x l IH]; simpl; [reflexivity|].
  f_equal. rewrite <- seq_shift, map_map. exact IH.
Qed.

Lemma allDefaults_deref : forall reg,
  map (deref reg) (allDefaults reg) = defaultObjects reg.
Proof.
  intros reg. unfold allDefaults. rewrite map_map. cbn [deref].
  apply map_nth_seq.
Qed.

Lemma defaults_named : forall reg d,
  In d (defaultObjects reg) -> exists n, nameOf d = Some (JStr n).
Proof.
  intros reg d Hin. apply (in_map nameOf) in Hin.
  rewrite defaults_names in Hin. unfold names in Hin.
  apply in_map_iff in Hin. destruct Hin as (n & Hn & _). eauto.
Qed.

Lemma load_names : forall reg,
  wf_storage reg = true ->
  map nameOf (getAvailableProviders reg) = names.
Proof.
  intros reg Hwf. unfold getAvailableProviders, loadProviderConfigs.
  unfold wf_storage in Hwf.
  pose proof (allDefaults_deref reg) as Hall.
  destruct (storage reg) as [saved|];
    [|rewrite Hall; apply defaults_names].
  destruct (text_truthy saved); [|rewrite Hall; apply defaults_names].
  destruct (parse_text saved) as [parsed|];
    [|rewrite Hall; apply defaults_names].
  destruct (merge_defaults parsed 0 (defaultObjects reg)) as [rs|] eqn:Hm;
    [|rewrite Hall; apply defaults_names].
  rewrite map_map.
  rewrite (merge_names reg parsed (defaultObjects reg) 0 rs Hwf
             (defaults_named reg) (fun j _ => eq_refl) Hm).
  apply defaults_names.
Qed.

(** *** Loaded references *)

Lemma deref_name : forall reg r, nameOf (deref reg r) = refName r.
Proof.
  intros reg [i|o]; [|reflexivity]. cbn [deref refName].
  change (@None json) with (nameOf []).
  rewrite <- (map_nth nameOf). now rewrite defaults_names.
Qed.

Lemma load_refNames : forall reg,
  wf_storage reg = true -> map refName (loadProviderConfigs reg) = names.
Proof.
  intros reg Hwf. rewrite <- (load_names reg Hwf).
  unfold getAvailableProviders. rewrite map_map.
  apply map_ext. intros r. symmetry. apply deref_name.
Qed.

Lemma defaults_wf : forall reg,
  forallb (fun o => wf (JObj o)) (defaultObjects reg) = true.
Proof. intros [st flags]. vm_compute. reflexivity. Qed.

Lemma default_wf : forall reg d, In d (defaultObjects reg) -> wf (JObj d) = true.
Proof.
  intros reg d Hin. pose proof (defaults_wf reg) as H.
  rewrite forallb_forall in H. now apply H.
Qed.

Lemma wf_NoDup : forall o, wf (JObj o) = true -> NoDup (Obj.keys o).
Proof.
  intros o H. cbn [wf] in H. apply andb_true_iff in H.
  apply distinct_NoDup. apply H.
Qed.

Lemma wf_assign : forall source target : Obj.t json,
  forallb (fun e => wf (snd e)) source = true ->
  wf (JObj target) = true ->
  wf (JObj (Obj.assign target source)) = true.
Proof.
  unfold Obj.assign.
  induction source as [|[k v] source IH]; cbn [fold_left forallb fst snd];
    intros target Hs Ht; [exact Ht|].
  apply andb_true_iff in Hs. destruct Hs as [Hv Hs].
  apply IH; [exact Hs|]. now apply JSONFacts.wf_set.
Qed.

Lemma deref_wf : forall reg r, proper r -> wf (JObj (deref reg r)) = true.
Proof.
  intros reg [i|o] H; [|exact H]. cbn [deref].
  destruct (Nat.lt_ge_cases i (List.length (defaultObjects reg))) as [Hlt | Hge].
  - eapply default_wf. now apply nth_In.
  - rewrite nth_overflow by exact Hge. reflexivity.
Qed.

Lemma merge_proper : forall parsed ds i rs,
  wf parsed = true ->
  (forall d, In d ds ->
     wf (JObj d) = true /\ exists n, nameOf d = Some (JStr n)) ->
  merge_defaults parsed i ds = Some rs -> Forall proper rs.
Proof.
  intros parsed. induction ds as [|d ds IH]; intros i rs Hwf Hds H.
  - simpl in H. injection H as <-. constructor.
  - cbn [merge_defaults] in H. destruct parsed as [| | | |l|]; try discriminate.
    destruct (find_by_name (Obj.get "name" d) l) as [savedProvider|] eqn:Hf;
      [|discriminate].
    destruct (merge_defaults (JArr l) (S i) ds) as [rs'|] eqn:Hm; [|discriminate].
    injection H as <-. constructor.
    + destruct (Hds d (or_introl eq_refl)) as (Hd & n & Hn).
      fold (nameOf d) in Hf. rewrite Hn in Hf.
      destruct (truthy savedProvider); [|exact I].
      destruct savedProvider as [p|]; [|exact Hd].
      destruct (find_by_name_found _ _ _ Hf) as (Hin & o & -> & _).
      cbn [proper own_props]. cbn [wf] in Hwf. rewrite forallb_forall in Hwf.
      specialize (Hwf _ Hin). apply wf_assign; [|exact Hd].
      cbn [wf] in Hwf. apply andb_true_iff in Hwf. apply Hwf.
    + apply (IH (S i) rs'); [exact Hwf| |exact Hm].
      intros d' Hd'. apply Hds. now right.
Qed.

Lemma allDefaults_proper : forall reg, Forall proper (allDefaults reg).
Proof.
  intros reg. unfold allDefaults. apply Forall_forall. intros r Hr.
  apply in_map_iff in Hr. destruct Hr as (i & <- & _). exact I.
Qed.

Lemma load_proper : forall reg,
  wf_storage reg = true -> Forall proper (loadProviderConfigs reg).
Proof.
  intros reg Hwf. unfold loadProviderConfigs. unfold wf_storage in Hwf.
  destruct (storage reg) as [saved|]; [|apply allDefaults_proper].
  destruct (text_truthy saved); [|apply allDefaults_proper].
  destruct (parse_text saved) as [parsed|]; [|apply allDefaults_proper].
  destruct (merge_defaults parsed 0 (defaultObjects reg)) as [rs|] eqn:Hm;
    [|apply allDefaults_proper].
  eapply merge_proper; [exact Hwf| |exact Hm].
  intros d Hd. split; [eapply default_wf | eapply defaults_named]; eauto.
Qed.

(** *** Selecting a provider *)

Lemma enable_only_configs : forall providerName rs reg configs reg',
  Forall proper rs ->
  enable_only providerName rs reg = (configs, reg') ->
  map nameOf configs = map refName rs
  /\ map enabledOf configs = map (fun r => flagOf providerName (refName r)) rs
  /\ forallb (fun c => wf (JObj c)) configs = true.
Proof.
  intros X. induction rs as [|r rs IH]; intros reg configs reg' Hrs H.
  - simpl in H. injection H as <- _. repeat split; reflexivity.
  - cbn [enable_only] in H. cbv zeta in H.
    match type of H with
    | context [enable_only X rs ?reg1] =>
        destruct (enable_only X rs reg1) as [ps reg2] eqn:Hrec
    end.
    injection H as <- _. inversion Hrs as [|? ? Hr Hrs']; subst.
    destruct (IH _ _ _ Hrs' Hrec) as (Hn & He & Hd).
    cbn [map]. repeat split.
    + f_equal; [|exact Hn]. unfold nameOf.
      rewrite get_set_other by discriminate. apply deref_name.
    + f_equal; [|exact He]. unfold enabledOf, flagOf.
      rewrite get_set_same. fold (nameOf (deref reg r)).
      now rewrite deref_name.
    + cbn [forallb]. rewrite Hd, andb_true_r.
      apply JSONFacts.wf_set; [now apply deref_wf | reflexivity].
Qed.

(** *** Loading what was saved *)

Lemma find_saved : forall n c cs,
  NoDup (map nameOf cs) -> In c cs -> nameOf c = Some (JStr n) ->
  find_by_name (Some (JStr n)) (map JObj cs) = Some (Some (JObj c)).
Proof.
  intros n c. induction cs as [|c0 cs IH]; intros Hnd Hin Hc; [contradiction|].
  cbn [map find_by_name prop]. fold (nameOf c0).
  inversion Hnd as [|? ? Hnot Hnd']; subst.
  destruct Hin as [-> | Hin].
  - rewrite Hc. simpl. now rewrite String.eqb_refl.
  - destruct (strict_eq (nameOf c0) (Some (JStr n))) eqn:E.
    + apply strict_eq_string in E. exfalso. apply Hnot.
      rewrite E, <- Hc. now apply in_map.
    + now apply IH.
Qed.

Lemma merge_saved : forall all ds cs i,
  NoDup (map nameOf all) ->
  map nameOf ds = map nameOf cs ->
  (forall c, In c cs -> In c all /\ exists n, nameOf c = Some (JStr n)) ->
  merge_defaults (JArr (map JObj all)) i ds
  = Some (map (fun dc => Merged (Obj.assign (fst dc) (snd dc))) (combine ds cs)).
Proof.
  intros all. induction ds as [|d ds IH]; intros cs i Hnd Hn Hcs.
  - reflexivity.
  - destruct cs as [|c cs]; [discriminate|]. cbn [map] in Hn.
    injection Hn as Hd Hn.
    destruct (Hcs c (or_introl eq_refl)) as (Hin & n & Hc).
    cbn [merge_defaults]. fold (nameOf d). rewrite Hd, Hc.
    rewrite (find_saved n c all Hnd Hin Hc).
    rewrite (IH cs (S i) Hnd Hn) by (intros c' Hc'; apply Hcs; now right).
    reflexivity.
Qed.

Lemma merged_props : forall k (ds cs : list ProviderConfig),
  List.length ds = List.length cs ->
  Forall (fun c => NoDup (Obj.keys c)) cs ->
  Forall (fun c => Obj.get k c <> None) cs ->
  map (fun dc => Obj.get k (Obj.assign (fst dc) (snd dc))) (combine ds cs)
  = map (Obj.get k) cs.
Proof.
  intros k. induction ds as [|d ds IH]; intros [|c cs] Hlen Hnd Hk;
    try discriminate; [reflexivity|].
  inversion Hnd; inversion Hk; subst. cbn [combine map fst snd]. f_equal.
  - rewrite get_assign by assumption. destruct (Obj.get k c); congruence.
  - apply IH; auto.
Qed.

Lemma names_NoDup : NoDup names.
Proof.
  apply (NoDup_map_inv (fun v => match v with Some (JStr n) => n | _ => EmptyString end)).
  apply distinct_NoDup. reflexivity.
Qed.

Lemma map_pair : forall (B C D : Type) (f : B -> C) (g : B -> D) l,
  map (fun x => (f x, g x)) l = combine (map f l) (map g l).
Proof.
  intros B C D f g. induction l as [|x l IH]; simpl; [reflexivity|].
  now rewrite IH.
Qed.

(** The records of a list that was written. *)
Lemma written_configs : forall configs : list ProviderConfig,
  written (JArr (map JObj configs)) = JArr (map JObj (map written_props configs)).
Proof. intros. cbn [written]. now rewrite !map_map. Qed.

Lemma written_names : forall configs : list ProviderConfig,
  map nameOf configs = names ->
  map nameOf (map written_props configs) = names.
Proof.
  intros configs H.
  assert (Hs : forall c, In c configs -> exists n, nameOf c = Some (JStr n)).
  { intros c Hc. apply (in_map nameOf) in Hc. rewrite H in Hc.
    apply in_map_iff in Hc. destruct Hc as (n & Hc & _). eauto. }
  rewrite <- H. clear H. induction configs as [|c configs IH]; [reflexivity|].
  cbn [map]. rewrite IH by (intros; apply Hs; now right). f_equal.
  destruct (Hs c (or_introl eq_refl)) as (n & Hn).
  unfold nameOf in *. now rewrite get_written, Hn.
Qed.

Lemma written_flags : forall (configs : list ProviderConfig) (bs : list bool),
  map enabledOf configs = map (fun b => Some (JBool b)) bs ->
  map enabledOf (map written_props configs) = map enabledOf configs.
Proof.
  induction configs as [|c configs IH]; intros [|b bs] H; try discriminate;
    [reflexivity|].
  cbn [map] in *. injection H as Hc H. rewrite (IH bs H). f_equal.
  unfold enabledOf in *. now rewrite get_written, Hc.
Qed.

(** After a [setActiveProvider] whose write went through, a load returns
    the built-in names in order, each with the flag that the selection gave
    it, whatever the built-in objects' own flags are at that time. *)
Lemma load_after_select : forall providerName reg flags,
  wf_storage reg = true ->
  map (fun p => (nameOf p, enabledOf p))
      (getAvailableProviders
         (mkRegistry (storage (setActiveProvider true providerName reg)) flags))
  = map (fun n => (Some (JStr n), Some (JBool (String.eqb n providerName))))
        defaultNames.
Proof.
  intros X reg flags Hwf. unfold setActiveProvider.
  destruct (enable_only X (loadProviderConfigs reg) reg) as [configs reg'] eqn:E.
  destruct (enable_only_configs X _ reg configs reg' (load_proper reg Hwf) E)
    as (Hn & He & Hd').
  rewrite <- (map_map refName (flagOf X)) in He.
  rewrite (load_refNames reg Hwf) in Hn, He.
  assert (Hflags : map enabledOf configs
                   = map (fun b => Some (JBool b))
                         (map (fun n => String.eqb n X) defaultNames)).
  { rewrite He. reflexivity. }
  set (saved := map written_props configs).
  assert (Hn' : map nameOf saved = names) by now apply written_names.
  assert (He' : map enabledOf saved = map (flagOf X) names).
  { subst saved. now rewrite (written_flags _ _ Hflags). }
  assert (Hd : Forall (fun c => NoDup (Obj.keys c)) saved).
  { apply Forall_forall. intros c Hc. apply in_map_iff in Hc.
    destruct Hc as (c0 & <- & Hc0). rewrite keys_written.
    rewrite forallb_forall in Hd'. apply wf_NoDup. now apply Hd'. }
  assert (Hnamed : forall c, In c saved ->
            In c saved /\ exists n, nameOf c = Some (JStr n)).
  { intros c Hc. split; [exact Hc|]. apply (in_map nameOf) in Hc.
    rewrite Hn' in Hc. apply in_map_iff in Hc. destruct Hc as (n & Hc & _). eauto. }
  unfold getAvailableProviders, loadProviderConfigs, saveProviderConfigs.
  cbn [storage text_truthy parse_text]. rewrite written_configs. fold saved.
  match goal with
  | |- context [merge_defaults _ 0 (defaultObjects ?r)] => set (reg2 := r)
  end.
  rewrite (merge_saved saved (defaultObjects reg2) saved 0)
    by (rewrite ?Hn', ?defaults_names; auto using names_NoDup).
  rewrite map_map. cbn [deref]. rewrite map_pair.
  unfold nameOf at 1, enabledOf at 1. rewrite !map_map.
  assert (Hlen : List.length (defaultObjects reg2) = List.length saved).
  { pose proof (f_equal (@List.length _) Hn') as L1.
    pose proof (f_equal (@List.length _) (defaults_names reg2)) as L2.
    rewrite length_map in L1, L2. exact (eq_trans L2 (eq_sym L1)). }
  rewrite !merged_props; auto.
  - change (map (Obj.get "name") saved) with (map nameOf saved).
    change (map (Obj.get "enabled") saved) with (map enabledOf saved).
    rewrite Hn', He'. reflexivity.
  - apply Forall_forall. intros c Hc. apply (in_map enabledOf) in Hc.
    rewrite He' in Hc. apply in_map_iff in Hc. destruct Hc as (v & Hv & _).
    unfold enabledOf, flagOf in Hv. congruence.
  - apply Forall_forall. intros c Hc. destruct (Hnamed c Hc) as (_ & n & Hc').
    unfold nameOf in Hc'. congruence.
Qed.

(** The stored item stays a proper value. *)
Lemma wf_storage_raw : forall item flags,
  wf_storage (mkRegistry (option_map Raw item) flags) = true.
Proof.
  intros [s|] flags; [|reflexivity]. unfold wf_storage. cbn [storage option_map parse_text].
  destruct (JSON.parse s) as [v|] eqn:E; [|reflexivity].
  now apply (JSONFacts.parse_wf s).
Qed.

(** The forEach loop writes flags only. *)
Lemma enable_only_storage : forall providerName rs reg,
  storage (snd (enable_only providerName rs reg)) = storage reg.
Proof.
  intros X. induction rs as [|r rs IH]; intros reg; [reflexivity|].
  cbn [enable_only]. cbv zeta.
  match goal with
  | |- context [enable_only X rs ?reg1] =>
      specialize (IH reg1); destruct (enable_only X rs reg1) as [ps reg2]
  end.
  cbn [snd] in *. rewrite IH. now destruct r.
Qed.

Lemma wf_storage_select : forall accepted providerName reg,
  wf_storage reg = true ->
  wf_storage (setActiveProvider accepted providerName reg) = true.
Proof.
  intros accepted X reg Hwf. unfold setActiveProvider.
  pose proof (enable_only_storage X (loadProviderConfigs reg) reg) as Hst.
  destruct (enable_only X (loadProviderConfigs reg) reg) as [configs reg'] eqn:E.
  destruct (enable_only_configs X _ reg configs reg' (load_proper reg Hwf) E)
    as (_ & _ & Hd).
  unfold saveProviderConfigs. destruct accepted.
  - unfold wf_storage. cbn [storage parse_text]. rewrite wf_written. cbn [wf].
    rewrite forallb_forall in *. intros v Hv. apply in_map_iff in Hv.
    destruct Hv as (c & <- & Hc). now apply Hd.
  - cbn [snd] in Hst. unfold wf_storage in *. now rewrite Hst.
Qed.

Lemma enabled_names : forall (l : list ProviderConfig) L,
  map (fun p => (nameOf p, enabledOf p)) l = L ->
  map nameOf (filter (fun p => truthy (enabledOf p)) l)
  = map fst (filter (fun q => truthy (snd q)) L).
Proof.
  intros l L <-. induction l as [|p l IH]; [reflexivity|].
  cbn [map filter fst snd]. destruct (truthy (enabledOf p)); cbn [map fst];
    now rewrite IH.
Qed.

End ProvidersFacts.

(** C10. Whatever the item ['ai-providers'] holds (nothing, text that does
    not parse, any JSON value), and whatever the built-in objects' flags are,
    a registry load returns one entry per built-in provider, in the built-in
    order: Ollama, OpenRouter, OpenAI, Anthropic.  A stored record under
    another name is not returned. *)
Theorem loadProviderConfigs_defaults_only :
  forall (item : option string) (flags : list bool),
    map Providers.nameOf
        (Providers.getAvailableProviders
           (Providers.mkRegistry (option_map Providers.Raw item) flags))
    = map Providers.nameOf Providers.DEFAULT_PROVIDERS
    /\ map Providers.nameOf Providers.DEFAULT_PROVIDERS
       = map (fun n => Some (Json.JStr n)) ["Ollama"; "OpenRouter"; "OpenAI"; "Anthropic"].
Proof.
  intros item flags. split; [|reflexivity].
  apply ProvidersFacts.load_names. apply ProvidersFacts.wf_storage_raw.
Qed.

(** C5 (as amended). From any registry state and for any built-in provider
    name [X], after a [setActiveProvider X] whose write to the storage went
    through, every load, whatever the state of the built-in objects at that
    time (in the same page session or after a restart), returns the four
    built-in providers with [enabled] true for the one named [X] and false
    for the others, so the enabled providers are exactly one, named [X]. *)
Theorem setActiveProvider_one_enabled : forall reg X flags,
  Providers.wf_storage reg = true ->
  In X Providers.defaultNames ->
  let stored := Providers.storage (Providers.setActiveProvider true X reg) in
  let providers :=
    Providers.getAvailableProviders (Providers.mkRegistry stored flags) in
  map (fun p => (Providers.nameOf p, Providers.enabledOf p)) providers
  = map (fun n => (Some (Json.JStr n), Some (Json.JBool (String.eqb n X))))
        Providers.defaultNames
  /\ map Providers.nameOf
         (filter (fun p => Json.truthy (Providers.enabledOf p)) providers)
     = [Some (Json.JStr X)].
Proof.
  intros reg X flags Hwf HX stored providers.
  pose proof (ProvidersFacts.load_after_select X reg flags Hwf) as H.
  fold stored in H. fold providers in H. split; [exact H|].
  rewrite (ProvidersFacts.enabled_names providers _ H).
  destruct HX as [<-|[<-|[<-|[<-|[]]]]]; reflexivity.
Qed.

Lemma setActiveProvider_one_enabled_witness :
  let reg := Providers.mkRegistry
               (Some (Providers.Raw (Js.dq
                  "[{'name':'Mine','enabled':true},{'name':'OpenAI','apiKey':'k','enabled':true}]")))
               Providers.initialEnabled in
  map (fun p => (Providers.nameOf p, Providers.enabledOf p))
      (Providers.getAvailableProviders
         (Providers.mkRegistry
            (Providers.storage (Providers.setActiveProvider true "Anthropic" reg))
            Providers.initialEnabled))
  = [ (Some (Json.JStr "Ollama"), Some (Json.JBool false));
      (Some (Json.JStr "OpenRouter"), Some (Json.JBool false));
      (Some (Json.JStr "OpenAI"), Some (Json.JBool false));
      (Some (Json.JStr "Anthropic"), Some (Json.JBool true)) ].
Proof.
  intros reg.
  assert (Hwf : Providers.wf_storage reg = true) by reflexivity.
  assert (HX : In "Anthropic" Providers.defaultNames) by (simpl; tauto).
  exact (proj1 (setActiveProvider_one_enabled reg "Anthropic"
                  Providers.initialEnabled Hwf HX)).
Defined.

(** C5 (as stated) fails when the write is refused: with a stored
    record that enables OpenAI, [setActiveProvider("Anthropic")] sets the
    flag of the built-in Anthropic object, the refused write leaves the
    stored record in place, and the next load returns OpenAI and Anthropic
    both enabled; the active provider is then OpenAI. *)
Lemma setActiveProvider_refused_write :
  let reg := Providers.mkRegistry
               (Some (Providers.Raw (Js.dq "[{'name':'OpenAI','enabled':true}]")))
               Providers.initialEnabled in
  let reg' := Providers.setActiveProvider false "Anthropic" reg in
  map (fun p => (Providers.nameOf p, Providers.enabledOf p))
      (Providers.getAvailableProviders reg')
  = [ (Some (Json.JStr "Ollama"), Some (Json.JBool false));
      (Some (Json.JStr "OpenRouter"), Some (Json.JBool false));
      (Some (Json.JStr "OpenAI"), Some (Json.JBool true));
      (Some (Json.JStr "Anthropic"), Some (Json.JBool true)) ]
  /\ option_map Providers.nameOf (Providers.getActiveProvider reg')
     = Some (Some (Json.JStr "OpenAI")).
Proof. vm_compute. split; reflexivity. Qed.

Example setActiveProvider_twice :
  map (fun p => (Providers.nameOf p, Providers.enabledOf p))
      (Providers.getAvailableProviders
         (Providers.setActiveProvider true "OpenAI"
            (Providers.setActiveProvider true "Anthropic" Providers.initial)))
  = [ (Some (Json.JStr "Ollama"), Some (Json.JBool false));
      (Some (Json.JStr "OpenRouter"), Some (Json.JBool false));
      (Some (Json.JStr "OpenAI"), Some (Json.JBool true));
      (Some (Json.JStr "Anthropic"), Some (Json.JBool false)) ].
Proof. vm_compute. reflexivity. Qed.

(** A stored number beyond the double range is read as infinite and
    written back as [null]. *)
Example setActiveProvider_infinite_number :
  let reg := Providers.mkRegistry
               (Some (Providers.Raw (Js.dq "[{'name':'OpenAI','limit':1e400}]")))
               Providers.initialEnabled in
  (nth 2 (map (Obj.get "limit") (Providers.getAvailableProviders reg)) None,
   nth 2 (map (Obj.get "limit")
              (Providers.getAvailableProviders
                 (Providers.setActiveProvider true "Ollama" reg))) None)
  = (Some (Json.JNum 1 400), Some Json.JNull).
Proof. vm_compute. reflexivity. Qed.

Example loadProviderConfigs_merges_saved :
  map (fun p => (Providers.nameOf p, Obj.get "apiKey" p, Providers.enabledOf p))
      (Providers.getAvailableProviders
         (Providers.mkRegistry
            (Some (Providers.Raw (Js.dq
               "[{'name':'Mine','enabled':true},{'name':'OpenAI','apiKey':'k','enabled':true}]")))
            Providers.initialEnabled))
  = [ (Some (Json.JStr "Ollama"), None, Some (Json.JBool true));
      (Some (Json.JStr "OpenRouter"),
       Some (Json.JStr "sk-or-v1-(credential elided)"), Some (Json.JBool false));
      (Some (Json.JStr "OpenAI"), Some (Json.JStr "k"), Some (Json.JBool true));
      (Some (Json.JStr "Anthropic"), None, Some (Json.JBool false)) ].
Proof. vm_compute. reflexivity. Qed.

Example loadProviderConfigs_unparsable :
  map (fun p => (Providers.nameOf p, Providers.enabledOf p))
      (Providers.getAvailableProviders
         (Providers.mkRegistry (Some (Providers.Raw "{not json")) Providers.initialEnabled))
  = [ (Some (Json.JStr "Ollama"), Some (Json.JBool true));
      (Some (Json.JStr "OpenRouter"), Some (Json.JBool false));
      (Some (Json.JStr "OpenAI"), Some (Json.JBool false));
      (Some (Json.JStr "Anthropic"), Some (Json.JBool false)) ].
Proof. vm_compute. reflexivity. Qed.

(* ------------------------------------------------------------------ *)
(** * Further properties of the sources *)
(* ------------------------------------------------------------------ *)

(** ** The adapters' read loops *)

Module StreamFacts.
Import Js Json Providers Dispatcher JsFacts DispatcherFacts Streams.

Section Settled.
Variable step : LineStep.
Variable breaks idle : string -> bool.
Hypothesis step_breaks : forall line st, snd (step line st) = breaks line.
Hypothesis step_buffer : forall line st b,
  fst (step line (with_buffer b st)) = with_buffer b (fst (step line st)).
Hypothesis step_idle : forall line st, idle line = true -> fst (step line st) = st.

Lemma run_lines_idle : forall lines st,
  forallb idle lines = true -> run_lines step lines st = st.
Proof.
  induction lines as [|l lines IH]; intros st H; [reflexivity|].
  cbn [forallb] in H. apply andb_true_iff in H. destruct H as [Hl H].
  unfold run_lines in *. cbn [fold_left]. rewrite step_idle by exact Hl.
  now apply IH.
Qed.

(** Leaving the loop early skips nothing that would have counted. *)
Lemma for_lines_settled : forall lines st,
  settled breaks idle lines = true ->
  for_lines step lines st = run_lines step lines st.
Proof.
  induction lines as [|l lines IH]; intros st H; [reflexivity|].
  cbn [for_lines settled] in *. pose proof (step_breaks l st) as Hb.
  unfold run_lines. cbn [fold_left]. fold (run_lines step lines (fst (step l st))).
  destruct (step l st) as [st' brk]. cbn [fst snd] in *. subst brk.
  destruct (breaks l) eqn:E.
  - now rewrite run_lines_idle.
  - now apply IH.
Qed.

Lemma settled_app : forall l1 l2,
  settled breaks idle (l1 ++ l2) = true ->
  settled breaks idle l1 = true /\ settled breaks idle l2 = true.
Proof.
  induction l1 as [|l l1 IH]; intros l2 H; [auto|].
  cbn [app settled] in *. destruct (breaks l).
  - rewrite forallb_app in H. apply andb_true_iff in H. destruct H as [H1 H2].
    split; [exact H1|]. clear IH H1. induction l2 as [|x l2 IH2]; [reflexivity|].
    cbn [forallb settled] in *. apply andb_true_iff in H2. destruct H2 as [Hx H2].
    destruct (breaks x); auto.
  - now apply IH.
Qed.

Lemma feed_settled : forall cs st,
  lines_of (buffer st) = [] -> tail_of (buffer st) = buffer st ->
  settled breaks idle (lines_of (buffer st ++ concat_all cs)) = true ->
  feed step cs st
  = with_buffer (tail_of (buffer st ++ concat_all cs))
      (run_lines step (lines_of (buffer st ++ concat_all cs)) st).
Proof.
  induction cs as [|c cs IH]; intros st Hl Ht Hq.
  - simpl. rewrite append_nil_r, Hl, Ht. now destruct st.
  - simpl concat_all in *. simpl feed.
    rewrite <- append_assoc in Hq |- *.
    destruct (lines_append (buffer st ++ c) (concat_all cs)) as [E1 E2].
    rewrite E1 in Hq |- *. rewrite E2.
    apply settled_app in Hq. destruct Hq as (Hq1 & Hq2).
    unfold on_chunk. destruct (split_lines (buffer st ++ c)) as [S1 S2].
    rewrite S1, S2. rewrite for_lines_settled by exact Hq1.
    change (mkStream (fullText st) (tail_of (buffer st ++ c)) (calls st) (deltas st))
      with (with_buffer (tail_of (buffer st ++ c)) st).
    rewrite (run_lines_with_buffer step step_buffer).
    destruct (lines_tail (buffer st ++ c)) as [T1 T2].
    fold (feed step cs
            (with_buffer (tail_of (buffer st ++ c))
                         (run_lines step (lines_of (buffer st ++ c)) st))).
    rewrite IH; simpl buffer; auto.
    rewrite run_lines_app, (run_lines_with_buffer step step_buffer). reflexivity.
Qed.

(** Two ways of cutting one text into chunks are read alike. *)
Lemma read_all_chunking : forall cs1 cs2,
  concat_all cs1 = concat_all cs2 ->
  settled breaks idle (lines_of (concat_all cs1)) = true ->
  read_all step (mkBody cs1 None) = read_all step (mkBody cs2 None).
Proof.
  intros cs1 cs2 E H. unfold read_all. cbn [chunks].
  change (feed step cs1 (mkStream EmptyString EmptyString [] [])
          = feed step cs2 (mkStream EmptyString EmptyString [] [])).
  rewrite !feed_settled; cbn [buffer append]; rewrite <- ?E; auto.
Qed.

End Settled.

Lemma ollama_step_idle : forall onStream line st,
  ollama_idle line = true -> fst (ollama_line onStream line st) = st.
Proof.
  intros onStream line st H. unfold ollama_idle in H. unfold ollama_line.
  destruct (is_empty (trim line)); [reflexivity|].
  destruct (JSON.parse line); [|reflexivity].
  destruct (prop _ "done"); [|reflexivity].
  now rewrite H.
Qed.

Section Sse.
Variable on_data : json -> Stream -> Stream.
Hypothesis on_data_buffer : forall data st b,
  on_data data (with_buffer b st) = with_buffer b (on_data data st).

Lemma sse_step_breaks : forall line st,
  snd (sse_line on_data line st) = sse_breaks line.
Proof.
  intros line st. unfold sse_line, sse_breaks.
  destruct (is_empty (trim line)); [reflexivity|].
  destruct (startsWith line "data: "); [|reflexivity].
  destruct (String.eqb _ "[DONE]"); [reflexivity|].
  now destruct (JSON.parse _).
Qed.

Lemma sse_step_buffer : forall line st b,
  fst (sse_line on_data line (with_buffer b st))
  = with_buffer b (fst (sse_line on_data line st)).
Proof.
  intros line st b. unfold sse_line.
  destruct (is_empty (trim line)); [reflexivity|].
  destruct (startsWith line "data: "); [|reflexivity].
  destruct (String.eqb _ "[DONE]"); [reflexivity|].
  destruct (JSON.parse _); [|reflexivity]. cbn [fst]. apply on_data_buffer.
Qed.

Lemma sse_step_idle : forall line st,
  sse_idle line = true -> fst (sse_line on_data line st) = st.
Proof.
  intros line st H. unfold sse_idle in H. unfold sse_line.
  destruct (is_empty (trim line)); [reflexivity|].
  destruct (startsWith line "data: "); [|reflexivity].
  destruct (String.eqb _ "[DONE]"); [reflexivity|].
  destruct (JSON.parse _); [discriminate | reflexivity].
Qed.

Lemma sse_loop_settled : forall cs1 cs2,
  concat_all cs1 = concat_all cs2 ->
  settled sse_breaks sse_idle (lines_of (concat_all cs1)) = true ->
  read_all (sse_line on_data) (mkBody cs1 None)
  = read_all (sse_line on_data) (mkBody cs2 None).
Proof.
  apply (read_all_chunking (sse_line on_data) sse_breaks sse_idle
           sse_step_breaks sse_step_buffer sse_step_idle).
Qed.

End Sse.

Lemma openai_data_buffer : forall onStream data st b,
  openai_data onStream data (with_buffer b st)
  = with_buffer b (openai_data onStream data st).
Proof.
  intros. unfold openai_data. now destruct (prop (Some data) "choices").
Qed.

Lemma anthropic_data_buffer : forall onStream data st b,
  anthropic_data onStream data (with_buffer b st)
  = with_buffer b (anthropic_data onStream data st).
Proof.
  intros. unfold anthropic_data.
  destruct (prop (Some data) "type"); [|reflexivity].
  destruct (strict_eq _ _); [|reflexivity].
  now destruct (prop (Some data) "delta").
Qed.

Lemma emit_text : forall onStream content st,
  emit onStream content st = emit onStream (Some (JStr (str content))) st.
Proof. reflexivity. Qed.






Section Pieces.
Variable onStream : bool.
Variable step : LineStep.
Variable breaks : string -> bool.
Variable piece : string -> option string.
Hypothesis step_breaks : forall line st, snd (step line st) = breaks line.
Hypothesis step_piece : forall line st,
  breaks line = false ->
  fst (step line st)
  = match piece line with
    | Some p => emit onStream (Some (JStr p)) st
    | None => st
    end.
Hypothesis step_last : forall line st,
  breaks line = true -> fst (step line st) = st.




End Pieces.




End StreamFacts.



(** X2. The Ollama adapter does not depend on how the network cuts the
    response into chunks, as long as a [done] line is followed by idle lines
    only: two chunk sequences with the same text give the same result, the
    same callback invocations and the same request. *)
Theorem ollama_chunking :
  forall origin cs1 cs2 provider prompt systemInstruction onStream modelId,
    Js.concat_all cs1 = Js.concat_all cs2 ->
    Streams.settled Notions.ollama_breaks Streams.ollama_idle
                    (Dispatcher.lines_of (Js.concat_all cs1)) = true ->
    Dispatcher.generateOllamaResponse (Dispatcher.streaming origin cs1)
      provider prompt systemInstruction onStream modelId
    = Dispatcher.generateOllamaResponse (Dispatcher.streaming origin cs2)
        provider prompt systemInstruction onStream modelId.
Proof.
  intros origin cs1 cs2 provider prompt systemInstruction onStream modelId E H.
  unfold Dispatcher.generateOllamaResponse, Dispatcher.exchange,
    Dispatcher.streaming, Dispatcher.finish.
  cbn [Dispatcher.fetch Dispatcher.origin negb Dispatcher.read_error].
  rewrite (StreamFacts.read_all_chunking (Dispatcher.ollama_line onStream)
             Notions.ollama_breaks Streams.ollama_idle
             (DispatcherFacts.ollama_step_breaks onStream)
             (DispatcherFacts.ollama_step_buffer onStream)
             (StreamFacts.ollama_step_idle onStream) cs1 cs2 E H).
  reflexivity.
Qed.

Lemma ollama_chunking_witness :
  let cs1 := [ Js.dq "{'response': 'a'}" ++ Js.NL ++ Js.dq "{'done': true}"
               ++ Js.NL ++ Js.NL ] in
  let cs2 := [ Js.dq "{'respo"; Js.dq "nse': 'a'}" ++ Js.NL ++ Js.dq "{'done': ";
               Js.dq "true}" ++ Js.NL; Js.NL ] in
  Js.concat_all cs1 = Js.concat_all cs2
  /\ Dispatcher.generateOllamaResponse (Dispatcher.streaming "http://localhost:3001" cs1)
       (nth 0 Providers.DEFAULT_PROVIDERS []) "hi" "be brief" true None
     = Dispatcher.generateOllamaResponse (Dispatcher.streaming "http://localhost:3001" cs2)
         (nth 0 Providers.DEFAULT_PROVIDERS []) "hi" "be brief" true None.
Proof.
  intros cs1 cs2.
  assert (E : Js.concat_all cs1 = Js.concat_all cs2) by reflexivity.
  split; [exact E|].
  exact (ollama_chunking "http://localhost:3001" cs1 cs2
           (nth 0 Providers.DEFAULT_PROVIDERS []) "hi" "be brief" true None
           E eq_refl).
Defined.

(** X3. The OpenAI, OpenRouter and Anthropic adapters do not depend on how
    the network cuts the response into chunks, as long as the line
    [data: [DONE]] is followed by idle lines only (blank lines, as the event
    stream format has them). *)
Theorem sse_chunking :
  forall origin cs1 cs2 provider prompt systemInstruction onStream modelId,
    Js.concat_all cs1 = Js.concat_all cs2 ->
    Streams.settled Streams.sse_breaks Streams.sse_idle
                    (Dispatcher.lines_of (Js.concat_all cs1)) = true ->
    Dispatcher.generateOpenAIResponse (Dispatcher.streaming origin cs1)
      provider prompt systemInstruction onStream modelId
    = Dispatcher.generateOpenAIResponse (Dispatcher.streaming origin cs2)
        provider prompt systemInstruction onStream modelId
    /\ Dispatcher.generateOpenRouterResponse (Dispatcher.streaming origin cs1)
         provider prompt systemInstruction onStream modelId
       = Dispatcher.generateOpenRouterResponse (Dispatcher.streaming origin cs2)
           provider prompt systemInstruction onStream modelId
    /\ Dispatcher.generateAnthropicResponse (Dispatcher.streaming origin cs1)
         provider prompt systemInstruction onStream modelId
       = Dispatcher.generateAnthropicResponse (Dispatcher.streaming origin cs2)
           provider prompt systemInstruction onStream modelId.
Proof.
  intros origin cs1 cs2 provider prompt systemInstruction onStream modelId E H.
  unfold Dispatcher.generateOpenAIResponse, Dispatcher.generateOpenRouterResponse,
    Dispatcher.generateAnthropicResponse, Dispatcher.exchange,
    Dispatcher.streaming, Dispatcher.finish.
  cbn [Dispatcher.fetch Dispatcher.origin negb Dispatcher.read_error].
  rewrite (StreamFacts.sse_loop_settled (Dispatcher.openai_data onStream)
             (StreamFacts.openai_data_buffer onStream) cs1 cs2 E H).
  rewrite (StreamFacts.sse_loop_settled (Dispatcher.anthropic_data onStream)
             (StreamFacts.anthropic_data_buffer onStream) cs1 cs2 E H).
  repeat split; reflexivity.
Qed.

Lemma sse_chunking_witness :
  let text := Js.dq "data: {'choices':[{'delta':{'content':'Hel'}}]}" ++ Js.NL ++ Js.NL
              ++ Js.dq "data: {'choices':[{'delta':{'content':'lo'}}]}" ++ Js.NL ++ Js.NL
              ++ "data: [DONE]" ++ Js.NL ++ Js.NL in
  let cs2 := [ Js.take 20 text; Js.take 50 (Js.drop 20 text); Js.drop 70 text ] in
  let provider := Obj.set "apiKey" (Json.JStr "k") (nth 2 Providers.DEFAULT_PROVIDERS []) in
  Dispatcher.result
    (Dispatcher.generateOpenAIResponse (Dispatcher.streaming "http://localhost:3001" [text])
       provider "hi" "be brief" true None)
  = inl "Hello"
  /\ Dispatcher.generateOpenAIResponse (Dispatcher.streaming "http://localhost:3001" [text])
       provider "hi" "be brief" true None
     = Dispatcher.generateOpenAIResponse (Dispatcher.streaming "http://localhost:3001" cs2)
         provider "hi" "be brief" true None.
Proof.
  intros text cs2 provider. split; [reflexivity|].
  exact (proj1 (sse_chunking "http://localhost:3001" [text] cs2
                  provider "hi" "be brief" true None eq_refl eq_refl)).
Defined.

(** ** Errors inside the dispatcher *)

Module DispatchFacts.
Import Js Json Providers Dispatcher.

(** The adapter that [generateLocalResponse] runs for an active provider
    with a built-in name. *)
Lemma respond_named : forall w reg prompt systemInstruction onStream modelId
                             provider name m,
  getActiveProvider reg = Some provider ->
  nameOf provider = Some (JStr name) ->
  selectModel modelId provider = inl m ->
  (name = "Ollama" ->
   respond w reg prompt systemInstruction onStream modelId
   = generateOllamaResponse w provider prompt systemInstruction onStream m)
  /\ (name = "OpenAI" ->
      respond w reg prompt systemInstruction onStream modelId
      = generateOpenAIResponse w provider prompt systemInstruction onStream m)
  /\ (name = "Anthropic" ->
      respond w reg prompt systemInstruction onStream modelId
      = generateAnthropicResponse w provider prompt systemInstruction onStream m)
  /\ (name = "OpenRouter" ->
      respond w reg prompt systemInstruction onStream modelId
      = generateOpenRouterResponse w provider prompt systemInstruction onStream m).
Proof.
  intros w reg prompt systemInstruction onStream modelId provider name m
         Ha Hn Hm.
  unfold respond. rewrite Ha, Hm. unfold nameOf in Hn. rewrite Hn.
  repeat split; intros ->; reflexivity.
Qed.

End DispatchFacts.

(** X4. When the active provider is OpenAI, Anthropic or OpenRouter and its
    record holds no API key, [generateLocalResponse] answers with the text
    ["Error: <name> API key not configured. Please check your provider
    configuration."]; it sends no request and never invokes the callback. *)
Theorem missing_key_reported :
  forall w reg prompt systemInstruction onStream modelId provider name m,
    Providers.getActiveProvider reg = Some provider ->
    Providers.nameOf provider = Some (Json.JStr name) ->
    In name ["OpenAI"; "Anthropic"; "OpenRouter"] ->
    Json.truthy (Obj.get "apiKey" provider) = false ->
    Dispatcher.selectModel modelId provider = inl m ->
    let reply := Dispatcher.generateLocalResponse
                   w reg prompt systemInstruction onStream modelId in
    Dispatcher.result reply
    = inl ("Error: " ++ name ++ " API key not configured"
           ++ ". Please check your provider configuration.")
    /\ Dispatcher.sent reply = []
    /\ Dispatcher.observed reply = [].
Proof.
  intros w reg prompt systemInstruction onStream modelId provider name m
         Ha Hn Hin Hk Hm reply.
  destruct (DispatchFacts.respond_named w reg prompt systemInstruction onStream
              modelId provider name m Ha Hn Hm) as (_ & H2 & H3 & H4).
  subst reply. unfold Dispatcher.generateLocalResponse.
  destruct Hin as [<-|[<-|[<-|[]]]];
    [rewrite (H2 eq_refl) | rewrite (H3 eq_refl) | rewrite (H4 eq_refl)];
    unfold Dispatcher.generateOpenAIResponse, Dispatcher.generateAnthropicResponse,
      Dispatcher.generateOpenRouterResponse;
    rewrite Hk; repeat split; reflexivity.
Qed.

Lemma missing_key_reported_witness :
  let reg := Providers.setActiveProvider true "Anthropic" Providers.initial in
  let reply := Dispatcher.generateLocalResponse
                 (Dispatcher.streaming "http://localhost:3001" [])
                 reg "hi" "be brief" true None in
  Dispatcher.result reply
  = inl "Error: Anthropic API key not configured. Please check your provider configuration."
  /\ Dispatcher.sent reply = [].
Proof.
  intros reg reply.
  destruct (Providers.getActiveProvider reg) as [provider|] eqn:Ha;
    [|discriminate Ha].
  pose proof (missing_key_reported
                (Dispatcher.streaming "http://localhost:3001" [])
                reg "hi" "be brief" true None provider "Anthropic"
                (Some (Json.JStr "claude-3-5-sonnet-20241022")) Ha) as H.
  assert (Hp : Some provider = Providers.getActiveProvider reg) by (now rewrite Ha).
  vm_compute in Hp. injection Hp as ->.
  destruct H as (H1 & H2 & _); try reflexivity.
  - simpl. tauto.
  - split; [exact H1 | exact H2].
Defined.





(** ** The provider registry *)

Module RegistryFacts.
Import Json Providers ObjFacts ProvidersFacts.

Lemma find_filter_nil : forall (B : Type) (f : B -> bool) l,
  filter f l = [] -> find f l = None.
Proof.
  intros B f. induction l as [|x l IH]; simpl; intros H; [reflexivity|].
  destruct (f x); [discriminate | now apply IH].
Qed.

Lemma find_filter_hd : forall (B : Type) (f : B -> bool) l,
  find f l = hd_error (filter f l).
Proof.
  intros B f. induction l as [|x l IH]; simpl; [reflexivity|].
  now destruct (f x).
Qed.

Lemma wf_storage_selections : forall (ns : list (bool * string)) reg,
  wf_storage reg = true ->
  wf_storage (fold_left (fun r s => setActiveProvider (fst s) (snd s) r) ns reg)
  = true.
Proof.
  induction ns as [|n ns IH]; intros reg H; [exact H|].
  simpl. apply IH. now apply wf_storage_select.
Qed.

(** *** What a load is made of *)

Lemma merge_overlays : forall reg l ds i rs,
  wf (JArr l) = true ->
  (forall d, In d ds -> exists n, nameOf d = Some (JStr n)) ->
  (forall j, j < List.length ds ->
             nth (i + j) (defaultObjects reg) [] = nth j ds []) ->
  merge_defaults (JArr l) i ds = Some rs ->
  Forall2 (fun d p =>
             p = d
             \/ exists o, In (JObj o) l /\ NoDup (Obj.keys o)
                          /\ nameOf o = nameOf d /\ p = Obj.assign d o)
          ds (map (deref reg) rs).
Proof.
  intros reg l. induction ds as [|d ds IH]; intros i rs Hwf Hnames Hnth H.
  - simpl in H. injection H as <-. constructor.
  - cbn [merge_defaults] in H.
    destruct (find_by_name (Obj.get "name" d) l) as [savedProvider|] eqn:Hf;
      [|discriminate].
    destruct (merge_defaults (JArr l) (S i) ds) as [rs'|] eqn:Hm; [|discriminate].
    injection H as <-. cbn [map]. constructor.
    + destruct (Hnames d (or_introl eq_refl)) as (n & Hn).
      fold (nameOf d) in Hf. rewrite Hn in Hf.
      destruct (truthy savedProvider) eqn:Ht.
      * destruct savedProvider as [p|]; [|discriminate].
        destruct (find_by_name_found _ _ _ Hf) as (Hin & o & -> & Ho).
        right. exists o. repeat split; auto.
        -- eapply wf_element; eauto.
        -- unfold nameOf in *. congruence.
      * left. cbn [deref]. specialize (Hnth 0 (Nat.lt_0_succ _)).
        now rewrite Nat.add_0_r in Hnth.
    + apply (IH (S i) rs' Hwf).
      * intros d' Hd'. apply Hnames. now right.
      * intros j Hj. specialize (Hnth (S j)). simpl in Hnth.
        rewrite Nat.add_succ_r in Hnth. apply Hnth. lia.
      * exact Hm.
Qed.

Lemma Forall2_same : forall (B : Type) (R : B -> B -> Prop) l,
  (forall x, R x x) -> Forall2 R l l.
Proof. intros B R l H. induction l; constructor; auto. Qed.

Lemma load_overlays : forall reg,
  wf_storage reg = true ->
  Forall2 (fun d p =>
             p = d
             \/ exists o, In (JObj o) (RegistryTerms.stored_records reg)
                          /\ NoDup (Obj.keys o)
                          /\ nameOf o = nameOf d /\ p = Obj.assign d o)
          (defaultObjects reg) (getAvailableProviders reg).
Proof.
  intros reg Hwf. unfold getAvailableProviders, loadProviderConfigs,
    RegistryTerms.stored_records.
  unfold wf_storage in Hwf.
  assert (Hdef : forall (P : ProviderConfig -> ProviderConfig -> Prop),
            Forall2 (fun d p => p = d \/ P d p) (defaultObjects reg)
                    (map (deref reg) (allDefaults reg))).
  { intros P. rewrite allDefaults_deref. apply Forall2_same. auto. }
  destruct (storage reg) as [saved|]; [|apply (Hdef (fun _ _ => _))].
  destruct (text_truthy saved); [|apply (Hdef (fun _ _ => _))].
  destruct (parse_text saved) as [parsed|]; [|apply (Hdef (fun _ _ => _))].
  destruct (merge_defaults parsed 0 (defaultObjects reg)) as [rs|] eqn:Hm.
  - destruct parsed as [| | | |l|]; try (simpl in Hm; discriminate Hm).
    apply (merge_overlays reg l (defaultObjects reg) 0 rs Hwf
             (defaults_named reg) (fun j _ => eq_refl) Hm).
  - destruct parsed; apply (Hdef (fun _ _ => _)).
Qed.

(** *** Fields other than [enabled] *)

Lemma withEnabled_field : forall k l i flags,
  k <> "enabled" ->
  map (Obj.get k) (withEnabled i flags l) = map (Obj.get k) l.
Proof.
  intros k. induction l as [|o l IH]; intros i flags Hk; [reflexivity|].
  cbn [withEnabled map]. rewrite IH by exact Hk. f_equal.
  apply get_set_other. congruence.
Qed.

Lemma defaults_field : forall k reg,
  k <> "enabled" ->
  map (Obj.get k) (defaultObjects reg) = map (Obj.get k) DEFAULT_PROVIDERS.
Proof. intros. now apply withEnabled_field. Qed.

Lemma deref_field : forall k reg reg' r,
  k <> "enabled" -> Obj.get k (deref reg r) = Obj.get k (deref reg' r).
Proof.
  intros k reg reg' [i|o] Hk; [|reflexivity]. cbn [deref].
  rewrite <- !(map_nth (@Obj.get json k)). now rewrite !defaults_field.
Qed.

Lemma enable_only_fields : forall k providerName rs reg configs reg',
  k <> "enabled" ->
  enable_only providerName rs reg = (configs, reg') ->
  map (Obj.get k) configs = map (fun r => Obj.get k (deref reg r)) rs.
Proof.
  intros k X. induction rs as [|r rs IH]; intros reg configs reg' Hk H.
  - simpl in H. injection H as <- _. reflexivity.
  - cbn [enable_only] in H. cbv zeta in H.
    match type of H with
    | context [enable_only X rs ?reg1] =>
        destruct (enable_only X rs reg1) as [ps reg2] eqn:Hrec;
        pose proof (IH reg1 _ _ Hk Hrec) as Hps
    end.
    injection H as <- _. cbn [map]. f_equal.
    + apply get_set_other. congruence.
    + rewrite Hps. apply map_ext. intros r'. now apply deref_field.
Qed.

Lemma merged_get : forall k (ds cs : list ProviderConfig),
  Forall (fun c => NoDup (Obj.keys c)) cs ->
  Forall2 (fun a b => b = None -> a = None)
          (map (Obj.get k) ds) (map (Obj.get k) cs) ->
  map (fun dc => Obj.get k (Obj.assign (fst dc) (snd dc))) (combine ds cs)
  = map (Obj.get k) cs.
Proof.
  intros k. induction ds as [|d ds IH]; intros [|c cs] Hnd H;
    cbn [map] in H; inversion H; subst; [reflexivity|].
  inversion Hnd; subst. cbn [combine map fst snd]. f_equal.
  - rewrite get_assign by assumption.
    destruct (Obj.get k c) eqn:E; [reflexivity|]. auto.
  - now apply IH.
Qed.

Lemma Forall2_map : forall (B C D E : Type) (R : D -> E -> Prop)
                           (f : B -> D) (g : C -> E) l1 l2,
  Forall2 (fun x y => R (f x) (g y)) l1 l2 -> Forall2 R (map f l1) (map g l2).
Proof. intros. induction H; cbn [map]; constructor; auto. Qed.

Lemma Forall2_impl : forall (B C : Type) (R S : B -> C -> Prop) l1 l2,
  (forall x y, R x y -> S x y) -> Forall2 R l1 l2 -> Forall2 S l1 l2.
Proof. intros B C R S l1 l2 H F. induction F; constructor; auto. Qed.

Lemma load_covers : forall k reg,
  wf_storage reg = true ->
  Forall2 (fun a b => b = None -> a = None)
          (map (Obj.get k) (defaultObjects reg))
          (map (Obj.get k) (getAvailableProviders reg)).
Proof.
  intros k reg Hwf. apply Forall2_map.
  refine (Forall2_impl _ _ _ _ _ _ _ (load_overlays reg Hwf)).
  intros d p H E. destruct H as [-> | (o & _ & Hnd & _ & ->)]; [exact E|].
  rewrite get_assign in E by exact Hnd. now destruct (Obj.get k o).
Qed.

(** The fields other than [enabled] that a load returns do not depend on
    the flags of the built-in objects. *)
Lemma merge_fields : forall k reg reg' parsed ds ds' i,
  k <> "enabled" ->
  wf parsed = true ->
  map nameOf ds = map nameOf ds' ->
  map (Obj.get k) ds = map (Obj.get k) ds' ->
  (forall d, In d ds -> exists n, nameOf d = Some (JStr n)) ->
  match merge_defaults parsed i ds, merge_defaults parsed i ds' with
  | Some rs, Some rs' =>
      map (fun r => Obj.get k (deref reg r)) rs
      = map (fun r => Obj.get k (deref reg' r)) rs'
  | None, None => True
  | _, _ => False
  end.
Proof.
  intros k reg reg' parsed. induction ds as [|d ds IH];
    intros [|d' ds'] i Hk Hwf Hn Hf Hnamed; try discriminate; [reflexivity|].
  cbn [map] in Hn, Hf. injection Hn as Hd Hn. injection Hf as Hfd Hf.
  cbn [merge_defaults]. destruct parsed as [| | | |l|]; try exact I.
  fold (nameOf d) (nameOf d'). rewrite <- Hd.
  destruct (Hnamed d (or_introl eq_refl)) as (n & Hdn). rewrite Hdn.
  destruct (find_by_name (Some (JStr n)) l) as [savedProvider|] eqn:Hfind;
    [|exact I].
  specialize (IH ds' (S i) Hk Hwf Hn Hf (fun d0 H0 => Hnamed d0 (or_intror H0))).
  destruct (merge_defaults (JArr l) (S i) ds) as [rs|];
    destruct (merge_defaults (JArr l) (S i) ds') as [rs'|]; try exact IH.
  cbn [map]. f_equal; [|exact IH].
  destruct (truthy savedProvider) eqn:Ht.
  - destruct savedProvider as [p|]; [|discriminate].
    destruct (find_by_name_found _ _ _ Hfind) as (Hin & o & -> & _).
    cbn [deref own_props].
    rewrite !get_assign by (eapply wf_element; eauto).
    now rewrite Hfd.
  - now apply deref_field.
Qed.

Lemma load_fields : forall k reg reg',
  k <> "enabled" ->
  wf_storage reg = true ->
  storage reg' = storage reg ->
  map (Obj.get k) (getAvailableProviders reg')
  = map (Obj.get k) (getAvailableProviders reg).
Proof.
  intros k reg reg' Hk Hwf Hst.
  assert (Hdef : map (Obj.get k) (map (deref reg') (allDefaults reg'))
                 = map (Obj.get k) (map (deref reg) (allDefaults reg))).
  { now rewrite !allDefaults_deref, !defaults_field. }
  unfold getAvailableProviders, loadProviderConfigs. rewrite Hst.
  unfold wf_storage in Hwf.
  destruct (storage reg) as [saved|]; [|exact Hdef].
  destruct (text_truthy saved); [|exact Hdef].
  destruct (parse_text saved) as [parsed|]; [|exact Hdef].
  pose proof (merge_fields k reg' reg parsed (defaultObjects reg')
                (defaultObjects reg) 0 Hk Hwf) as H.
  rewrite !defaults_names, !defaults_field in H by exact Hk.
  specialize (H eq_refl eq_refl (defaults_named reg')).
  destruct (merge_defaults parsed 0 (defaultObjects reg')) as [rs'|];
    destruct (merge_defaults parsed 0 (defaultObjects reg)) as [rs|];
    try contradiction; [|exact Hdef].
  now rewrite !map_map.
Qed.

(** What a load returns after a selection whose write went through. *)
Lemma select_providers : forall providerName reg flags,
  wf_storage reg = true ->
  exists configs reg',
    enable_only providerName (loadProviderConfigs reg) reg = (configs, reg')
    /\ Forall (fun c => NoDup (Obj.keys c)) configs
    /\ getAvailableProviders
         (mkRegistry (storage (setActiveProvider true providerName reg)) flags)
       = map (fun dc => Obj.assign (fst dc) (snd dc))
             (combine (defaultObjects (mkRegistry None flags))
                      (map written_props configs)).
Proof.
  intros X reg flags Hwf. unfold setActiveProvider.
  destruct (enable_only X (loadProviderConfigs reg) reg) as [configs reg'] eqn:E.
  exists configs, reg'. split; [reflexivity|].
  destruct (enable_only_configs X _ reg configs reg' (load_proper reg Hwf) E)
    as (Hn & He & Hd').
  assert (Hd : Forall (fun c => NoDup (Obj.keys c)) configs).
  { apply Forall_forall. intros c Hc. rewrite forallb_forall in Hd'.
    apply wf_NoDup. now apply Hd'. }
  split; [exact Hd|].
  rewrite (load_refNames reg Hwf) in Hn.
  set (saved := map written_props configs).
  assert (Hn' : map nameOf saved = names) by now apply written_names.
  assert (Hnamed : forall c, In c saved ->
            In c saved /\ exists n, nameOf c = Some (JStr n)).
  { intros c Hc. split; [exact Hc|]. apply (in_map nameOf) in Hc.
    rewrite Hn' in Hc. apply in_map_iff in Hc. destruct Hc as (n & Hc & _). eauto. }
  unfold getAvailableProviders, loadProviderConfigs.
  cbn [saveProviderConfigs storage text_truthy parse_text].
  rewrite written_configs. fold saved.
  rewrite (merge_saved saved _ saved 0)
    by (rewrite ?Hn', ?defaults_names; auto using names_NoDup).
  rewrite map_map. reflexivity.
Qed.

Lemma registry_eta : forall reg,
  mkRegistry (storage reg) (enabledDefaults reg) = reg.
Proof. now intros []. Qed.

End RegistryFacts.

(** X7. Selecting a name that is not a built-in provider's disables every
    provider: once the write has gone through, at every later load no
    provider is active, the model list is empty, and
    [generateLocalResponse] answers ["No AI provider configured. Please
    check your settings."] without sending a request. *)
Theorem unknown_provider_disables_all :
  forall reg X flags w prompt systemInstruction onStream modelId,
    Providers.wf_storage reg = true ->
    ~ In X Providers.defaultNames ->
    let reg' := Providers.mkRegistry
                  (Providers.storage (Providers.setActiveProvider true X reg))
                  flags in
    let reply := Dispatcher.generateLocalResponse
                   w reg' prompt systemInstruction onStream modelId in
    Providers.getActiveProvider reg' = None
    /\ Providers.getAvailableModels reg' = Some (Json.JArr [])
    /\ Dispatcher.result reply
       = inl "No AI provider configured. Please check your settings."
    /\ Dispatcher.sent reply = [].
Proof.
  intros reg X flags w prompt systemInstruction onStream modelId Hwf HX reg' reply.
  assert (Hnone : Providers.getActiveProvider reg' = None).
  { unfold Providers.getActiveProvider. apply RegistryFacts.find_filter_nil.
    pose proof (ProvidersFacts.enabled_names _ _
                  (ProvidersFacts.load_after_select X reg flags Hwf)) as H.
    fold reg' in H.
    assert (Hf : forall n, In n Providers.defaultNames -> String.eqb n X = false).
    { intros n Hn. apply String.eqb_neq. intros ->. contradiction. }
    cbn [Providers.defaultNames map filter snd Json.truthy] in H.
    rewrite !Hf in H by (simpl; tauto). cbn [map] in H.
    now apply map_eq_nil in H. }
  subst reply. unfold Providers.getAvailableModels, Dispatcher.generateLocalResponse,
    Dispatcher.respond.
  rewrite Hnone. repeat split; reflexivity.
Qed.

Lemma unknown_provider_disables_all_witness :
  Providers.getActiveProvider
    (Providers.mkRegistry
       (Providers.storage
          (Providers.setActiveProvider true "Mistral" Providers.initial))
       Providers.initialEnabled)
  = None.
Proof.
  refine (proj1 (unknown_provider_disables_all Providers.initial "Mistral"
                   Providers.initialEnabled
                   (Dispatcher.streaming "http://localhost:3001" [])
                   "hi" "be brief" false None eq_refl _)).
  simpl. intuition discriminate.
Defined.

(** X8. After any sequence of selections the last one decides: whatever
    names were selected before and whether or not their writes went
    through, once a built-in name [X] is selected and written, every later
    load returns the four built-in providers with [enabled] true for [X]
    alone, and [X] is the active provider. *)
Theorem last_selection_wins :
  forall reg (earlier : list (bool * string)) X flags,
    Providers.wf_storage reg = true ->
    In X Providers.defaultNames ->
    let before :=
      fold_left (fun r s => Providers.setActiveProvider (fst s) (snd s) r)
                earlier reg in
    let reg' := Providers.mkRegistry
                  (Providers.storage (Providers.setActiveProvider true X before))
                  flags in
    map (fun p => (Providers.nameOf p, Providers.enabledOf p))
        (Providers.getAvailableProviders reg')
    = map (fun n => (Some (Json.JStr n), Some (Json.JBool (String.eqb n X))))
          Providers.defaultNames
    /\ option_map Providers.nameOf (Providers.getActiveProvider reg')
       = Some (Some (Json.JStr X)).
Proof.
  intros reg earlier X flags Hwf HX before reg'.
  pose proof (RegistryFacts.wf_storage_selections earlier reg Hwf) as Hwf'.
  fold before in Hwf'.
  pose proof (ProvidersFacts.load_after_select X before flags Hwf') as H.
  fold reg' in H. split; [exact H|].
  unfold Providers.getActiveProvider. rewrite RegistryFacts.find_filter_hd.
  pose proof (ProvidersFacts.enabled_names _ _ H) as Hn.
  match type of Hn with
  | map _ ?F = _ =>
      change (option_map Providers.nameOf (hd_error F) = Some (Some (Json.JStr X)))
  end.
  destruct (filter _ (Providers.getAvailableProviders _)) as [|p ps];
    destruct HX as [<-|[<-|[<-|[<-|[]]]]]; cbn in Hn; try discriminate;
    injection Hn as Hp _; cbn [hd_error option_map]; f_equal; exact Hp.
Qed.

Lemma last_selection_wins_witness :
  let before :=
    fold_left (fun r s => Providers.setActiveProvider (fst s) (snd s) r)
              [(true, "Anthropic"); (false, "Mistral")] Providers.initial in
  option_map Providers.nameOf
    (Providers.getActiveProvider
       (Providers.mkRegistry
          (Providers.storage (Providers.setActiveProvider true "OpenAI" before))
          Providers.initialEnabled))
  = Some (Some (Json.JStr "OpenAI")).
Proof.
  refine (proj2 (last_selection_wins Providers.initial
                   [(true, "Anthropic"); (false, "Mistral")]
                   "OpenAI" Providers.initialEnabled eq_refl _)).
  simpl. tauto.
Defined.

(** X9. A selection changes nothing but the [enabled] flags.  For every
    other field, the providers of every later load carry the values they
    carried before: unchanged when the write was refused, and as
    [JSON.stringify] and [JSON.parse] hand them on when it went through,
    which is the same value except that a stored number beyond the double
    range, read as infinite, comes back as [null]. *)
Theorem selection_keeps_fields : forall accepted reg X k flags,
  Providers.wf_storage reg = true ->
  k <> "enabled" ->
  map (Obj.get k)
      (Providers.getAvailableProviders
         (Providers.mkRegistry
            (Providers.storage (Providers.setActiveProvider accepted X reg))
            flags))
  = map (fun p => option_map (fun v => if accepted then Json.written v else v)
                             (Obj.get k p))
        (Providers.getAvailableProviders reg).
Proof.
  intros accepted reg X k flags Hwf Hk. destruct accepted.
  - destruct (RegistryFacts.select_providers X reg flags Hwf)
      as (configs & reg' & E & Hd & ->).
    pose proof (RegistryFacts.enable_only_fields k X _ _ _ _ Hk E) as Hc.
    rewrite <- (map_map (Providers.deref reg) (Obj.get k)) in Hc.
    change (map (Providers.deref reg) (Providers.loadProviderConfigs reg))
      with (Providers.getAvailableProviders reg) in Hc.
    assert (Hs : map (Obj.get k) (map Json.written_props configs)
                 = map (fun p => option_map Json.written (Obj.get k p))
                       (Providers.getAvailableProviders reg)).
    { transitivity (map (option_map Json.written) (map (Obj.get k) configs)).
      - rewrite !map_map. apply map_ext. intros c.
        apply ProvidersFacts.get_written.
      - transitivity (map (option_map Json.written)
                          (map (Obj.get k) (Providers.getAvailableProviders reg))).
        + exact (f_equal (map (option_map Json.written)) Hc).
        + apply map_map. }
    rewrite map_map, RegistryFacts.merged_get; [exact Hs | |].
    + apply Forall_forall. intros c Hc'. apply in_map_iff in Hc'.
      destruct Hc' as (c0 & <- & Hc0). rewrite ProvidersFacts.keys_written.
      rewrite Forall_forall in Hd. now apply Hd.
    + rewrite Hs, RegistryFacts.defaults_field by exact Hk.
      rewrite <- (RegistryFacts.defaults_field k reg Hk).
      rewrite <- (map_map (Obj.get k) (option_map Json.written)).
      pose proof (RegistryFacts.load_covers k reg Hwf) as Hcov.
      induction Hcov as [|a b la lb Hab _ IH]; cbn [map]; constructor;
        [|exact IH].
      intros Hb. apply Hab. now destruct b.
  - transitivity (map (Obj.get k) (Providers.getAvailableProviders reg)).
    + apply (RegistryFacts.load_fields k reg _ Hk Hwf).
      cbn [Providers.storage]. unfold Providers.setActiveProvider.
      pose proof (ProvidersFacts.enable_only_storage X
                    (Providers.loadProviderConfigs reg) reg) as Hst.
      destruct (Providers.enable_only X (Providers.loadProviderConfigs reg) reg)
        as [configs reg'].
      exact Hst.
    + apply map_ext. intros p. now destruct (Obj.get k p).
Qed.

Lemma selection_keeps_fields_witness :
  let reg := Providers.mkRegistry
               (Some (Providers.Raw (Js.dq
                  "[{'name':'OpenAI','apiKey':'k','limit':1e400,'enabled':true}]")))
               Providers.initialEnabled in
  map (Obj.get "apiKey")
      (Providers.getAvailableProviders
         (Providers.mkRegistry
            (Providers.storage (Providers.setActiveProvider true "Ollama" reg))
            Providers.initialEnabled))
  = [ None; Some (Json.JStr "sk-or-v1-(credential elided)");
      Some (Json.JStr "k"); None ]
  /\ map (Obj.get "limit")
         (Providers.getAvailableProviders
            (Providers.mkRegistry
               (Providers.storage (Providers.setActiveProvider true "Ollama" reg))
               Providers.initialEnabled))
     = [ None; None; Some Json.JNull; None ].
Proof.
  intros reg.
  assert (Hk : "apiKey" <> "enabled") by discriminate.
  assert (Hl : "limit" <> "enabled") by discriminate.
  split.
  - exact (selection_keeps_fields true reg "Ollama" "apiKey"
             Providers.initialEnabled eq_refl Hk).
  - exact (selection_keeps_fields true reg "Ollama" "limit"
             Providers.initialEnabled eq_refl Hl).
Defined.

(** X10. Every provider a load returns is the built-in object of its
    position, as it currently is, or that object overlaid with a stored
    record of the same name: the record's fields win and the fields it lacks
    are the built-in ones. *)
Theorem load_overlays_stored : forall reg,
  Providers.wf_storage reg = true ->
  Forall2 (RegistryTerms.overlays reg)
          (Providers.defaultObjects reg) (Providers.getAvailableProviders reg).
Proof.
  intros reg Hwf.
  refine (RegistryFacts.Forall2_impl _ _ _ _ _ _ _
            (RegistryFacts.load_overlays reg Hwf)).
  intros d p [-> | (o & Hin & Hnd & Hn & ->)]; [now left|].
  right. exists o. repeat split; auto.
  intros k. now apply ObjFacts.get_assign.
Qed.

Lemma load_overlays_stored_witness :
  let reg := Providers.mkRegistry
               (Some (Providers.Raw (Js.dq
                  "[{'name':'OpenAI','apiKey':'k','enabled':true}]")))
               Providers.initialEnabled in
  Providers.wf_storage reg = true
  /\ Forall2 (RegistryTerms.overlays reg)
             (Providers.defaultObjects reg) (Providers.getAvailableProviders reg).
Proof.
  intros reg. assert (H : Providers.wf_storage reg = true) by reflexivity.
  split; [exact H | exact (load_overlays_stored reg H)].
Defined.

(** ** File extraction *)

Module ExtractFacts.
Import Js Regex JsFacts RegexFacts LocalInference.

Lemma search_none : forall r s skipped,
  (forall u1 u2, s = u1 ++ u2 -> match_here r u2 = None) ->
  search r skipped s = None.
Proof.
  intros r. induction s as [|a s IH]; intros skipped H; cbn [search].
  - now rewrite (H EmptyString EmptyString eq_refl).
  - rewrite (H EmptyString (String a s) eq_refl). apply IH.
    intros u1 u2 E. apply (H (String a u1) u2). simpl. now rewrite E.
Qed.

Lemma exec_all_none : forall r s,
  (forall u1 u2, s = u1 ++ u2 -> match_here r u2 = None) ->
  exec_all r s = [].
Proof.
  intros r s H. unfold exec_all. cbn [exec_loop]. now rewrite search_none.
Qed.

(** An expression that opens with a literal matches only where the
    literal stands. *)
Lemma match_here_Lit : forall P r s,
  startsWith s P = false -> match_here (Seq (Lit P) r) s = None.
Proof.
  intros P r s H. unfold match_here. rewrite m_Seq, m_Lit. now rewrite H.
Qed.

Lemma m_LitCI_fail : forall (A : Type) P s c (k : kont A),
  startsWith (toLowerCase s) (toLowerCase P) = false ->
  m (LitCI P) s c k = None.
Proof.
  intros A. induction P as [|a P IH]; intros s c k H; [discriminate|].
  destruct P as [|b P].
  - cbn [LitCI]. destruct s as [|x s]; [apply m_Chr_nil|].
    rewrite m_Chr_cons. rewrite Ascii.eqb_sym.
    cbn [toLowerCase map_chars startsWith] in H. rewrite andb_true_r in H.
    now rewrite H.
  - change (LitCI (String a (String b P)))
      with (Seq (Chr (fun y => Ascii.eqb (lower y) (lower a))) (LitCI (String b P))).
    rewrite m_Seq. destruct s as [|x s]; [apply m_Chr_nil|].
    rewrite m_Chr_cons. rewrite (Ascii.eqb_sym (lower x)).
    destruct (Ascii.eqb (lower a) (lower x)) eqn:E; [|reflexivity].
    apply IH.
    change (toLowerCase (String x s)) with (String (lower x) (toLowerCase s)) in H.
    change (toLowerCase (String a (String b P)))
      with (String (lower a) (toLowerCase (String b P))) in H.
    change (startsWith (String (lower x) (toLowerCase s))
                       (String (lower a) (toLowerCase (String b P))))
      with (Ascii.eqb (lower a) (lower x)
            && startsWith (toLowerCase s) (toLowerCase (String b P))) in H.
    now rewrite E in H.
Qed.

Lemma match_here_LitCI : forall P r s,
  startsWith (toLowerCase s) (toLowerCase P) = false ->
  match_here (Seq (LitCI P) r) s = None.
Proof.
  intros P r s H. unfold match_here. rewrite m_Seq. now apply m_LitCI_fail.
Qed.

Lemma toLowerCase_append : forall u1 u2,
  toLowerCase (u1 ++ u2) = toLowerCase u1 ++ toLowerCase u2.
Proof.
  induction u1 as [|a u1 IH]; intros u2; [reflexivity|].
  cbn [append toLowerCase map_chars]. f_equal. apply IH.
Qed.

End ExtractFacts.

(** X11. A text that holds neither the opening of a [[FILE: ...]]
    directive (in any letter case) nor a code fence yields no file:
    [extractFiles] returns the empty map. *)
Theorem extractFiles_plain_text : forall text,
  Js.includes (Js.toLowerCase text) "[file:" = false ->
  Js.includes text "```" = false ->
  LocalInference.extractFiles text = [].
Proof.
  intros text Hfile Hfence.
  unfold LocalInference.extractFiles, LocalInference.extractCodeBlocks.
  rewrite (ExtractFacts.exec_all_none LocalInference.fileRegex).
  - rewrite (ExtractFacts.exec_all_none LocalInference.codeBlockRegex);
      [reflexivity|].
    intros u1 u2 ->. apply ExtractFacts.match_here_Lit.
    now apply (JsFacts.includes_suffix u1).
  - intros u1 u2 ->. apply (ExtractFacts.match_here_LitCI "[FILE:").
    rewrite ExtractFacts.toLowerCase_append in Hfile.
    now apply (JsFacts.includes_suffix (Js.toLowerCase u1)).
Qed.

Lemma extractFiles_plain_text_witness :
  LocalInference.extractFiles "Use a [link](https://example.org) and `code`." = [].
Proof. apply extractFiles_plain_text; reflexivity. Defined.

(** X12. A reply that holds neither ["[CREATE:"] nor ["[MODIFY:"] triggers
    no file operation: [processAICodeActions] issues none. *)
Theorem processAICodeActions_plain_text : forall aiResponse,
  Js.includes aiResponse "[CREATE:" = false ->
  Js.includes aiResponse "[MODIFY:" = false ->
  Store.processAICodeActions aiResponse = [].
Proof.
  intros aiResponse Hc Hm. unfold Store.processAICodeActions.
  rewrite (ExtractFacts.exec_all_none Store.createRegex),
          (ExtractFacts.exec_all_none Store.modifyRegex); [reflexivity| |].
  - intros u1 u2 ->. apply (ExtractFacts.match_here_Lit "[MODIFY:").
    now apply (JsFacts.includes_suffix u1).
  - intros u1 u2 ->. apply (ExtractFacts.match_here_Lit "[CREATE:").
    now apply (JsFacts.includes_suffix u1).
Qed.

Lemma processAICodeActions_plain_text_witness :
  Store.processAICodeActions "I would create [a file] for that: CREATE it." = [].
Proof. apply processAICodeActions_plain_text; reflexivity. Defined.

Module ExtractMore.
Import Js Regex JsFacts LocalInference.

Lemma trimEnd_idempotent : forall s, trimEnd (trimEnd s) = trimEnd s.
Proof.
  induction s as [|c s IH]; [reflexivity|]. cbn [trimEnd].
  destruct (trimEnd s) as [|b t] eqn:E.
  - destruct (is_space c) eqn:Hc; [reflexivity|]. cbn [trimEnd]. now rewrite Hc.
  - cbn [trimEnd]. cbn [trimEnd] in IH. rewrite IH. reflexivity.
Qed.

Lemma trimEnd_head : forall a s,
  is_space a = false -> exists s', trimEnd (String a s) = String a s'.
Proof.
  intros a s H. cbn [trimEnd]. destruct (trimEnd s); [rewrite H|]; eauto.
Qed.

Lemma trim_idempotent : forall s, trim (trim s) = trim s.
Proof.
  intros s. unfold trim. pose proof (trimStart_stops s) as H.
  destruct (trimStart s) as [|a t]; [reflexivity|].
  apply negb_true_iff in H. destruct (trimEnd_head a t H) as (s' & E).
  rewrite E. cbn [trimStart]. rewrite H, <- E. apply trimEnd_idempotent.
Qed.

Section Assign.
Variable A : Type.

Lemma In_assign : forall (source target : Obj.t A) e,
  In e (Obj.assign target source) -> In e target \/ In e source.
Proof.
  unfold Obj.assign. induction source as [|[k v] source IH]; intros target e H.
  - now left.
  - cbn [fold_left fst snd] in H. apply IH in H. destruct H as [H | H].
    + apply ObjFacts.In_set in H. destruct H as [H | ->]; [now left|].
      right. now left.
    + right. now right.
Qed.

End Assign.

Lemma In_assign_entry : forall k v e (o : FileMap),
  In e (assign_entry k v o) -> In e o \/ e = (k, v).
Proof.
  intros k v e o H. unfold assign_entry in H.
  destruct (String.eqb k "__proto__"); [now left|].
  now apply ObjFacts.In_set.
Qed.

Lemma NoDup_assign_entry : forall k v (o : FileMap),
  NoDup (Obj.keys o) -> NoDup (Obj.keys (assign_entry k v o)).
Proof.
  intros k v o H. unfold assign_entry.
  destruct (String.eqb k "__proto__"); [exact H|].
  now apply ObjFacts.NoDup_set.
Qed.

(** What every entry written by the two loops satisfies. *)
Lemma files_loop_all : forall (P : string -> string -> Prop),
  (forall filename content,
     P (ensureProperExtension (trim filename) (trim content)) (trim content)) ->
  forall ms acc,
    (forall k c, In (k, c) acc -> P k c) ->
    forall k c, In (k, c) (files_loop ms acc) -> P k c.
Proof.
  intros P HP. induction ms as [|x ms IH]; intros acc Hacc k c H; [auto|].
  cbn [files_loop] in H. cbv zeta in H. apply (IH _) in H; [exact H|].
  intros k' c' H'. apply ObjFacts.In_set in H'. destruct H' as [H' | E]; [auto|].
  injection E as -> ->. apply HP.
Qed.

Lemma codeBlocks_loop_all : forall (P : string -> Prop),
  (forall content,
     negb (is_empty (trim content)) && (10 <? String.length (trim content))%nat
     = true -> P (trim content)) ->
  forall ms blockIndex acc,
    (forall k c, In (k, c) acc -> P c) ->
    forall k c, In (k, c) (codeBlocks_loop ms blockIndex acc) -> P c.
Proof.
  intros P HP. induction ms as [|x ms IH]; intros blockIndex acc Hacc k c H;
    [eauto|].
  cbn [codeBlocks_loop] in H. cbv zeta in H.
  destruct (negb (is_empty (trim (group_or_empty 2 (groups x))))
            && (10 <? String.length (trim (group_or_empty 2 (groups x))))%nat)
    eqn:E.
  - apply (IH _ _) in H; [exact H|].
    intros k' c' H'. apply In_assign_entry in H'. destruct H' as [H' | E'];
      [eauto|]. injection E' as _ ->. now apply HP.
  - apply (IH _ _) in H; [exact H | exact Hacc].
Qed.

Lemma files_loop_nonempty : forall ms acc,
  (ms <> [] \/ acc <> []) -> files_loop ms acc <> [].
Proof.
  induction ms as [|x ms IH]; intros acc H.
  - destruct H as [H | H]; [congruence | exact H].
  - cbn [files_loop]. cbv zeta. apply IH. right.
    intros E. pose proof (ObjFacts.get_set_same _
      (ensureProperExtension (trim (group_or_empty 1 (groups x)))
                             (trim (group_or_empty 2 (groups x))))
      (trim (group_or_empty 2 (groups x))) acc) as G.
    rewrite E in G. discriminate.
Qed.

End ExtractMore.

(** X13. Every content that [extractFiles] returns is trimmed: it has no
    white space at either end, whether it comes from a [[FILE: ...]]
    directive or from a code fence. *)
Theorem extractFiles_contents_trimmed : forall text k c,
  In (k, c) (LocalInference.extractFiles text) -> Js.trim c = c.
Proof.
  intros text k c H. unfold LocalInference.extractFiles in H.
  assert (Hfiles : forall k c,
            In (k, c) (LocalInference.files_loop
                         (Regex.exec_all LocalInference.fileRegex text) []) ->
            Js.trim c = c).
  { apply (ExtractMore.files_loop_all (fun _ c => Js.trim c = c)).
    - intros. apply ExtractMore.trim_idempotent.
    - intros ? ? []. }
  cbv zeta in H.
  destruct (Nat.eqb _ 0); [|now apply (Hfiles k c)].
  apply ExtractMore.In_assign in H. destruct H as [H | H]; [now apply (Hfiles k c)|].
  revert k c H. unfold LocalInference.extractCodeBlocks.
  apply (ExtractMore.codeBlocks_loop_all (fun c => Js.trim c = c)).
  - intros. apply ExtractMore.trim_idempotent.
  - intros ? ? [].
Qed.

Lemma extractFiles_contents_trimmed_witness :
  let text := "[FILE: a.txt]" ++ Js.NL ++ "  hello  " ++ Js.NL ++ "[/FILE]" in
  In ("a.txt", "hello") (LocalInference.extractFiles text)
  /\ Js.trim "hello" = "hello".
Proof.
  intros text.
  assert (H : In ("a.txt", "hello") (LocalInference.extractFiles text)).
  { vm_compute. left. reflexivity. }
  split; [exact H | exact (extractFiles_contents_trimmed text _ _ H)].
Defined.

(** X14. The code-fence fallback never stores an empty or very short block:
    every content returned by [extractCodeBlocks] is longer than ten
    characters. *)
Theorem extractCodeBlocks_min_length : forall text k c,
  In (k, c) (LocalInference.extractCodeBlocks text) ->
  10 < String.length c.
Proof.
  intros text k c. unfold LocalInference.extractCodeBlocks. revert k c.
  apply (ExtractMore.codeBlocks_loop_all (fun c => 10 < String.length c)).
  - intros content H. apply andb_true_iff in H. destruct H as [_ H].
    now apply Nat.ltb_lt in H.
  - intros ? ? [].
Qed.

Lemma extractCodeBlocks_min_length_witness :
  let text := "```js" ++ Js.NL ++ "const total = 1;" ++ Js.NL ++ "```" ++ Js.NL
              ++ "```js" ++ Js.NL ++ "x = 1" ++ Js.NL ++ "```" in
  LocalInference.extractCodeBlocks text = [("script1.js", "const total = 1;")]
  /\ 10 < String.length "const total = 1;".
Proof.
  intros text.
  assert (H : In ("script1.js", "const total = 1;")
                 (LocalInference.extractCodeBlocks text)).
  { vm_compute. left. reflexivity. }
  split; [reflexivity | exact (extractCodeBlocks_min_length text _ _ H)].
Defined.

(** X15. When [extractFiles] recognises at least one [[FILE: ...]]
    directive, every name it returns carries an extension that suits its
    content: the directive path normalises its names with
    [ensureProperExtension] (and the code-fence fallback is not used). *)
Theorem extractFiles_directive_names : forall text k c,
  Regex.exec_all LocalInference.fileRegex text <> [] ->
  In (k, c) (LocalInference.extractFiles text) ->
  LocalInference.consistent k c = true.
Proof.
  intros text k c Hms H. unfold LocalInference.extractFiles in H. cbv zeta in H.
  pose proof (ExtractMore.files_loop_nonempty _ [] (or_introl Hms)) as Hne.
  destruct (LocalInference.files_loop _ []) as [|e files] eqn:E; [congruence|].
  cbn [Obj.keys map List.length Nat.eqb] in H. rewrite <- E in H.
  revert k c H.
  apply (ExtractMore.files_loop_all
           (fun k c => LocalInference.consistent k c = true)).
  - intros. apply StoreFacts.ensureProperExtension_consistent.
  - intros ? ? [].
Qed.

Lemma extractFiles_directive_names_witness :
  let text := "[FILE: notes]" ++ Js.NL ++ "const x = 1;" ++ Js.NL ++ "[/FILE]" in
  In ("notes.js", "const x = 1;") (LocalInference.extractFiles text)
  /\ LocalInference.consistent "notes.js" "const x = 1;" = true.
Proof.
  intros text.
  assert (Hms : Regex.exec_all LocalInference.fileRegex text <> [])
    by (vm_compute; discriminate).
  assert (H : In ("notes.js", "const x = 1;") (LocalInference.extractFiles text)).
  { vm_compute. left. reflexivity. }
  split; [exact H | exact (extractFiles_directive_names text _ _ Hms H)].
Defined.

(** ** Agent mode *)

Module AgentFacts.
Import Js Regex LocalInference.

Lemma files_loop_NoDup : forall ms acc,
  NoDup (Obj.keys acc) -> NoDup (Obj.keys (files_loop ms acc)).
Proof.
  induction ms as [|x ms IH]; intros acc H; [exact H|].
  cbn [files_loop]. cbv zeta. apply IH. now apply ObjFacts.NoDup_set.
Qed.

Lemma codeBlocks_loop_NoDup : forall ms blockIndex acc,
  NoDup (Obj.keys acc) -> NoDup (Obj.keys (codeBlocks_loop ms blockIndex acc)).
Proof.
  induction ms as [|x ms IH]; intros blockIndex acc H; [exact H|].
  cbn [codeBlocks_loop]. cbv zeta.
  destruct (negb _ && _); apply IH;
    [now apply ExtractMore.NoDup_assign_entry | exact H].
Qed.

(** The map that [extractFiles] returns is a proper object. *)
Lemma extractFiles_NoDup : forall text, NoDup (Obj.keys (extractFiles text)).
Proof.
  intros text. unfold extractFiles. cbv zeta.
  assert (H : NoDup (Obj.keys (files_loop (exec_all fileRegex text) []))).
  { apply files_loop_NoDup. constructor. }
  destruct (Nat.eqb _ 0); [|exact H]. now apply ObjFacts.NoDup_assign.
Qed.

End AgentFacts.

(** X16. Agent mode merges the extracted files over the session's files:
    a path that was extracted gets the extracted content, every other path
    keeps what it had (no file is dropped); exactly one assistant message,
    holding the model's output, is appended; and when nothing was extracted
    the files and the active file are left as they were. *)
Theorem handleAgentMode_merges : forall codeOutput now st,
  let st' := fst (Store.handleAgentMode codeOutput now st) in
  let patches := LocalInference.extractFiles codeOutput in
  (forall k, Obj.get k (Store.files st')
             = match Obj.get k patches with
               | Some c => Some c
               | None => Obj.get k (Store.files st)
               end)
  /\ Store.messages st'
     = (Store.messages st ++ [Store.reply now Store.agent codeOutput])%list
  /\ (patches = [] ->
      Store.files st' = Store.files st
      /\ Store.activeFile st' = Store.activeFile st).
Proof.
  intros codeOutput now st. cbv zeta. unfold Store.handleAgentMode. cbv zeta.
  pose proof (AgentFacts.extractFiles_NoDup codeOutput) as Hnd.
  set (patches := LocalInference.extractFiles codeOutput) in *. clearbody patches.
  destruct patches as [|e patches'].
  - cbn. repeat split; reflexivity.
  - cbn [Obj.keys map List.length Nat.ltb Nat.leb].
    cbn [fst Store.files Store.messages Store.activeFile Store.add_message
         Store.log Store.set_activeFile Store.set_files].
    repeat split; try discriminate.
    intros k. now apply ObjFacts.get_assign.
Qed.

(** ** Framework detection *)

(** X17. The two copies of [detectFramework] classify alike except for
    fastify: the store's copy returns the type the distiller's copy returns,
    or [vanilla] where that one says [fastify]; and whenever the store's copy
    finds a framework, both report the same version (the version string of
    the dependency that decided). *)
Theorem detectFramework_copies_agree : forall files,
  Framework.type (Store.detectFramework files)
  = match Framework.type (Framework.detectFramework files) with
    | Framework.fastify => Framework.vanilla
    | t => t
    end
  /\ (Framework.type (Store.detectFramework files) <> Framework.vanilla ->
      Framework.version (Store.detectFramework files)
      = Framework.version (Framework.detectFramework files)).
Proof.
  intros files.
  unfold Store.detectFramework, Framework.detectFramework,
    Framework.manifestDependencies.
  destruct (Obj.get "package.json" files) as [packageJson|];
    [|split; [reflexivity | intros H; now contradiction H]].
  destruct (Js.is_empty packageJson);
    [split; [reflexivity | intros H; now contradiction H]|].
  destruct (JSON.parse packageJson) as [pkg|];
    [|split; [reflexivity | intros H; now contradiction H]].
  destruct (Framework.mergedDependencies pkg) as [deps|];
    [|split; [reflexivity | intros H; now contradiction H]].
  cbv zeta.
  repeat match goal with
         | |- context [if ?b then _ else _] => destruct b
         end;
    (split; [reflexivity | intros H; try reflexivity; now contradiction H]).
Qed.

(** ** The context distiller *)

Module DistillerFacts.
Import Json Distiller.

Lemma own_props_or_else : forall v,
  own_props (or_else v (Some (JObj []))) = own_props v.
Proof.
  intros v. unfold or_else. destruct (truthy v) eqn:E; [reflexivity|].
  destruct v as [[| | | | |]|]; simpl in *; try reflexivity; try discriminate.
  now destruct s.
Qed.

Lemma get_assign_set : forall k source t1 t2,
  k <> "__proto__" ->
  Obj.get k t1 = Obj.get k t2 ->
  Obj.get k (assign_set t1 source) = Obj.get k (Obj.assign t2 source).
Proof.
  intros k. unfold assign_set, Obj.assign.
  induction source as [|[k' v] source IH]; intros t1 t2 Hk H; [exact H|].
  cbn [filter fold_left fst snd].
  assert (Hset : forall x (a b : Obj.t json),
            Obj.get k a = Obj.get k b ->
            Obj.get k (Obj.set x v a) = Obj.get k (Obj.set x v b)).
  { intros x a b Hab. destruct (String.eqb x k) eqn:E.
    - apply String.eqb_eq in E. subst x. now rewrite !ObjFacts.get_set_same.
    - apply String.eqb_neq in E. now rewrite !ObjFacts.get_set_other. }
  destruct (String.eqb k' "__proto__") eqn:E; cbn [negb fold_left fst snd].
  - apply String.eqb_eq in E. subst k'. apply IH; [exact Hk|].
    rewrite ObjFacts.get_set_other by congruence. exact H.
  - apply IH; [exact Hk|]. now apply Hset.
Qed.

End DistillerFacts.

(** X18. The dependency table of the distilled context and the table the
    framework detector consults agree on every package: for every name
    other than [__proto__], [extractDependencies] holds what the merged
    lookup of [detectFramework] holds (a development dependency overriding a
    runtime one), and both are empty when the manifest is missing, empty or
    malformed. *)
Theorem extractDependencies_agrees : forall files,
  (forall k, k <> "__proto__" ->
     Obj.get k (Distiller.extractDependencies files)
     = Obj.get k (Framework.manifestDependencies files))
  /\ ((Obj.get "package.json" files = None
       \/ Obj.get "package.json" files = Some EmptyString
       \/ exists packageJson,
            Obj.get "package.json" files = Some packageJson
            /\ JSON.parse packageJson = None) ->
      Distiller.extractDependencies files = []
      /\ Framework.manifestDependencies files = []).
Proof.
  intros files. split.
  - intros k Hk.
    unfold Distiller.extractDependencies, Framework.manifestDependencies,
      Framework.mergedDependencies.
    destruct (Obj.get "package.json" files) as [packageJson|]; [|reflexivity].
    destruct (Js.is_empty packageJson); [reflexivity|].
    destruct (JSON.parse packageJson) as [pkg|]; [|reflexivity].
    destruct (Json.prop (Some pkg) "dependencies") as [d|]; [|reflexivity].
    destruct (Json.prop (Some pkg) "devDependencies") as [dd|]; [|reflexivity].
    cbv zeta. rewrite !DistillerFacts.own_props_or_else.
    apply DistillerFacts.get_assign_set; [exact Hk|].
    now apply DistillerFacts.get_assign_set.
  - unfold Distiller.extractDependencies, Framework.manifestDependencies.
    intros [-> | [-> | (packageJson & -> & Hp)]]; [now split | now split |].
    rewrite Hp. now destruct (Js.is_empty packageJson).
Qed.

Lemma extractDependencies_agrees_witness :
  let files := Notions.manifest
    "{'dependencies': {'react': '18.0.0'}, 'devDependencies': {'react': '19.0.0', 'vite': '5'}}" in
  let broken := [("package.json", "{dependencies: ")] in
  (Obj.get "react" (Distiller.extractDependencies files) = Some (Json.JStr "19.0.0")
   /\ Obj.get "react" (Distiller.extractDependencies files)
      = Obj.get "react" (Framework.manifestDependencies files))
  /\ (JSON.parse "{dependencies: " = None
      /\ Distiller.extractDependencies broken = []
      /\ Framework.manifestDependencies broken = []).
Proof.
  intros files broken.
  assert (Hk : "react" <> "__proto__") by discriminate.
  split; [split; [reflexivity|] | split; [reflexivity|]].
  - exact (proj1 (extractDependencies_agrees files) "react" Hk).
  - refine (proj2 (extractDependencies_agrees broken) _).
    right. right. exists "{dependencies: ". split; reflexivity.
Defined.

(** X19. [getRelevantFileContents] raises a [TypeError] exactly when the
    active file's extension is [constructor] or [__proto__] (the lookup in
    the extension table then finds an inherited object, not an array) and
    the project holds another file; in every other case it returns a text. *)
Theorem getRelevantFileContents_raises : forall files activeFile,
  let ext := Js.toLowerCase (Js.last_segment "." activeFile) in
  (exists e, Distiller.getRelevantFileContents files activeFile = inr e)
  <-> ((ext = "constructor" \/ ext = "__proto__")
       /\ exists filename content,
            In (filename, content) files /\ filename <> activeFile).
Proof.
  intros files activeFile ext.
  unfold Distiller.getRelevantFileContents, Distiller.getRelatedExtensions.
  fold ext. cbv zeta.
  assert (Hother :
    existsb (fun e => negb (String.eqb (fst e) activeFile)) files = true
    <-> exists filename content,
          In (filename, content) files /\ filename <> activeFile).
  { rewrite existsb_exists. split.
    - intros ([f c] & Hin & Hne). exists f, c. split; [exact Hin|].
      apply negb_true_iff in Hne. now apply String.eqb_neq in Hne.
    - intros (f & c & Hin & Hne). exists (f, c). split; [exact Hin|].
      apply negb_true_iff. now apply String.eqb_neq. }
  destruct (Obj.get ext Distiller.extensionMap) as [l|] eqn:Hmap.
  - split; [intros (e & H); discriminate|].
    intros ([-> | ->] & _); discriminate Hmap.
  - destruct (String.eqb ext "constructor" || String.eqb ext "__proto__") eqn:E.
    + apply orb_true_iff in E. rewrite !String.eqb_eq in E.
      destruct (existsb _ files) eqn:Ex.
      * split; [intros _; split; [exact E | now apply Hother] | eauto].
      * split; [intros (e & H); discriminate|].
        intros (_ & H). apply Hother in H. discriminate.
    + split; [intros (e & H); discriminate|].
      apply orb_false_iff in E. rewrite !String.eqb_neq in E.
      intros ([H | H] & _); tauto.
Qed.

Example getRelevantFileContents_inherited :
  Distiller.getRelevantFileContents
    [("notes.constructor", "x"); ("index.html", "<html></html>")]
    "notes.constructor"
  = inr (Dispatcher.TypeError "relatedExtensions.includes is not a function").
Proof. reflexivity. Qed.

Example getRelevantFileContents_related :
  Distiller.getRelevantFileContents
    [("index.html", "<html></html>"); ("styles.css", "body {}");
     ("README.md", "# Notes"); ("package.json", "{}")]
    "index.html"
  = inl ("package.json: {}" ++ Js.NL ++ Js.NL ++ "styles.css:" ++ Js.NL ++ "body {}").
Proof. reflexivity. Qed.

(** ** The store's file map *)

Module FileMapFacts.
Import Js LocalInference Store StoreTerms.

(** A normalised name is a fixed point of the normalisation and holds a
    dot. *)
Lemma normalised_name : forall filename content,
  let name := ensureProperExtension filename content in
  ensureProperExtension name content = name /\ has_char "." name = true.
Proof.
  intros filename content name. subst name.
  destruct (ExtensionFacts.ensureProperExtension_shape filename content)
    as [(Hsame & Hdot & Hvalid) | (b & Hb)].
  - rewrite Hsame. split; [exact Hsame|]. now rewrite <- JsFacts.includes_char.
  - rewrite Hb. split; [apply ExtensionFacts.ensureProperExtension_appended|].
    change (b ++ "." ++ detectContentType content)
      with (b ++ String "." (detectContentType content)).
    rewrite JsFacts.has_char_append. cbn [has_char].
    rewrite Ascii.eqb_refl. cbn [orb]. apply orb_true_r.
Qed.

Lemma digits_value_dot : forall s acc,
  has_char "." s = true -> Obj.digits_value s acc = None.
Proof.
  induction s as [|c s IH]; intros acc H; [discriminate|].
  cbn [has_char] in H. cbn [Obj.digits_value].
  destruct (Ascii.eqb c ".") eqn:E.
  - apply Ascii.eqb_eq in E. subst c. reflexivity.
  - destruct (is_digit c); [|reflexivity]. apply IH. exact H.
Qed.

Lemma dot_not_index : forall k,
  has_char "." k = true -> Obj.array_index k = None.
Proof.
  intros k H. unfold Obj.array_index. destruct k as [|c s]; [reflexivity|].
  destruct (Ascii.eqb c "0" && negb (is_empty s)); [reflexivity|].
  now rewrite digits_value_dot.
Qed.

Lemma validate_all : forall (P : string -> string -> Prop),
  (forall filename content, P (ensureProperExtension filename content) content) ->
  forall newFiles acc,
    (forall k c, In (k, c) acc -> P k c) ->
    forall k c, In (k, c) (validate acc newFiles) -> P k c.
Proof.
  intros P HP. unfold validate.
  induction newFiles as [|[k0 c0] newFiles IH]; intros acc Hacc k c H; [auto|].
  cbn [fold_left fst snd] in H. apply (IH _) in H; [exact H|].
  intros k' c' H'. apply ObjFacts.In_set in H'. destruct H' as [H' | E]; [auto|].
  injection E as -> ->. apply HP.
Qed.

Lemma validate_NoDup : forall newFiles acc,
  NoDup (Obj.keys acc) -> NoDup (Obj.keys (validate acc newFiles)).
Proof.
  unfold validate. induction newFiles as [|e newFiles IH]; intros acc H; [exact H|].
  cbn [fold_left]. apply IH. now apply ObjFacts.NoDup_set.
Qed.

(** Validating a map of normalised names rebuilds it entry by entry. *)
Lemma validate_rebuild : forall (m2 m1 : FileMap),
  NoDup (Obj.keys (m1 ++ m2)%list) ->
  (forall k c, In (k, c) m2 ->
     ensureProperExtension k c = k /\ has_char "." k = true) ->
  validate m1 m2 = (m1 ++ m2)%list.
Proof.
  unfold validate. induction m2 as [|[k c] m2 IH]; intros m1 Hnd H.
  - now rewrite app_nil_r.
  - cbn [fold_left fst snd].
    destruct (H k c (or_introl eq_refl)) as (Hfix & Hdot).
    rewrite StoreFacts.ensureProperFilename_eq, Hfix.
    assert (Hset : Obj.set k c m1 = (m1 ++ [(k, c)])%list).
    { unfold Obj.set, Obj.has.
      assert (Hget : Obj.get k m1 = None).
      { apply ObjFacts.get_None_keys. unfold Obj.keys in *.
        rewrite map_app in Hnd. cbn [map fst] in Hnd.
        apply NoDup_remove_2 in Hnd. intros Hin. apply Hnd.
        apply in_or_app. now left. }
      rewrite Hget. now rewrite dot_not_index. }
    rewrite Hset. rewrite IH.
    + now rewrite <- app_assoc.
    + now rewrite <- app_assoc.
    + intros k' c' H'. apply H. now right.
Qed.

End FileMapFacts.

(** X20. [setFiles] is idempotent: writing back the file map that a call
    of [setFiles] has just stored, as a map or through an updater that
    returns the current map, leaves the whole state as it is (same names,
    same contents, same order). *)
Theorem setFiles_idempotent : forall updater st,
  let st1 := Store.setFiles updater st in
  Store.setFiles (inl (Store.files st1)) st1 = st1 /\
  Store.setFiles (inr (fun prev => prev)) st1 = st1.
Proof.
  intros updater st st1.
  assert (H : StoreTerms.validate [] (Store.files st1) = Store.files st1).
  { subst st1. unfold Store.setFiles. cbn [Store.files Store.set_files].
    set (newFiles := match updater with inl m => m | inr f => f (Store.files st) end).
    fold (StoreTerms.validate [] newFiles).
    rewrite FileMapFacts.validate_rebuild; [reflexivity| |].
    - cbn [app]. apply FileMapFacts.validate_NoDup. constructor.
    - intros k c Hin.
      apply (FileMapFacts.validate_all
               (fun k c => LocalInference.ensureProperExtension k c = k /\
                           Js.has_char "." k = true)) with (acc := []) (newFiles := newFiles).
      + intros filename content. apply FileMapFacts.normalised_name.
      + intros ? ? [].
      + exact Hin. }
  assert (E : Store.setFiles (inl (Store.files st1)) st1 = st1).
  { unfold Store.setFiles. fold (StoreTerms.validate [] (Store.files st1)).
    rewrite H. now destruct st1. }
  split; [exact E|exact E].
Qed.

(** ** [[FILE: ...]] blocks *)

Module FileDirectiveFacts.
Import Js Regex JsFacts RegexFacts LocalInference FileDirectives.

Lemma name_char_visible : forall a, name_char a = true -> is_space a = false.
Proof.
  intros a. destruct a as [[] [] [] [] [] [] [] []]; vm_compute; congruence.
Qed.

Lemma trimEnd_name : forall s, all name_char s = true -> trimEnd s = s.
Proof.
  induction s as [|a s IH]; [reflexivity|]. cbn [all]. intros H.
  apply andb_true_iff in H. destruct H as [Ha Hs]. cbn [trimEnd].
  rewrite (IH Hs). destruct s; [|reflexivity].
  now rewrite (name_char_visible _ Ha).
Qed.

Lemma trim_name : forall s, all name_char s = true -> trim s = s.
Proof.
  intros s H. unfold trim. destruct s as [|a s]; [reflexivity|].
  pose proof H as H'. cbn [all] in H'. apply andb_true_iff in H'.
  destruct H' as [Ha _].
  cbn [trimStart]. rewrite (name_char_visible _ Ha). now apply trimEnd_name.
Qed.

Lemma trim_blank : forall s, all is_space s = true -> trim s = EmptyString.
Proof.
  intros s H. unfold trim.
  assert (E : trimStart s = EmptyString).
  { induction s as [|a s IH]; [reflexivity|]. cbn [all] in H.
    apply andb_true_iff in H. destruct H as [Ha Hs]. cbn [trimStart].
    rewrite Ha. now apply IH. }
  now rewrite E.
Qed.

Lemma m_LitCI_append : forall (A : Type) P (k : kont A) s c,
  m (LitCI P) (P ++ s) c k = k P s c.
Proof.
  intros A. induction P as [|a P IH]; intros k s c; [reflexivity|].
  destruct P as [|b P].
  - cbn [LitCI append]. rewrite m_Chr_cons. cbv beta.
    now rewrite Ascii.eqb_refl.
  - change (LitCI (String a (String b P)))
      with (Seq (Chr (fun y => Ascii.eqb (lower y) (lower a)))
                (LitCI (String b P))).
    change (String a (String b P) ++ s) with (String a (String b P ++ s)).
    rewrite m_Seq, m_Chr_cons. cbv beta. rewrite Ascii.eqb_refl, IH.
    reflexivity.
Qed.

(** A pattern without line feed does not start inside a text that does not
    hold it, whatever follows the line feed after the text. *)
Lemma no_start_inside : forall Q u1 u2 t,
  has_char nl Q = false -> is_empty Q = false ->
  includes (u1 ++ u2) Q = false ->
  startsWith (u2 ++ String nl t) Q = false.
Proof.
  intros Q u1 u2 t HQ Hne H. rewrite startsWith_before_newline by assumption.
  now apply (includes_suffix u1).
Qed.

Lemma no_start_inside_ci : forall Q u1 u2 t,
  has_char nl Q = false -> is_empty Q = false ->
  includes (toLowerCase (u1 ++ u2)) Q = false ->
  startsWith (toLowerCase (u2 ++ String nl t)) Q = false.
Proof.
  intros Q u1 u2 t HQ Hne H.
  rewrite ExtractFacts.toLowerCase_append in *.
  change (toLowerCase (String nl t)) with (String nl (toLowerCase t)).
  now apply (no_start_inside Q (toLowerCase u1)).
Qed.

(** The three ways a block's content ends. *)
Abbreviation closers :=
  (Alt (Seq (Opt (Lit NL)) (Lit "```"))
       (Alt (Seq (Opt (Lit NL)) (LitCI "[/FILE]")) Eos)).

Lemma m_Opt_NL : forall (A : Type) (k : kont A) b v c,
  m (Opt (Lit NL)) (String b v) c k
  = match (if Ascii.eqb nl b then k (String b EmptyString) v c else None) with
    | Some x => Some x
    | None => k EmptyString (String b v) c
    end.
Proof. intros. unfold Opt. rewrite m_Alt, m_Eps. reflexivity. Qed.

Lemma closers_reject : forall (A : Type) (k : kont A) b v c,
  startsWith (String b v) "```" = false ->
  startsWith v "```" = false ->
  startsWith (toLowerCase (String b v)) "[/file]" = false ->
  startsWith (toLowerCase v) "[/file]" = false ->
  m closers (String b v) c k = None.
Proof.
  intros A k b v c H1 H2 H3 H4.
  rewrite m_Alt, m_Seq, m_Opt_NL, !m_Lit, H1, H2.
  rewrite m_Alt, m_Seq, m_Opt_NL.
  rewrite !(ExtractFacts.m_LitCI_fail A "[/FILE]") by assumption.
  rewrite m_Eos_cons. now destruct (Ascii.eqb nl b).
Qed.

Lemma closers_accept : forall (A : Type) (k : kont A) rest c x,
  k "[/FILE]" rest c = Some x ->
  m closers ("[/FILE]" ++ rest) c k = Some x.
Proof.
  intros A k rest c x Hk.
  change ("[/FILE]" ++ rest) with (String "[" ("/FILE]" ++ rest)).
  rewrite m_Alt, m_Seq, m_Opt_NL.
  change (Ascii.eqb nl "[") with false. cbv iota.
  rewrite m_Lit.
  change (startsWith (String "[" ("/FILE]" ++ rest)) "```") with false. cbv iota.
  rewrite m_Alt, m_Seq, m_Opt_NL.
  change (Ascii.eqb nl "[") with false. cbv iota.
  change (String "[" ("/FILE]" ++ rest)) with ("[/FILE]" ++ rest).
  rewrite m_LitCI_append. cbn [append]. now rewrite Hk.
Qed.

Lemma closers_accept_nl : forall (A : Type) (k : kont A) rest c x,
  k (NL ++ "[/FILE]") rest c = Some x ->
  m closers ((NL ++ "[/FILE]") ++ rest) c k = Some x.
Proof.
  intros A k rest c x Hk.
  change ((NL ++ "[/FILE]") ++ rest) with (String nl ("[/FILE]" ++ rest)).
  rewrite m_Alt, m_Seq, m_Opt_NL. rewrite Ascii.eqb_refl.
  rewrite !m_Lit.
  change (startsWith ("[/FILE]" ++ rest) "```") with false. cbv iota.
  change (startsWith (String nl ("[/FILE]" ++ rest)) "```") with false. cbv iota.
  rewrite m_Alt, m_Seq, m_Opt_NL. rewrite Ascii.eqb_refl.
  rewrite m_LitCI_append. unfold NL in *. cbn [append] in *. now rewrite Hk.
Qed.

Lemma closers_accept_fence : forall (A : Type) (k : kont A) rest c x,
  k (NL ++ "```") rest c = Some x ->
  m closers ((NL ++ "```") ++ rest) c k = Some x.
Proof.
  intros A k rest c x Hk.
  change ((NL ++ "```") ++ rest) with (String nl ("```" ++ rest)).
  rewrite m_Alt, m_Seq, m_Opt_NL. rewrite Ascii.eqb_refl.
  rewrite DirectiveFacts.m_Lit_append.
  unfold NL in *. cbn [append] in *. now rewrite Hk.
Qed.

(** The content group stops where the block is closed. *)
Lemma content_match : forall u closing rest c0,
  u = EmptyString \/ (exists t, closing = String nl t) ->
  (forall (A : Type) (k : kont A) c x,
     k closing rest c = Some x -> m closers (closing ++ rest) c k = Some x) ->
  includes u "```" = false ->
  includes (toLowerCase u) "[/file]" = false ->
  forall (A : Type) (k : kont A) x,
    k (u ++ closing) rest ((2, u) :: c0) = Some x ->
    m (Seq (Group 2 (Star false (Chr any))) closers)
      (u ++ closing ++ rest) c0 k = Some x.
Proof.
  intros u closing rest c0 Hpre Hacc Hf Hc A k x Hk.
  rewrite m_Seq, m_Group, m_star_lazy_chr.
  apply lazy_first.
  - reflexivity.
  - intros u1 b u2 E. cbv beta.
    destruct Hpre as [-> | (t & ->)]; [destruct u1; discriminate|].
    change (String b u2 ++ String nl t ++ rest)
      with (String b (u2 ++ String nl (t ++ rest))).
    subst u. apply closers_reject.
    + apply (no_start_inside "```" u1 (String b u2)); auto.
    + apply (no_start_inside "```" (u1 ++ String b EmptyString) u2); auto.
      now rewrite append_cons.
    + apply (no_start_inside_ci "[/file]" u1 (String b u2)); auto.
    + apply (no_start_inside_ci "[/file]" (u1 ++ String b EmptyString) u2); auto.
      now rewrite append_cons.
  - cbv beta. cbn [append]. apply Hacc. exact Hk.
Qed.

Lemma includes_tail : forall u1 u2 Q,
  includes (u1 ++ u2) Q = false -> includes u2 Q = false.
Proof.
  induction u1 as [|a u1 IH]; intros u2 Q H; [exact H|].
  cbn [append includes] in H. apply orb_false_iff in H. now apply IH.
Qed.

(** The head of a block, up to the closing bracket of the name. *)
Lemma head_match : forall R a q s,
  name_char a = true -> all name_char q = true ->
  forall (A : Type) (k : kont A) c x,
    m R s ((1, String a q) :: c)
      (fun t s' c' => k ("[FILE: " ++ String a q ++ "]" ++ t) s' c') = Some x ->
    m (Seq (LitCI "[FILE:")
         (Seq (Star true (Chr space))
            (Seq (Group 1 (Plus true (Chr name_char))) (Seq (Lit "]") R))))
      ("[FILE:" ++ String " " (String a (q ++ "]" ++ s))) c k = Some x.
Proof.
  intros R a q s Ha Hq A k c x Hk.
  rewrite m_Seq, m_LitCI_append.
  rewrite m_Seq, m_star_greedy_chr.
  change (String " " (String a (q ++ "]" ++ s)))
    with (" " ++ String a (q ++ "]" ++ s)).
  apply greedy_success;
    [reflexivity
    | cbn [stops]; unfold space; now rewrite (name_char_visible _ Ha) |].
  rewrite m_Seq, m_Group. unfold Plus. rewrite m_Seq, m_Chr_cons.
  rewrite Ha, m_star_greedy_chr.
  apply greedy_success; [exact Hq | reflexivity |].
  rewrite m_Seq, DirectiveFacts.m_Lit_append.
  cbn [append]. cbn [append] in Hk.
  rewrite <- Hk. f_equal.
Qed.

Abbreviation letter := (fun a : ascii => is_lower a || is_upper a).

(** What follows the name: white space, an optional opening fence, the
    content and what closes it. *)
Abbreviation body :=
  (Seq (Star true (Chr space))
     (Seq (Opt (Seq (Lit "```") (Seq (Star true (Chr letter)) (Lit NL))))
        (Seq (Group 2 (Star false (Chr any))) closers))).

Lemma fileRegex_shape :
  fileRegex
  = Seq (LitCI "[FILE:")
      (Seq (Star true (Chr space))
         (Seq (Group 1 (Plus true (Chr name_char))) (Seq (Lit "]") body))).
Proof. reflexivity. Qed.

(** A body without opening fence. *)
Lemma body_plain : forall w g2 closing rest c0,
  all space w = true ->
  stops space (g2 ++ closing ++ rest) = true ->
  startsWith (g2 ++ closing ++ rest) "```" = false ->
  g2 = EmptyString \/ (exists t, closing = String nl t) ->
  (forall (A : Type) (k : kont A) c x,
     k closing rest c = Some x -> m closers (closing ++ rest) c k = Some x) ->
  includes g2 "```" = false ->
  includes (toLowerCase g2) "[/file]" = false ->
  forall (A : Type) (k : kont A) x,
    k (w ++ g2 ++ closing) rest ((2, g2) :: c0) = Some x ->
    m body (w ++ g2 ++ closing ++ rest) c0 k = Some x.
Proof.
  intros w g2 closing rest c0 Hw Hstop Hnofence Hpre Hacc Hf Hc A k x Hk.
  rewrite m_Seq, m_star_greedy_chr.
  apply greedy_success; [exact Hw | exact Hstop |].
  rewrite m_Seq. unfold Opt at 1. rewrite m_Alt, m_Seq, m_Lit, Hnofence.
  rewrite m_Eps.
  apply content_match; try assumption.
Qed.

(** A body that opens with a fence. *)
Lemma body_fenced : forall lang g2 rest c0,
  all letter lang = true ->
  includes g2 "```" = false ->
  includes (toLowerCase g2) "[/file]" = false ->
  forall (A : Type) (k : kont A) x,
    k (NL ++ ("```" ++ lang ++ NL) ++ g2 ++ NL ++ "```") rest ((2, g2) :: c0)
    = Some x ->
    m body (NL ++ "```" ++ lang ++ NL ++ g2 ++ (NL ++ "```") ++ rest) c0 k
    = Some x.
Proof.
  intros lang g2 rest c0 Hl Hf Hc A k x Hk.
  rewrite m_Seq, m_star_greedy_chr.
  apply greedy_success; [reflexivity | reflexivity |].
  rewrite m_Seq. unfold Opt at 1. rewrite m_Alt.
  match goal with
  | |- match ?E with _ => _ end = _ =>
      assert (HE : E = Some x); [|now rewrite HE]
  end.
  rewrite m_Seq, DirectiveFacts.m_Lit_append.
  rewrite m_Seq, m_star_greedy_chr.
  apply greedy_success; [exact Hl | reflexivity |].
  change (NL ++ g2 ++ (NL ++ "```") ++ rest)
    with (String nl (g2 ++ (NL ++ "```") ++ rest)).
  rewrite DirectiveFacts.m_Lit_NL.
  apply content_match; try assumption.
  - right. now exists "```".
  - intros. now apply closers_accept_fence.
Qed.

Lemma file_block_text : forall a q content rest,
  file_block (String a q) content ++ rest
  = "[FILE:" ++ String " " (String a (q ++ "]" ++
      String nl (content ++ (NL ++ "[/FILE]") ++ rest))).
Proof.
  intros. unfold file_block, NL. rewrite !append_assoc. reflexivity.
Qed.

Lemma well_formed_parts : forall name content,
  well_formed (name, content) = true ->
  (exists a q, name = String a q /\ name_char a = true
               /\ all name_char q = true)
  /\ all name_char name = true
  /\ includes content "```" = false
  /\ includes (toLowerCase content) "[/file]" = false.
Proof.
  intros name content Hwf. unfold well_formed in Hwf.
  apply andb_true_iff in Hwf. destruct Hwf as [Hwf Hc2].
  apply andb_true_iff in Hwf. destruct Hwf as [Hwf Hc1].
  apply andb_true_iff in Hwf. destruct Hwf as [Hn1 Hn2].
  apply negb_true_iff in Hc1, Hc2. repeat split; auto.
  destruct name as [|a q]; [discriminate|].
  cbn [all] in Hn2. apply andb_true_iff in Hn2. destruct Hn2 as [Ha Hq].
  now exists a, q.
Qed.

Lemma file_match_here : forall name content rest,
  well_formed (name, content) = true ->
  exists t g2,
    match_here fileRegex (file_block name content ++ rest)
    = Some (t, [(2, g2); (1, name)], rest)
    /\ trim g2 = trim content.
Proof.
  intros name content rest Hwf.
  destruct (well_formed_parts _ _ Hwf)
    as ((a & q & -> & Ha & Hq) & _ & Hc1 & Hc2).
  destruct (trimStart_split content) as (lc & Ec & Hlc).
  pose proof (trimStart_stops content) as Hd.
  unfold match_here. rewrite fileRegex_shape, file_block_text.
  destruct (trimStart content) as [|d e] eqn:Ed.
  - (* a blank content: the white space runs up to the closing tag *)
    rewrite append_nil_r in Ec. subst lc.
    eexists. exists EmptyString. split; [|symmetry; now apply trim_blank].
    apply head_match; [exact Ha | exact Hq |].
    change (String nl (content ++ (NL ++ "[/FILE]") ++ rest))
      with (String nl content ++ (NL ++ "[/FILE]") ++ rest).
    rewrite <- append_assoc.
    change (((String nl content ++ NL ++ "[/FILE]") ++ rest))
      with ((String nl content ++ NL ++ "[/FILE]") ++ rest).
    assert (E : (String nl content ++ NL ++ "[/FILE]") ++ rest
                = (String nl (content ++ NL)) ++ EmptyString ++ "[/FILE]" ++ rest).
    { cbn [append]. now rewrite !append_assoc. }
    rewrite E.
    apply body_plain; try reflexivity.
    + unfold space. cbn [all]. rewrite all_append, Hlc. reflexivity.
    + now left.
    + intros. now apply closers_accept.
  - (* a content with a visible character *)
    assert (Hf : includes (String d e) "```" = false).
    { apply (includes_tail lc). now rewrite <- Ec. }
    assert (Hc : includes (toLowerCase (String d e)) "[/file]" = false).
    { apply (includes_tail (toLowerCase lc)).
      now rewrite <- ExtractFacts.toLowerCase_append, <- Ec. }
    eexists. exists (String d e).
    split; [|rewrite Ec; symmetry; now apply trim_append_space].
    apply head_match; [exact Ha | exact Hq |].
    assert (E : String nl (content ++ (NL ++ "[/FILE]") ++ rest)
                = String nl lc ++ String d e ++ (NL ++ "[/FILE]") ++ rest).
    { rewrite Ec at 1. cbn [append]. now rewrite !append_assoc. }
    rewrite E.
    apply body_plain; try assumption; try reflexivity.
    + apply (no_start_inside "```" EmptyString); auto.
    + right. now exists "[/FILE]".
    + intros. now apply closers_accept_nl.
Qed.

(** What [extractFiles] reads from a match. *)
Abbreviation file_of :=
  (fun x : result => (trim (group_or_empty 1 (groups x)),
                      trim (group_or_empty 2 (groups x)))).

Abbreviation store_file :=
  (fun (files : FileMap) (b : string * string) =>
     Obj.set (ensureProperExtension (fst b) (snd b)) (snd b) files).

Lemma files_loop_fold : forall ms acc,
  files_loop ms acc = fold_left store_file (map file_of ms) acc.
Proof.
  induction ms as [|x ms IH]; intros acc; [reflexivity|].
  cbn [files_loop map fold_left]. cbv zeta. now rewrite IH.
Qed.

Lemma match_here_newline : forall s,
  match_here fileRegex (String nl s) = None.
Proof.
  intros s. apply (ExtractFacts.match_here_LitCI "[FILE:"). reflexivity.
Qed.

(** A line feed in front of the text is passed over. *)
Lemma exec_loop_skip_newline : forall n s,
  map file_of (exec_loop n fileRegex (String nl s))
  = map file_of (exec_loop n fileRegex s).
Proof.
  intros [|n] s; [reflexivity|].
  rewrite !DirectiveFacts.exec_loop_S, DirectiveFacts.search_cons.
  rewrite match_here_newline.
  rewrite DirectiveFacts.search_pre.
  destruct (search fileRegex EmptyString s); reflexivity.
Qed.

Lemma length_file_blocks : forall blocks,
  List.length blocks <= String.length (file_blocks blocks).
Proof.
  induction blocks as [|[p c] blocks IH]; simpl; [lia|].
  rewrite !length_append. simpl. lia.
Qed.

Lemma exec_loop_file_blocks : forall blocks n,
  forallb well_formed blocks = true ->
  List.length blocks < n ->
  map file_of (exec_loop n fileRegex (file_blocks blocks))
  = map (fun b => (fst b, trim (snd b))) blocks.
Proof.
  induction blocks as [|[p c] blocks IH]; intros n Hwf Hn.
  - destruct n; reflexivity.
  - cbn [forallb] in Hwf. apply andb_true_iff in Hwf. destruct Hwf as [Hb Hwf].
    destruct n as [|n]; [simpl in Hn; lia|].
    destruct (file_match_here p c (NL ++ file_blocks blocks) Hb)
      as (t & g2 & Hm & Hg2).
    change (file_blocks ((p, c) :: blocks))
      with (file_block p c ++ NL ++ file_blocks blocks).
    rewrite DirectiveFacts.exec_loop_S,
            (DirectiveFacts.search_hit _ EmptyString _ _ _ _ Hm).
    cbn [rest map].
    change (NL ++ file_blocks blocks) with (String nl (file_blocks blocks)).
    rewrite exec_loop_skip_newline, IH by (simpl in Hn; auto; lia).
    cbn [groups group_or_empty group Nat.eqb fst snd].
    rewrite Hg2. f_equal. f_equal. apply trim_name.
    now destruct (well_formed_parts _ _ Hb) as (_ & H & _).
Qed.

Lemma fenced_block_text : forall a q lang content rest,
  fenced_block (String a q) lang content ++ rest
  = "[FILE:" ++ String " " (String a (q ++ "]" ++
      (NL ++ "```" ++ lang ++ NL ++ content ++ (NL ++ "```")
          ++ (NL ++ "[/FILE]" ++ rest)))).
Proof.
  intros. unfold fenced_block, NL. rewrite !append_assoc. reflexivity.
Qed.

Lemma fenced_match_here : forall name lang content rest,
  well_fenced (name, lang, content) = true ->
  exists t,
    match_here fileRegex (fenced_block name lang content ++ rest)
    = Some (t, [(2, content); (1, name)], NL ++ "[/FILE]" ++ rest).
Proof.
  intros name lang content rest Hwf. unfold well_fenced in Hwf.
  apply andb_true_iff in Hwf. destruct Hwf as [Hwf Hl].
  destruct (well_formed_parts _ _ Hwf)
    as ((a & q & -> & Ha & Hq) & _ & Hc1 & Hc2).
  unfold match_here. rewrite fileRegex_shape, fenced_block_text.
  eexists. apply head_match; [exact Ha | exact Hq |].
  apply body_fenced; try assumption. reflexivity.
Qed.

Lemma exec_loop_skip : forall n a s,
  match_here fileRegex (String a s) = None ->
  map file_of (exec_loop n fileRegex (String a s))
  = map file_of (exec_loop n fileRegex s).
Proof.
  intros [|n] a s H; [reflexivity|].
  rewrite !DirectiveFacts.exec_loop_S, DirectiveFacts.search_cons, H.
  rewrite DirectiveFacts.search_pre.
  destruct (search fileRegex EmptyString s); reflexivity.
Qed.

(** The closing tag left after a fence is passed over. *)
Lemma exec_loop_after_tag : forall n s,
  map file_of (exec_loop n fileRegex (NL ++ "[/FILE]" ++ NL ++ s))
  = map file_of (exec_loop n fileRegex s).
Proof.
  intros n s. unfold NL. cbn [append].
  now rewrite !exec_loop_skip
    by (apply (ExtractFacts.match_here_LitCI "[FILE:"); reflexivity).
Qed.

Lemma length_fenced_blocks : forall blocks,
  List.length blocks <= String.length (fenced_blocks blocks).
Proof.
  induction blocks as [|[[p l] c] blocks IH]; simpl; [lia|].
  rewrite !length_append. simpl. lia.
Qed.

Lemma exec_loop_fenced_blocks : forall blocks n,
  forallb well_fenced blocks = true ->
  List.length blocks < n ->
  map file_of (exec_loop n fileRegex (fenced_blocks blocks))
  = map (fun b => (fst (fst b), trim (snd b))) blocks.
Proof.
  induction blocks as [|[[p l] c] blocks IH]; intros n Hwf Hn.
  - destruct n; reflexivity.
  - cbn [forallb] in Hwf. apply andb_true_iff in Hwf. destruct Hwf as [Hb Hwf].
    destruct n as [|n]; [simpl in Hn; lia|].
    destruct (fenced_match_here p l c (NL ++ fenced_blocks blocks) Hb)
      as (t & Hm).
    change (fenced_blocks ((p, l, c) :: blocks))
      with (fenced_block p l c ++ NL ++ fenced_blocks blocks).
    rewrite DirectiveFacts.exec_loop_S,
            (DirectiveFacts.search_hit _ EmptyString _ _ _ _ Hm).
    cbn [rest map].
    rewrite exec_loop_after_tag, IH by (simpl in Hn; auto; lia).
    cbn [groups group_or_empty group Nat.eqb fst snd].
    f_equal. f_equal. apply trim_name.
    unfold well_fenced in Hb. apply andb_true_iff in Hb. destruct Hb as [Hb _].
    now destruct (well_formed_parts _ _ Hb) as (_ & H & _).
Qed.

Lemma fold_stored : forall blocks acc,
  fold_left store_file (map (fun b => (fst b, trim (snd b))) blocks) acc
  = fold_left (fun files b =>
                 Obj.set (ensureProperExtension (fst b) (trim (snd b)))
                         (trim (snd b)) files)
              blocks acc.
Proof.
  induction blocks as [|b blocks IH]; intros acc; [reflexivity|].
  cbn [map fold_left fst snd]. now rewrite IH.
Qed.

Lemma set_nonempty : forall k v (o : FileMap), Obj.set k v o <> [].
Proof.
  intros k v o E. pose proof (ObjFacts.get_set_same _ k v o) as G.
  rewrite E in G. discriminate.
Qed.

Lemma stored_nonempty : forall blocks acc,
  acc <> [] ->
  fold_left (fun files b =>
               Obj.set (ensureProperExtension (fst b) (trim (snd b)))
                       (trim (snd b)) files)
            blocks acc <> [].
Proof.
  induction blocks as [|b blocks IH]; intros acc H; [exact H|].
  cbn [fold_left]. apply IH. apply set_nonempty.
Qed.


End FileDirectiveFacts.



(** A path without an extension is not kept: the extractor stores the
    content under the path with the extension detected from the content. *)
Example extractFiles_normalises_path :
  LocalInference.extractFiles (FileDirectives.file_blocks [("src/app", "const x = [1];")])
  = [("src/app.js", "const x = [1];")].
Proof. vm_compute. reflexivity. Qed.

(** X21. A text made of well-formed [[FILE: name]] ... [[/FILE]] blocks is
    read back by [extractFiles] block by block: the result is the map
    obtained by storing, in the order of the blocks, each trimmed content
    under the block's name after normalisation of its extension; the
    code-fence fallback is not consulted. *)
Theorem extractFiles_file_blocks : forall blocks,
  forallb FileDirectives.well_formed blocks = true ->
  LocalInference.extractFiles (FileDirectives.file_blocks blocks)
  = FileDirectives.stored blocks.
Proof.
  intros blocks Hwf. unfold LocalInference.extractFiles.
  rewrite FileDirectiveFacts.files_loop_fold. unfold Regex.exec_all.
  rewrite (FileDirectiveFacts.exec_loop_file_blocks blocks _ Hwf)
    by (pose proof (FileDirectiveFacts.length_file_blocks blocks); lia).
  rewrite FileDirectiveFacts.fold_stored.
  fold (FileDirectives.stored blocks). cbv zeta.
  destruct blocks as [|b blocks]; [reflexivity|].
  destruct (FileDirectives.stored (b :: blocks)) as [|e files] eqn:E;
    [|reflexivity].
  exfalso. revert E. unfold FileDirectives.stored. cbn [fold_left].
  apply FileDirectiveFacts.stored_nonempty, FileDirectiveFacts.set_nonempty.
Qed.

Lemma extractFiles_file_blocks_witness :
  let blocks := [("index.html", "<div>Hi</div>"); ("src/app", "const x = [1];")] in
  forallb FileDirectives.well_formed blocks = true
  /\ LocalInference.extractFiles (FileDirectives.file_blocks blocks)
     = [("index.html", "<div>Hi</div>"); ("src/app.js", "const x = [1];")].
Proof.
  split; [reflexivity|].
  exact (extractFiles_file_blocks
           [("index.html", "<div>Hi</div>"); ("src/app", "const x = [1];")]
           eq_refl).
Defined.

(** X22. A text made of well-formed [[FILE: name]] blocks whose content
    stands inside a code fence, followed by the closing tag, is read back
    by [extractFiles] block by block: each trimmed content is stored under
    the block's name after normalisation of its extension, the language
    tag of the fence plays no role and the closing tag after the fence is
    passed over. *)
Theorem extractFiles_fenced_blocks : forall blocks,
  forallb FileDirectives.well_fenced blocks = true ->
  LocalInference.extractFiles (FileDirectives.fenced_blocks blocks)
  = FileDirectives.stored (map (fun b => (fst (fst b), snd b)) blocks).
Proof.
  intros blocks Hwf. unfold LocalInference.extractFiles.
  rewrite FileDirectiveFacts.files_loop_fold. unfold Regex.exec_all.
  rewrite (FileDirectiveFacts.exec_loop_fenced_blocks blocks _ Hwf)
    by (pose proof (FileDirectiveFacts.length_fenced_blocks blocks); lia).
  replace (map (fun b : string * string * string => (fst (fst b), Js.trim (snd b)))
               blocks)
    with (map (fun b : string * string => (fst b, Js.trim (snd b)))
              (map (fun b : string * string * string => (fst (fst b), snd b))
                   blocks))
    by (rewrite map_map; reflexivity).
  rewrite FileDirectiveFacts.fold_stored.
  fold (FileDirectives.stored (map (fun b : string * string * string =>
                                      (fst (fst b), snd b)) blocks)).
  cbv zeta.
  destruct blocks as [|b blocks]; [reflexivity|].
  destruct (FileDirectives.stored _) as [|e files] eqn:E; [|reflexivity].
  exfalso. revert E. unfold FileDirectives.stored. cbn [map fold_left].
  apply FileDirectiveFacts.stored_nonempty, FileDirectiveFacts.set_nonempty.
Qed.

Lemma extractFiles_fenced_blocks_witness :
  let blocks := [("index.html", "html", "<div>Hi</div>");
                 ("src/app.txt", "js", "const x = [1];")] in
  forallb FileDirectives.well_fenced blocks = true
  /\ LocalInference.extractFiles (FileDirectives.fenced_blocks blocks)
     = [("index.html", "<div>Hi</div>"); ("src/app.js", "const x = [1];")].
Proof.
  split; [reflexivity|].
  exact (extractFiles_fenced_blocks
           [("index.html", "html", "<div>Hi</div>");
            ("src/app.txt", "js", "const x = [1];")]
           eq_refl).
Defined.

(** ** Sessions in good order *)

Module SessionFacts.
Import Store Session.

Lemma deleteFile_well_kept : forall path st,
  well_kept st -> well_kept (deleteFile path st).
Proof.
  intros path st (Hnd & Hcons & k & Hk & Hin). unfold deleteFile.
  destruct (List.length (Obj.keys (files st)) <=? 1)%nat eqn:Hlen;
    [now repeat split; eauto|].
  apply Nat.leb_gt in Hlen.
  pose proof (ObjFacts.delete_nonempty _ path _ Hnd Hlen) as Hne.
  unfold well_kept. cbn [files activeFile set_files set_activeFile].
  split; [now apply ObjFacts.NoDup_delete|].
  split.
  - intros k' c' H. apply ObjFacts.In_delete in H. apply Hcons, H.
  - rewrite Hk. cbn [same_path].
    destruct (String.eqb k path) eqn:E.
    + destruct (Obj.delete path (files st)) as [|[k1 v1] o] eqn:Ed;
        [congruence|].
      exists k1. split; [reflexivity|]. now left.
    + exists k. split; [reflexivity|].
      rewrite ObjFacts.keys_delete. apply filter_In. split; [exact Hin|].
      now rewrite E.
Qed.

End SessionFacts.

(** X23. Deleting files one after the other keeps a session in good
    order: from a state whose file names suit their contents and whose
    active file is one of the files, any sequence of [deleteFile] leads to
    a state that has these properties again; in particular the active
    file is never a deleted one and at least one file remains. *)
Theorem deleteFiles_well_kept : forall paths st,
  Session.well_kept st ->
  Session.well_kept (Session.deleteFiles paths st)
  /\ Store.files (Session.deleteFiles paths st) <> [].
Proof.
  intros paths st H.
  assert (Hk : Session.well_kept (Session.deleteFiles paths st)).
  { revert st H. unfold Session.deleteFiles.
    induction paths as [|p paths IH]; intros st H; [exact H|].
    cbn [fold_left]. apply IH. now apply SessionFacts.deleteFile_well_kept. }
  split; [exact Hk|].
  destruct Hk as (_ & _ & k & _ & Hin). intros E. rewrite E in Hin. exact Hin.
Qed.

Lemma deleteFiles_well_kept_witness :
  let paths := ["index.html"; "styles.css"; "script.js"] in
  Session.well_kept demoState
  /\ Session.well_kept (Session.deleteFiles paths demoState)
  /\ Store.files (Session.deleteFiles paths demoState) <> [].
Proof.
  assert (H : Session.well_kept demoState).
  { split; [|split].
    - repeat constructor; simpl; intuition discriminate.
    - intros k c [E | [E | [E | []]]]; injection E as <- <-; reflexivity.
    - exists "index.html". split; [reflexivity|]. now left. }
  split; [exact H|].
  exact (deleteFiles_well_kept ["index.html"; "styles.css"; "script.js"]
           demoState H).
Defined.

(** ** Code fences *)

Module CodeFenceFacts.
Import Js Regex JsFacts RegexFacts LocalInference CodeFences.

Lemma trimEnd_append_nl : forall s, trimEnd (s ++ NL) = trimEnd s.
Proof.
  induction s as [|a s IH]; [reflexivity|].
  cbn [append trimEnd]. now rewrite IH.
Qed.

Lemma trimStart_visible : forall s t,
  is_empty (trimStart s) = false -> trimStart (s ++ t) = trimStart s ++ t.
Proof.
  induction s as [|a s IH]; intros t H; [discriminate|].
  cbn [append trimStart] in *. destruct (is_space a); [now apply IH|reflexivity].
Qed.

Lemma trimStart_blank : forall s,
  is_empty (trimStart s) = true -> all is_space s = true.
Proof.
  induction s as [|a s IH]; intros H; [reflexivity|].
  cbn [trimStart all] in *. destruct (is_space a); [now apply IH|discriminate].
Qed.

(** A line feed after the text does not change what [trim] returns. *)
Lemma trim_append_nl : forall s, trim (s ++ NL) = trim s.
Proof.
  intros s. unfold trim. destruct (is_empty (trimStart s)) eqn:E.
  - pose proof (trimStart_blank s E) as Hs.
    rewrite (trimStart_append_space s NL Hs).
    destruct (trimStart s); [reflexivity|discriminate].
  - rewrite (trimStart_visible s NL E). apply trimEnd_append_nl.
Qed.

(** What is left of a line lies in the line. *)
Lemma line_suffix : forall p content b v2,
  content ++ NL = p ++ String b v2 ->
  exists v, String b v2 = v ++ NL /\ content = p ++ v.
Proof.
  induction p as [|a p IH]; intros content b v2 E.
  - exists content. auto.
  - destruct content as [|a' content].
    + cbn [append] in E. injection E as _ E. destruct p; discriminate.
    + cbn [append] in E. injection E as <- E.
      destruct (IH _ _ _ E) as (v & Hv & Hc). exists v. split; [exact Hv|].
      cbn [append]. now rewrite Hc.
Qed.

Lemma no_fence_in_line : forall content p b v2 t,
  includes content "```" = false ->
  content ++ NL = p ++ String b v2 ->
  startsWith (String b v2 ++ t) "```" = false.
Proof.
  intros content p b v2 t H E.
  destruct (line_suffix _ _ _ _ E) as (v & -> & ->).
  rewrite append_assoc. change (NL ++ t) with (String nl t).
  rewrite startsWith_before_newline by reflexivity.
  now apply (includes_suffix p).
Qed.

(** The white space before the content ends at its last line feed. *)
Lemma last_newline_split : forall l,
  all is_space l = true ->
  exists u1 w2,
    String nl l = u1 ++ String nl w2
    /\ all space u1 = true /\ all space w2 = true
    /\ has_char nl w2 = false
    /\ exists l1, l = l1 ++ w2.
Proof.
  intros l Hl. destruct (has_char nl l) eqn:Hnl.
  - destruct (last_newline l Hnl) as (l1 & l2 & El & Hl2).
    rewrite El, all_append in Hl. apply andb_true_iff in Hl.
    destruct Hl as [Hl1 Hl2']. cbn [all] in Hl2'.
    apply andb_true_iff in Hl2'. destruct Hl2' as [_ Hl2'].
    exists (String nl l1), l2.
    split; [cbn [append]; now rewrite El|].
    split; [unfold space; cbn [all]; now rewrite Hl1|].
    split; [exact Hl2'|]. split; [exact Hl2|].
    exists (l1 ++ NL). rewrite El. now rewrite append_assoc.
  - exists EmptyString, l.
    split; [reflexivity|]. split; [reflexivity|]. split; [exact Hl|].
    split; [exact Hnl|]. now exists EmptyString.
Qed.

(** From the line feed after the tag to the closing fence. *)
Abbreviation fence_body :=
  (Seq (Star true (Chr space))
     (Seq (Lit NL) (Seq (Group 2 (Star false (Chr any))) (Lit "```")))).

Lemma fence_body_match : forall content rest c0,
  includes content "```" = false ->
  exists g2 t0, trim g2 = trim content /\
    forall (A : Type) (k : kont A) x,
      k t0 rest ((2, g2) :: c0) = Some x ->
      m fence_body (String nl (content ++ NL ++ "```" ++ rest)) c0 k = Some x.
Proof.
  intros content rest c0 Hf.
  destruct (trimStart_split (content ++ NL)) as (lf & Ef & Hlf).
  pose proof (trimStart_stops (content ++ NL)) as Hd.
  set (tf := trimStart (content ++ NL)) in *.
  destruct (last_newline_split lf Hlf)
    as (u1 & w2 & EW & Hu1 & Hw2 & Hnl & l1 & El).
  exists (w2 ++ tf), (u1 ++ NL ++ (w2 ++ tf) ++ "```"). split.
  - rewrite <- (trim_append_nl content), Ef.
    rewrite (trim_append_space lf tf Hlf). now apply trim_append_space.
  - intros A k x Hk.
    assert (Etext : String nl (content ++ NL ++ "```" ++ rest)
                    = u1 ++ String nl (w2 ++ tf ++ "```" ++ rest)).
    { rewrite <- (append_assoc content), Ef, append_assoc.
      change (String nl (lf ++ tf ++ "```" ++ rest))
        with (String nl lf ++ tf ++ "```" ++ rest).
      rewrite EW, append_assoc. reflexivity. }
    rewrite Etext, m_Seq, m_star_greedy_chr.
    apply greedy_until_newline; try assumption; try reflexivity.
    + intros acc r c Hr. rewrite m_Seq, m_Lit, DirectiveFacts.startsWith_NL, Hr.
      reflexivity.
    + destruct tf as [|d e]; [reflexivity|exact Hd].
    + rewrite m_Seq, DirectiveFacts.m_Lit_NL.
      rewrite m_Seq, m_Group, m_star_lazy_chr.
      rewrite <- append_assoc.
      apply lazy_first.
      * reflexivity.
      * intros v1 b v2 E. rewrite m_Lit.
        rewrite (no_fence_in_line content (l1 ++ v1) b v2 ("```" ++ rest) Hf);
          [reflexivity|].
        rewrite Ef, El, append_assoc, append_assoc, <- E.
        now rewrite <- !append_assoc.
      * rewrite DirectiveFacts.m_Lit_append. exact Hk.
Qed.

Lemma codeBlockRegex_shape :
  codeBlockRegex
  = Seq (Lit "```") (Seq (Opt (Group 1 (Plus true (Chr word)))) fence_body).
Proof. reflexivity. Qed.

Lemma code_fence_text : forall lang content rest,
  code_fence lang content ++ rest
  = "```" ++ lang ++ String nl (content ++ NL ++ "```" ++ rest).
Proof.
  intros. unfold code_fence, NL. rewrite !append_assoc. reflexivity.
Qed.

Lemma fence_match_here : forall lang content rest,
  well_formed (lang, content) = true ->
  exists t g2,
    match_here codeBlockRegex (code_fence lang content ++ rest)
    = Some (t, (2, g2) :: (if is_empty lang then [] else [(1, lang)]), rest)
    /\ trim g2 = trim content.
Proof.
  intros lang content rest Hwf. unfold well_formed in Hwf.
  apply andb_true_iff in Hwf. destruct Hwf as [Hl Hc].
  apply negb_true_iff in Hc.
  unfold match_here. rewrite codeBlockRegex_shape, code_fence_text.
  destruct lang as [|a q].
  - (* no language tag *)
    destruct (fence_body_match content rest [] Hc) as (g2 & t0 & Hg2 & Hm).
    eexists. exists g2. split; [|exact Hg2].
    rewrite m_Seq, DirectiveFacts.m_Lit_append.
    rewrite m_Seq. unfold Opt. rewrite m_Alt, m_Group. unfold Plus.
    rewrite m_Seq. cbn [append]. rewrite m_Chr_cons.
    change (word nl) with false. cbv iota. rewrite m_Eps.
    apply Hm. reflexivity.
  - (* a language tag *)
    cbn [all] in Hl. apply andb_true_iff in Hl. destruct Hl as [Ha Hq].
    destruct (fence_body_match content rest [(1, String a q)] Hc)
      as (g2 & t0 & Hg2 & Hm).
    eexists. exists g2. split; [|exact Hg2].
    rewrite m_Seq, DirectiveFacts.m_Lit_append.
    rewrite m_Seq. unfold Opt. rewrite m_Alt.
    match goal with
    | |- match ?E with _ => _ end = Some ?x =>
        assert (HE : E = Some x); [|now rewrite HE]
    end.
    rewrite m_Group. unfold Plus. rewrite m_Seq. cbn [append].
    rewrite m_Chr_cons, Ha, m_star_greedy_chr.
    apply greedy_success; [exact Hq | reflexivity |].
    apply Hm. reflexivity.
Qed.

(** The text passed over before a match plays no role in the loop. *)
Lemma codeBlocks_loop_newline : forall n s blockIndex files,
  codeBlocks_loop (exec_loop n codeBlockRegex (String nl s)) blockIndex files
  = codeBlocks_loop (exec_loop n codeBlockRegex s) blockIndex files.
Proof.
  intros [|n] s blockIndex files; [reflexivity|].
  assert (H : match_here codeBlockRegex (String nl s) = None)
    by (rewrite codeBlockRegex_shape;
        now apply (ExtractFacts.match_here_Lit "```")).
  rewrite !DirectiveFacts.exec_loop_S, DirectiveFacts.search_cons, H.
  rewrite DirectiveFacts.search_pre.
  destruct (search codeBlockRegex EmptyString s); reflexivity.
Qed.

Lemma longer_not_empty : forall c,
  negb (is_empty c) && (10 <? String.length c)%nat = (10 <? String.length c)%nat.
Proof. destruct c; reflexivity. Qed.

Lemma length_code_fences : forall blocks,
  List.length blocks <= String.length (code_fences blocks).
Proof.
  induction blocks as [|[l c] blocks IH]; simpl; [lia|].
  rewrite !length_append. simpl. lia.
Qed.

Lemma codeBlocks_loop_fences : forall blocks n blockIndex files,
  forallb well_formed blocks = true ->
  List.length blocks < n ->
  codeBlocks_loop (exec_loop n codeBlockRegex (code_fences blocks))
                  blockIndex files
  = stored blocks blockIndex files.
Proof.
  induction blocks as [|[l c] blocks IH]; intros n blockIndex files Hwf Hn.
  - destruct n; reflexivity.
  - cbn [forallb] in Hwf. apply andb_true_iff in Hwf. destruct Hwf as [Hb Hwf].
    destruct n as [|n]; [simpl in Hn; lia|].
    destruct (fence_match_here l c (NL ++ code_fences blocks) Hb)
      as (t & g2 & Hm & Hg2).
    change (code_fences ((l, c) :: blocks))
      with (code_fence l c ++ NL ++ code_fences blocks).
    rewrite DirectiveFacts.exec_loop_S,
            (DirectiveFacts.search_hit _ EmptyString _ _ _ _ Hm).
    cbn [rest codeBlocks_loop stored]. cbv zeta.
    cbn [groups group_or_empty group Nat.eqb].
    rewrite Hg2, longer_not_empty.
    change (NL ++ code_fences blocks) with (String nl (code_fences blocks)).
    destruct (10 <? String.length (trim c))%nat;
      rewrite codeBlocks_loop_newline, IH by (auto; simpl in Hn; lia);
      [|reflexivity].
    destruct l; reflexivity.
Qed.

End CodeFenceFacts.

(** X24. A text made of well-formed code fences (a language tag that is a
    word, possibly empty, then the content on lines of its own) is read
    block by block by [extractCodeBlocks]: each block whose trimmed content
    is longer than ten characters is stored, trimmed, under the name that
    [generateFilename] gives for the tag in lower case ([text] without a
    tag) and the number of blocks named before it; shorter blocks are
    passed over and do not advance that number.  A block that names itself
    [__proto__] in a comment advances the number and leaves no entry. *)
Theorem extractCodeBlocks_code_fences : forall blocks,
  forallb CodeFences.well_formed blocks = true ->
  LocalInference.extractCodeBlocks (CodeFences.code_fences blocks)
  = CodeFences.stored blocks 0 [].
Proof.
  intros blocks Hwf. unfold LocalInference.extractCodeBlocks, Regex.exec_all.
  apply CodeFenceFacts.codeBlocks_loop_fences; [exact Hwf|].
  pose proof (CodeFenceFacts.length_code_fences blocks). lia.
Qed.

Lemma extractCodeBlocks_code_fences_witness :
  let blocks := [("JS", "const total = 1 + 2;"); ("", "short");
                 ("js", "// file: __proto__"); ("constructor", "a long sentence");
                 ("css", "body { margin: 0.5em }")] in
  forallb CodeFences.well_formed blocks = true
  /\ LocalInference.extractCodeBlocks (CodeFences.code_fences blocks)
     = [("script1.js", "const total = 1 + 2;");
        ("constructor3.function Object() { [native code] }", "a long sentence");
        ("css4.css", "body { margin: 0.5em }")].
Proof.
  split; [reflexivity|].
  exact (extractCodeBlocks_code_fences
           [("JS", "const total = 1 + 2;"); ("", "short");
            ("js", "// file: __proto__"); ("constructor", "a long sentence");
            ("css", "body { margin: 0.5em }")] eq_refl).
Defined.

(** ** Plan mode *)

Module PlanFacts.
Import Js Store.

(** Writing every line back with its line feed gives the text and one
    more line feed. *)
Lemma lines_written : forall s,
  concat_all (map (fun l => l ++ NL) (split nl s)) = s ++ NL.
Proof.
  induction s as [|a s IH]; [reflexivity|].
  cbn [split]. destruct (Ascii.eqb a nl) eqn:E.
  - apply Ascii.eqb_eq in E. subst a. cbn [map concat_all]. now rewrite IH.
  - pose proof (DispatcherFacts.split_nonempty nl s) as Hne.
    destruct (split nl s) as [|x xs]; [congruence|].
    cbn [map concat_all] in *. cbn [append]. now rewrite <- IH.
Qed.

Lemma write_lines_files : forall name snapshot lines cur s,
  lines <> [] ->
  files (write_lines name snapshot lines cur s)
  = Obj.set name (cur ++ concat_all (map (fun l => l ++ NL) lines)) snapshot.
Proof.
  induction lines as [|l lines IH]; intros cur s H; [congruence|].
  cbn [write_lines]. cbv zeta. destruct lines as [|l' lines].
  - cbn [write_lines files set_files map concat_all].
    now rewrite JsFacts.append_nil_r.
  - rewrite IH by discriminate. cbn [map concat_all].
    now rewrite !JsFacts.append_assoc.
Qed.

End PlanFacts.

(** X25. Plan mode and the files.  When the plan file could be created,
    the session ends with that file holding the header followed by the
    model's answer and one line feed, every other file as it was, the
    plan file active and no file marked as being written; when the
    creation failed, files and active file are untouched. *)
Theorem handlePlanMode_files : forall content w st,
  let st' := fst (Store.handlePlanMode content w st) in
  let name := Store.planFileName w in
  (Store.createFile_ok w = true ->
     Obj.get name (Store.files st')
     = Some (Store.initialPlanContent content w ++ Store.answer w ++ Js.NL)
     /\ (forall k, k <> name ->
           Obj.get k (Store.files st') = Obj.get k (Store.files st))
     /\ Store.activeFile st' = Some name)
  /\ (Store.createFile_ok w = false ->
        Store.files st' = Store.files st
        /\ Store.activeFile st' = Store.activeFile st)
  /\ Store.liveWritingFile st' = None.
Proof.
  intros content w st st' name. subst st' name. unfold Store.handlePlanMode.
  destruct (Store.createFile_ok w); cbv zeta; unfold Store.after_try;
    cbn [fst].
  - match goal with
    | |- context [Store.write_lines ?n ?sn ?ls ?cur ?s] =>
        pose proof (PlanFacts.write_lines_files n sn ls cur s
                      (DispatcherFacts.split_nonempty _ _)) as Hf;
        destruct (StoreFacts.write_lines_other n sn ls cur s)
          as (_ & _ & Ha & _)
    end.
    rewrite PlanFacts.lines_written in Hf.
    cbn [Store.files Store.activeFile Store.liveWritingFile Store.add_message
         Store.setLiveWritingFile Store.log Store.set_activeFile
         Store.set_files] in *.
    rewrite Hf, Ha.
    split; [intros _|split; [discriminate|reflexivity]].
    split; [apply ObjFacts.get_set_same|].
    split; [|reflexivity].
    intros k Hk. now apply ObjFacts.get_set_other.
  - cbn [Store.files Store.activeFile Store.liveWritingFile Store.add_message
         Store.setLiveWritingFile Store.log].
    split; [discriminate|]. split; [|reflexivity]. intros _. split; reflexivity.
Qed.
